(** * series-rename: the episode mapping engine of [src/filebrowser.ts]

    A shallow embedding of the file browser's episode mapping engine
    (episode number parser, file name sanitizer, mapping builder, batch
    rename executor) and of the keypress-driven prompt workflow, with the
    properties the specification states about them.

    The source file holds successive revisions of the class
    [FileBrowser]; the model follows the revision that has the series
    pipeline, the one that declares [episodeRegexes] and
    [episodeReplaces].  Paths follow the POSIX flavour of Node's [path]
    module.

    JavaScript values are modelled as follows.
    - A string is the list of its UTF-16 code units ([JS.jsstring]).
    - A number is an integer ([Z]); the program only handles season and
      episode numbers and counts, on which JavaScript numbers are exact
      below 2^53.
    - [undefined] in an optional position is [None].
    - A promise is modelled by its outcome; an effect by the trace it
      leaves (file system calls issued, console lines written). *)

From Stdlib Require Import List ZArith NArith Lia Bool Ascii String.
From Stdlib Require Import Permutation Sorted.
Import ListNotations.

(* ================================================================== *)
(** ** JavaScript strings and the builtins the program calls *)

Module JS.

(** A UTF-16 code unit. *)
Definition char := N.
Definition jsstring := list char.

(** An ASCII literal as a JavaScript string. *)
Definition lit (s : string) : jsstring :=
  map N_of_ascii (list_ascii_of_string s).

(** The non-ASCII code units named in [episodeReplaces]. *)
Definition a_uml : char := 228%N.   (* ä *)
Definition o_uml : char := 246%N.   (* ö *)
Definition u_uml : char := 252%N.   (* ü *)
Definition eszett : char := 223%N.  (* ß *)
Definition A_uml : char := 196%N.   (* Ä *)
Definition O_uml : char := 214%N.   (* Ö *)
Definition U_uml : char := 220%N.   (* Ü *)

Definition c_tab : char := 9%N.
Definition c_space : char := 32%N.
Definition c_quote : char := 34%N.   (* the double quote *)
Definition c_comma : char := 44%N.
Definition c_dot : char := 46%N.
Definition c_slash : char := 47%N.
Definition c_colon : char := 58%N.
Definition c_question : char := 63%N.

(** [a === b] on strings. *)
Fixpoint str_eqb (a b : jsstring) : bool :=
  match a, b with
  | [], [] => true
  | x :: a', y :: b' => (x =? y)%N && str_eqb a' b'
  | _, _ => false
  end.

(** [\d] *)
Definition isDigit (c : char) : bool := ((48 <=? c) && (c <=? 57))%N.

Fixpoint takeWhile (p : char -> bool) (s : jsstring) : jsstring :=
  match s with
  | [] => []
  | c :: s' => if p c then c :: takeWhile p s' else []
  end.

Fixpoint dropWhile (p : char -> bool) (s : jsstring) : jsstring :=
  match s with
  | [] => []
  | c :: s' => if p c then dropWhile p s' else s
  end.

(** [arr.includes(x)] on an array of strings. *)
Definition includes (arr : list jsstring) (x : jsstring) : bool :=
  existsb (str_eqb x) arr.

(** [s.startsWith(p)] *)
Fixpoint startsWith (s p : jsstring) {struct p} : bool :=
  match p, s with
  | [], _ => true
  | x :: p', y :: s' => (x =? y)%N && startsWith s' p'
  | _ :: _, [] => false
  end.

(** [s.substring(n)] *)
Definition substring (n : nat) (s : jsstring) : jsstring := skipn n s.

(** [parseInt(s)] on a string that starts with decimal digits: the
    value of its leading run of digits.  Every call of the program
    passes a non-empty run of digits (see [String_match_digits]). *)
Definition parseInt (s : jsstring) : Z :=
  fold_left (fun acc c => 10 * acc + (Z.of_N c - 48))%Z
            (takeWhile isDigit s) 0%Z.

(** Decimal digits of a natural number, most significant first;
    [fuel] bounds the number of digits. *)
Fixpoint digits_of (fuel : nat) (n : N) (acc : jsstring) : jsstring :=
  match fuel with
  | O => acc
  | S fuel' =>
      let acc' := (48 + n mod 10)%N :: acc in
      if (n <? 10)%N then acc' else digits_of fuel' (n / 10)%N acc'
  end.

Definition N_toString (n : N) : jsstring :=
  digits_of (S (N.to_nat (N.log2 n))) n [].

(** The string of a number in a template literal, [`${n}`]. *)
Definition Number_toString (z : Z) : jsstring :=
  match z with
  | Zneg p => lit "-" ++ N_toString (Npos p)
  | _ => N_toString (Z.to_N z)
  end.

(** [s.toLowerCase()].  The program only compares the result with
    the entries of [videoFileExtensions], so the model is exact on
    the code units whose lower case is an ASCII character: the ASCII
    capitals and the Kelvin sign U+212A; it leaves every other code
    unit as it is, which cannot make the result ASCII. *)
Definition toLowerChar (c : char) : char :=
  if ((65 <=? c) && (c <=? 90))%N then (c + 32)%N
  else if (c =? 8490)%N then 107%N
  else c.

Definition toLowerCase (s : jsstring) : jsstring := map toLowerChar s.

(** The regular expressions of [episodeRegexes] and the season
    pattern: an optional one-character class followed by [\d+]. *)
Inductive RegExp :=
| ClassDigits (cls : list char)   (* /[cls]\d+/ *)
| Digits.                         (* /\d+/ *)

(** A match of [r] starting at the head of [s]; [\d+] is greedy. *)
Definition match_here (r : RegExp) (s : jsstring) : option jsstring :=
  match r with
  | Digits =>
      match takeWhile isDigit s with
      | [] => None
      | run => Some run
      end
  | ClassDigits cls =>
      match s with
      | [] => None
      | c :: s' =>
          if existsb (N.eqb c) cls then
            match takeWhile isDigit s' with
            | [] => None
            | run => Some (c :: run)
            end
          else None
      end
  end.

(** [s.match(r)] for a regular expression without the [g] flag: the
    text of the leftmost match, [None] for [null]. *)
Fixpoint String_match (r : RegExp) (s : jsstring) : option jsstring :=
  match match_here r s with
  | Some m => Some m
  | None =>
      match s with
      | [] => None
      | _ :: s' => String_match r s'
      end
  end.

(** [s.replace(/pat/g, rep)] for a literal, non-empty pattern [pat]
    and a replacement without [$], as all of [episodeReplaces] are:
    every occurrence, left to right and without overlap, becomes
    [rep].  [skip] counts the code units of a match still to be
    dropped. *)
Fixpoint replace_from (pat rep : jsstring) (skip : nat) (s : jsstring)
  : jsstring :=
  match s with
  | [] => []
  | c :: s' =>
      match skip with
      | S k => replace_from pat rep k s'
      | O =>
          match pat with
          | [] => c :: replace_from pat rep 0 s'
          | _ :: pat' =>
              if startsWith s pat
              then rep ++ replace_from pat rep (List.length pat') s'
              else c :: replace_from pat rep 0 s'
          end
      end
  end.

Definition replace_all (pat rep s : jsstring) : jsstring :=
  replace_from pat rep 0 s.

(** [arr.find(p)] *)
Definition Array_find {A} (p : A -> bool) (arr : list A) : option A :=
  find p arr.

(** [arr.sort(cmp)]: the sort of ECMAScript 2019 is stable, and for a
    consistent comparator the stable sorted arrangement is unique;
    insertion from the right computes it. *)
Fixpoint sort_insert {A} (cmp : A -> A -> Z) (x : A) (l : list A) : list A :=
  match l with
  | [] => [x]
  | y :: l' =>
      if (cmp x y <=? 0)%Z then x :: l else y :: sort_insert cmp x l'
  end.

Fixpoint Array_sort {A} (cmp : A -> A -> Z) (l : list A) : list A :=
  match l with
  | [] => []
  | x :: l' => sort_insert cmp x (Array_sort cmp l')
  end.

End JS.

Import JS.

(* ================================================================== *)
(** ** Node's [path] module (POSIX flavour) *)

Module Path.

(** The segments of a path between its separators. *)
Fixpoint split (sep : char) (s : jsstring) : list jsstring :=
  match s with
  | [] => [[]]
  | c :: s' =>
      if (c =? sep)%N then [] :: split sep s'
      else match split sep s' with
           | seg :: segs => (c :: seg) :: segs
           | [] => [[c]]
           end
  end.

Fixpoint intercalate (sep : jsstring) (segs : list jsstring) : jsstring :=
  match segs with
  | [] => []
  | [seg] => seg
  | seg :: segs' => seg ++ sep ++ intercalate sep segs'
  end.

(** One step of [normalizeString]: [stack] holds the segments kept
    so far, the last one first. *)
Definition normalizeStep (allowAboveRoot : bool)
           (stack : list jsstring) (seg : jsstring) : list jsstring :=
  if str_eqb seg [] || str_eqb seg (lit ".") then stack
  else if str_eqb seg (lit "..") then
    match stack with
    | top :: rest =>
        if str_eqb top (lit "..")
        then (if allowAboveRoot then seg :: stack else stack)
        else rest
    | [] => if allowAboveRoot then [seg] else []
    end
  else seg :: stack.

Definition normalizeString (allowAboveRoot : bool) (path : jsstring)
  : jsstring :=
  intercalate (lit "/")
    (rev (fold_left (normalizeStep allowAboveRoot) (split c_slash path) [])).

(** [path.normalize(p)] *)
Definition normalize (path : jsstring) : jsstring :=
  match path with
  | [] => lit "."
  | c :: _ =>
      let isAbsolute := (c =? c_slash)%N in
      let trailingSeparator := (last path 0%N =? c_slash)%N in
      match normalizeString (negb isAbsolute) path with
      | [] =>
          if isAbsolute then lit "/"
          else if trailingSeparator then lit "./" else lit "."
      | p =>
          (if isAbsolute then lit "/" else []) ++ p
          ++ (if trailingSeparator then lit "/" else [])
      end
  end.

(** [path.join(a, b)]: empty arguments are skipped. *)
Definition join (a b : jsstring) : jsstring :=
  match a, b with
  | [], [] => lit "."
  | [], _ => normalize b
  | _, [] => normalize a
  | _, _ => normalize (a ++ lit "/" ++ b)
  end.

Definition notSlash (c : char) : bool := negb (c =? c_slash)%N.
Definition notDot (c : char) : bool := negb (c =? c_dot)%N.

(** [path.basename(p)]: the last segment, trailing separators
    dropped. *)
Definition basename (path : jsstring) : jsstring :=
  rev (takeWhile notSlash (dropWhile (fun c => (c =? c_slash)%N) (rev path))).

(** [path.extname(p)]: from the last dot of the base name to its end;
    empty when there is no dot, when the only dot leads the base name,
    and for [".."]. *)
Definition extname (path : jsstring) : jsstring :=
  let b := basename path in
  let r := rev b in
  match dropWhile notDot r with
  | [] => []
  | dot :: pre =>
      match pre with
      | [] => []
      | _ :: _ =>
          if str_eqb b (lit "..") then []
          else dot :: rev (takeWhile notDot r)
      end
  end.

End Path.

(* ================================================================== *)
(** ** Data model *)

(** The fields of a provider episode that the program reads. *)
Record Episode := {
  id : Z;
  airedSeason : Z;
  airedEpisodeNumber : Z;
  episodeName : jsstring;
}.

Record Series := {
  seriesId : Z;
  seriesName : jsstring;
  episodes : list Episode;
}.

Record FolderSeasonMatch := {
  fsm_folderName : jsstring;
  season : Z;
}.

(** The [value] of an [EpisodeMapping]. *)
Record MappingValue := {
  originalPath : jsstring;
  updatedPath : jsstring;
  rename : bool;
  episode : option Episode;
  episodeNumber : option jsstring;
  seasonNumber : Z;
  seasonFolder : jsstring;
}.

(** [EpisodeMapping extends ArrayPromptOption]: [name] identifies the
    choice, [message] is the text the prompt shows for it. *)
Record EpisodeMapping := {
  name : jsstring;
  message : jsstring;
  value : MappingValue;
}.

Record SeasonEntry := {
  folderName : option jsstring;
  episodeMappings : list EpisodeMapping;
}.

(** [SeasonMapping]: an object with one property per season number,
    its properties in the order in which [Object.values] and
    [Object.keys] enumerate them: the array indices (the integer keys
    from 0 to 2^32 - 2) in ascending order, then the other keys in
    the order of their creation. *)
Definition SeasonMapping := list (Z * SeasonEntry).

Definition isArrayIndex (k : Z) : bool :=
  ((0 <=? k) && (k <=? 4294967294))%Z.

(** [o[k] = v]: a property that exists keeps its place; a new array
    index goes before the first larger array index and before the
    other keys; another new key goes last. *)
Fixpoint obj_set (k : Z) (v : SeasonEntry) (o : SeasonMapping) : SeasonMapping :=
  match o with
  | [] => [(k, v)]
  | (k', v') :: o' =>
      if (k =? k')%Z then (k, v) :: o'
      else if isArrayIndex k && (negb (isArrayIndex k') || (k <? k')%Z)
      then (k, v) :: o
      else (k', v') :: obj_set k v o'
  end.

Fixpoint obj_get (k : Z) (o : SeasonMapping) : option SeasonEntry :=
  match o with
  | [] => None
  | (k', v') :: o' => if (k =? k')%Z then Some v' else obj_get k o'
  end.

Definition Object_values (o : SeasonMapping) : list SeasonEntry := map snd o.

(* ================================================================== *)
(** ** Module constants *)

Definition videoFileExtensions : list jsstring :=
  [lit ".mp4"; lit ".mkv"; lit ".avi"].

Record EpisodeRegex := {
  regex : RegExp;
  numberStart : nat;
}.

Definition episodeRegexes : list EpisodeRegex :=
  [ {| regex := ClassDigits (lit "eE"); numberStart := 1 |};
    {| regex := ClassDigits (lit "xX"); numberStart := 1 |};
    {| regex := Digits; numberStart := 0 |} ].

(** An entry of [episodeReplaces]: a literal pattern with the [g] flag
    and its replacement. *)
Record EpisodeReplace := {
  pattern : jsstring;
  replacement : jsstring;
}.

Definition episodeReplaces : list EpisodeReplace :=
  [ {| pattern := [a_uml]; replacement := lit "ae" |};
    {| pattern := [o_uml]; replacement := lit "oe" |};
    {| pattern := [u_uml]; replacement := lit "ue" |};
    {| pattern := [eszett]; replacement := lit "ss" |};
    {| pattern := [A_uml]; replacement := lit "AE" |};
    {| pattern := [O_uml]; replacement := lit "OE" |};
    {| pattern := [U_uml]; replacement := lit "UE" |};
    {| pattern := lit "?"; replacement := [] |};
    {| pattern := lit ","; replacement := [] |};
    {| pattern := lit ": "; replacement := lit "-" |};
    {| pattern := lit ":"; replacement := lit "-" |};
    {| pattern := [c_quote]; replacement := lit "'" |};
    {| pattern := lit " "; replacement := lit "." |};
    {| pattern := lit "/"; replacement := lit "_" |};
    {| pattern := [c_tab]; replacement := [] |} ].

(* ================================================================== *)
(** ** Episode numbers and file names *)

Definition twoZero (input : Z) : jsstring :=
  if (input <? 10)%Z then lit "0" ++ Number_toString input
  else Number_toString input.

Definition threeZero (input : Z) : jsstring :=
  if (input <? 100)%Z then lit "0" ++ twoZero input
  else Number_toString input.

Definition generateEpisodeNumber (episodeNumber episodesInSeason : Z) : jsstring :=
  if (episodesInSeason <? 100)%Z then twoZero episodeNumber
  else threeZero episodeNumber.

(** The loop over a replacement table. *)
Definition applyReplaces (table : list EpisodeReplace) (s : jsstring) : jsstring :=
  fold_left (fun acc r => replace_all (pattern r) (replacement r) acc) table s.

(** The file name sanitizer: the loop of [generateEpisodeFileName]
    over [episodeReplaces]. *)
Definition sanitize (s : jsstring) : jsstring := applyReplaces episodeReplaces s.

Definition generateEpisodeFileName
  (fileExtension seriesName : jsstring) (seasonNumber : Z)
  (episodeName : jsstring) (episodeNumber episodesInSeason : Z) : jsstring :=
  let newEpisodeName :=
    seriesName ++ lit ".S" ++ twoZero seasonNumber ++ lit "E"
    ++ generateEpisodeNumber episodeNumber episodesInSeason
    ++ lit "." ++ episodeName ++ fileExtension in
  sanitize newEpisodeName.

Definition unchangedEpisodeMapping
  (seasonFolder : jsstring) (seasonNumber : Z) (fileName : jsstring)
  : EpisodeMapping :=
  {| name := fileName;
     message := lit "--- " ++ fileName;
     value := {| originalPath := Path.join seasonFolder fileName;
                 updatedPath := Path.join seasonFolder fileName;
                 episode := None;
                 rename := false;
                 episodeNumber := None;
                 seasonNumber := seasonNumber;
                 seasonFolder := seasonFolder |} |}.

(** The episode number parser: the loop of [generateEpisodeName] over
    a table of patterns, left at the first one that matches. *)
Fixpoint matchEpisodeNumber (table : list EpisodeRegex) (fileName : jsstring)
  : option Z :=
  match table with
  | [] => None
  | r :: table' =>
      match String_match (regex r) fileName with
      | Some episodeNumberMatch =>
          Some (parseInt (substring (numberStart r) episodeNumberMatch))
      | None => matchEpisodeNumber table' fileName
      end
  end.

Definition fileIsVideo (fileName : jsstring) : bool :=
  includes videoFileExtensions (toLowerCase (Path.extname fileName)).

Definition generateEpisodeName
  (seriesName seasonFolder : jsstring) (seasonNumber : Z)
  (fileName : jsstring) (episodesInSeason : list Episode)
  (forceEpisodeNumber : option Z) : EpisodeMapping :=
  let fileExtension := toLowerCase (Path.extname fileName) in
  if negb (includes videoFileExtensions fileExtension) then
    unchangedEpisodeMapping seasonFolder seasonNumber fileName
  else
    let episodeNumber :=
      match forceEpisodeNumber with
      | Some n => Some n
      | None => matchEpisodeNumber episodeRegexes fileName
      end in
    match episodeNumber with
    | None => unchangedEpisodeMapping seasonFolder seasonNumber fileName
    | Some episodeNumber =>
        match Array_find (fun e => (airedEpisodeNumber e =? episodeNumber)%Z)
                         episodesInSeason with
        | None => unchangedEpisodeMapping seasonFolder seasonNumber fileName
        | Some episode =>
            let count := Z.of_nat (List.length episodesInSeason) in
            let prefixedEpisodeNumber :=
              generateEpisodeNumber episodeNumber count in
            let sanatizedName :=
              generateEpisodeFileName fileExtension seriesName
                (airedSeason episode) (episodeName episode)
                (airedEpisodeNumber episode) count in
            {| name := sanatizedName;
               message := lit "E" ++ prefixedEpisodeNumber ++ lit ": "
                          ++ fileName ++ lit " > " ++ sanatizedName;
               value := {| originalPath := Path.join seasonFolder fileName;
                           updatedPath := Path.join seasonFolder sanatizedName;
                           episode := Some episode;
                           rename := negb (str_eqb fileName sanatizedName);
                           episodeNumber := Some prefixedEpisodeNumber;
                           seasonNumber := seasonNumber;
                           seasonFolder := seasonFolder |} |}
        end
    end.

(** [a === b] on optional numbers. *)
Definition optZ_eqb (a b : option Z) : bool :=
  match a, b with
  | None, None => true
  | Some x, Some y => (x =? y)%Z
  | _, _ => false
  end.

(** The comparator handed to [Array.prototype.sort]. *)
Definition sortEpisodeMappings (episodeMapping1 episodeMapping2 : EpisodeMapping) : Z :=
  let episode1 := option_map airedEpisodeNumber (episode (value episodeMapping1)) in
  let episode2 := option_map airedEpisodeNumber (episode (value episodeMapping2)) in
  if optZ_eqb episode1 episode2 then 0%Z
  else match episode1 with
       | None => 1%Z
       | Some n1 =>
           match episode2 with
           | None => (-1)%Z
           | Some n2 => (n1 - n2)%Z
           end
       end.

(* ================================================================== *)
(** ** The mapping builder *)

(** What the program reads from and asks of the file system:
    [getFolderNames] and [getFileNames] are the folders and the files
    that the methods of these names find in a directory. *)
Record FileSystem := {
  getFolderNames : jsstring -> list jsstring;
  getFileNames : jsstring -> list jsstring;
  (** [fsPromises.rename(old, new)]: [true] when the promise is
      fulfilled, [false] when it is rejected with an I/O error. *)
  fsRename : jsstring -> jsstring -> bool;
}.

(** [seriesDetails.episodes.filter(e => e.airedSeason === season)] *)
Definition episodesOfSeason (seriesDetails : Series) (season : Z) : list Episode :=
  filter (fun e => (airedSeason e =? season)%Z) (episodes seriesDetails).

(** The mappings of one season folder before they are sorted. *)
Definition seasonFileMappings
  (fs : FileSystem) (seasonFolder : jsstring) (season : Z)
  (seriesDetails : Series) : list EpisodeMapping :=
  let episodesInSeason := episodesOfSeason seriesDetails season in
  map (fun fileName =>
         generateEpisodeName (seriesName seriesDetails) seasonFolder season
                             fileName episodesInSeason None)
      (getFileNames fs seasonFolder).

(** The [filter] between [map] and [sort] drops [undefined] results;
    [generateEpisodeName] returns a mapping on every path, so it keeps
    every entry. *)
Definition generateEpisodeNamesForSeason
  (fs : FileSystem) (seasonFolder : jsstring) (season : Z)
  (seriesDetails : Series) : list EpisodeMapping :=
  Array_sort sortEpisodeMappings
             (seasonFileMappings fs seasonFolder season seriesDetails).

(** [folderName.match(/\d+/)] turned into a season, [None] for a
    folder the builder drops. *)
Definition folderSeason (folderName : jsstring) : option FolderSeasonMatch :=
  match String_match Digits folderName with
  | None => None
  | Some folderSeasonNumber =>
      Some {| fsm_folderName := folderName;
              season := parseInt folderSeasonNumber |}
  end.

Fixpoint filterMap {A B} (f : A -> option B) (l : list A) : list B :=
  match l with
  | [] => []
  | x :: l' =>
      match f x with
      | Some y => y :: filterMap f l'
      | None => filterMap f l'
      end
  end.

Definition seasonEntryOf
  (fs : FileSystem) (seriesDirectory : jsstring) (seriesDetails : Series)
  (info : FolderSeasonMatch) : SeasonEntry :=
  {| folderName := Some (fsm_folderName info);
     episodeMappings :=
       generateEpisodeNamesForSeason fs
         (Path.join seriesDirectory (fsm_folderName info))
         (season info) seriesDetails |}.

Definition generateEpisodeNames
  (fs : FileSystem) (seriesDirectory : jsstring) (seriesDetails : Series)
  : SeasonMapping :=
  let folders := getFolderNames fs seriesDirectory in
  let seasonFolders := filterMap folderSeason folders in
  fold_left
    (fun result info =>
       obj_set (season info)
               (seasonEntryOf fs seriesDirectory seriesDetails info) result)
    seasonFolders [].

(** The loop of [promptEpisodeAssign] over the mappings of the season:
    every entry named like [episodeMapping] is replaced by the mapping
    generated for the file of [episodeMapping] and the number of
    [selectedEpisode]. *)
Definition replaceAssigned
  (selectedSeries : Series) (episodeMapping : EpisodeMapping)
  (selectedEpisode : Episode) (mappings : list EpisodeMapping)
  : list EpisodeMapping :=
  let episodesInSeason :=
    episodesOfSeason selectedSeries (airedSeason selectedEpisode) in
  map (fun m =>
         if str_eqb (name m) (name episodeMapping) then
           generateEpisodeName (seriesName selectedSeries)
             (seasonFolder (value episodeMapping))
             (seasonNumber (value episodeMapping))
             (Path.basename (originalPath (value episodeMapping)))
             episodesInSeason
             (Some (airedEpisodeNumber selectedEpisode))
         else m)
      mappings.

(** Manual reassignment: the body of the [try] block of
    [promptEpisodeAssign] once the user has picked [selectedEpisode]
    for [episodeMapping].  [None] stands for the exception raised when
    the season of the mapping is not in the structure. *)
Definition assignEpisode
  (selectedSeries : Series) (episodeMapping : EpisodeMapping)
  (selectedEpisode : Episode) (currentEpisodeRenames : SeasonMapping)
  : option SeasonMapping :=
  let seasonNo := seasonNumber (value episodeMapping) in
  match obj_get seasonNo currentEpisodeRenames with
  | None => None
  | Some seasonMappings =>
      let replaced :=
        replaceAssigned selectedSeries episodeMapping selectedEpisode
                        (episodeMappings seasonMappings) in
      Some (obj_set seasonNo
              {| folderName := folderName seasonMappings;
                 episodeMappings := Array_sort sortEpisodeMappings replaced |}
              currentEpisodeRenames)
  end.

(* ================================================================== *)
(** ** The batch rename executor *)

Inductive Settled := Fulfilled | Rejected.

Definition settledOf (ok : bool) : Settled := if ok then Fulfilled else Rejected.

Definition isFulfilled (p : Settled) : bool :=
  match p with Fulfilled => true | Rejected => false end.

(** [Promise.all(ps)] is fulfilled when every promise is, and rejected
    as soon as one is rejected. *)
Definition Promise_all (ps : list Settled) : Settled :=
  settledOf (forallb isFulfilled ps).

(** What the synchronous part of [renameEpisodes] has done so far:
    the counter and the [fsPromises.rename] calls started, oldest
    first. *)
Record RenameState := {
  renamedFileCount : Z;
  issued : list (jsstring * jsstring);
}.

(** A [map] whose callback updates a state. *)
Fixpoint mapS {S A B} (f : S -> A -> S * B) (st : S) (l : list A) : S * list B :=
  match l with
  | [] => (st, [])
  | x :: l' =>
      let '(st1, y) := f st x in
      let '(st2, ys) := mapS f st1 l' in
      (st2, y :: ys)
  end.

(** The arrow function applied to one mapping: it runs up to its
    [return] when [map] calls it. *)
Definition renameOne (fs : FileSystem) (st : RenameState) (episodeMapping : EpisodeMapping)
  : RenameState * Settled :=
  if rename (value episodeMapping) then
    ({| renamedFileCount := renamedFileCount st + 1;
        issued := issued st ++ [(originalPath (value episodeMapping),
                                 updatedPath (value episodeMapping))] |},
     settledOf (fsRename fs (originalPath (value episodeMapping))
                            (updatedPath (value episodeMapping))))
  else (st, Fulfilled).

Definition renameSeason (fs : FileSystem) (st : RenameState) (season : SeasonEntry)
  : RenameState * Settled :=
  let '(st', episodeMappings) := mapS (renameOne fs) st (episodeMappings season) in
  (st', Promise_all episodeMappings).

(** The outcome of a run of [renameEpisodes]: the calls started, the
    lines written to the console, and how its promise settled. *)
Record RenameRun := {
  run_issued : list (jsstring * jsstring);
  run_console : list jsstring;
  run_settled : Settled;
}.

Definition renameEpisodes (fs : FileSystem) (episodeRenames : SeasonMapping)
  : RenameRun :=
  let '(st, seasonMappings) :=
    mapS (renameSeason fs) {| renamedFileCount := 0; issued := [] |}
         (Object_values episodeRenames) in
  match Promise_all seasonMappings with
  | Rejected =>
      (* [await] throws: the function is left before [console.log] *)
      {| run_issued := issued st; run_console := []; run_settled := Rejected |}
  | Fulfilled =>
      {| run_issued := issued st;
         run_console := [lit "renamed " ++ Number_toString (renamedFileCount st)
                         ++ lit " files"];
         run_settled := Fulfilled |}
  end.

(* ================================================================== *)
(** ** The choices of the move-folder prompt *)

(** The [disabled] property of a choice: absent, [false], or the hint
    shown with a choice that cannot be selected. *)
Inductive Disabled :=
| NotSet
| NotDisabled
| DisabledBecause (hint : jsstring).

Record ArrayPromptOption := {
  opt_name : jsstring;
  opt_message : jsstring;
  opt_value : jsstring;
  opt_disabled : Disabled;
}.

Definition isDisabled (o : ArrayPromptOption) : bool :=
  match opt_disabled o with
  | DisabledBecause _ => true
  | _ => false
  end.

(** One entry of [folderOptions] in [promptMoveFolder]. *)
Definition moveFolderOption (currentDirectory folderToMove folderName : jsstring)
  : ArrayPromptOption :=
  let targetIsInsideSelf :=
    startsWith (Path.join currentDirectory folderName) folderToMove in
  let folderIsDisabled :=
    if targetIsInsideSelf
    then DisabledBecause (lit "(can't move a folder into itself)")
    else NotDisabled in
  {| opt_name := folderName; opt_message := folderName;
     opt_value := folderName; opt_disabled := folderIsDisabled |}.

(** [options] in [promptMoveFolder], [folders] being the folders of
    [currentDirectory]. *)
Definition moveFolderOptions
  (folders : list jsstring) (currentDirectory folderToMove : jsstring)
  : list ArrayPromptOption :=
  {| opt_name := lit ".."; opt_message := lit ".."; opt_value := lit "..";
     opt_disabled := NotSet |}
  :: map (moveFolderOption currentDirectory folderToMove) folders.

(* ================================================================== *)
(** ** The prompt workflow *)

Module Workflow.

(** The values of [currentPrompt]. *)
Inductive Prompt :=
| FolderSelection | RenameFile | CreateFolder | DeleteFolder
| SeriesLanguage | SeriesName | SeriesSuggestions
| EpisodeRenames | AssignEpisode
| MoveFolder | NonVideoPurge | HoistFiles.

Definition Prompt_eqb (a b : Prompt) : bool :=
  match a, b with
  | FolderSelection, FolderSelection | RenameFile, RenameFile
  | CreateFolder, CreateFolder | DeleteFolder, DeleteFolder
  | SeriesLanguage, SeriesLanguage | SeriesName, SeriesName
  | SeriesSuggestions, SeriesSuggestions | EpisodeRenames, EpisodeRenames
  | AssignEpisode, AssignEpisode | MoveFolder, MoveFolder
  | NonVideoPurge, NonVideoPurge | HoistFiles, HoistFiles => true
  | _, _ => false
  end.

(** The fields of the browser that the series pipeline reads and
    writes; [exited] is set once no prompt is left to run. *)
Record Browser := {
  currentPrompt : Prompt;
  currentEpisodeRenames : option SeasonMapping;
  exited : bool;
}.

(** A keypress as [handleKeyPress] receives it: the character typed
    and the name of the key. *)
Inductive KeyName := backspace | escape | other.
Record KeyPress := {
  key : jsstring;
  data_name : KeyName;
}.

Section Transitions.

(** The mapping [generateEpisodeNames] builds for the current
    series directory and series, and whether the provider finds a
    series for the name entered. *)
Variable generated : SeasonMapping.
Variable seriesFound : bool.

Definition enter (p : Prompt) (b : Browser) : Browser :=
  {| currentPrompt := p;
     currentEpisodeRenames := currentEpisodeRenames b;
     exited := exited b |}.

Definition promptMainMenu : Browser -> Browser := enter FolderSelection.
Definition promptRename : Browser -> Browser := enter RenameFile.
Definition promptCreateFolder : Browser -> Browser := enter CreateFolder.
Definition promptDeleteFolder : Browser -> Browser := enter DeleteFolder.
Definition hoistFiles : Browser -> Browser := enter HoistFiles.
Definition promptMoveFolder : Browser -> Browser := enter MoveFolder.
Definition promptNonVideoPurge : Browser -> Browser := enter NonVideoPurge.

Definition promptSeriesLanguage (b : Browser) : Browser :=
  {| currentPrompt := SeriesLanguage;
     currentEpisodeRenames := None;
     exited := exited b |}.

Definition promptSeriesRename : Browser -> Browser := promptSeriesLanguage.

Definition promptSeriesName : Browser -> Browser := enter SeriesName.

Definition promptSeriesSuggestions (b : Browser) : Browser :=
  let b' := {| currentPrompt := SeriesSuggestions;
               currentEpisodeRenames := None;
               exited := exited b |} in
  if seriesFound then b' else promptSeriesName b'.

Definition promptEpisodeRenames (b : Browser) : Browser :=
  {| currentPrompt := EpisodeRenames;
     currentEpisodeRenames :=
       match currentEpisodeRenames b with
       | None => Some generated
       | Some renames => Some renames
       end;
     exited := exited b |}.

Definition promptEpisodeAssign : Browser -> Browser := enter AssignEpisode.

(** The prompt awaited in the current state is cancelled (the
    escape key): its [run()] promise is rejected and the [catch]
    block of the function that awaits it runs.  [promptMainMenu]
    awaits without a [catch]: the rejection leaves it, no prompt is
    started again and the program is over. *)
Definition cancelled (b : Browser) : Browser :=
  match currentPrompt b with
  | FolderSelection =>
      {| currentPrompt := currentPrompt b;
         currentEpisodeRenames := currentEpisodeRenames b;
         exited := true |}
  | RenameFile | CreateFolder | DeleteFolder
  | HoistFiles | MoveFolder | NonVideoPurge => promptMainMenu b
  | SeriesLanguage => promptMainMenu b
  | SeriesName => promptSeriesLanguage b
  | SeriesSuggestions => promptSeriesName b
  | EpisodeRenames => promptSeriesName b
  | AssignEpisode => promptSeriesName b
  end.

Definition keyIs (k : KeyPress) (c : string) : bool := str_eqb (key k) (lit c).

Definition isBackspace (k : KeyPress) : bool :=
  match data_name k with backspace => true | _ => false end.

Definition when (c : bool) (f : Browser -> Browser) (b : Browser) : Browser :=
  if c then f b else b.

Definition handleFolderSelectionKeyPress (k : KeyPress) (b : Browser) : Browser :=
  let b := when (keyIs k "r") promptRename b in
  let b := when (keyIs k "c") promptCreateFolder b in
  let b := when (keyIs k "d") promptDeleteFolder b in
  let b := when (keyIs k "h") hoistFiles b in
  let b := when (keyIs k "m") promptMoveFolder b in
  let b := when (keyIs k "u") promptMainMenu b in
  let b := when (keyIs k "p") promptNonVideoPurge b in
  let b := when (keyIs k "e")
                (fun b => {| currentPrompt := currentPrompt b;
                             currentEpisodeRenames := currentEpisodeRenames b;
                             exited := true |}) b in
  when (keyIs k "s") promptSeriesRename b.

(** [moveFolder] ends in [promptMainMenu]. *)
Definition handleMoveFolderKeyPress (k : KeyPress) (b : Browser) : Browser :=
  let b := when (keyIs k "a") promptMainMenu b in
  when (isBackspace k) promptMainMenu b.

Definition handleHoistFilesKeyPress (k : KeyPress) : Browser -> Browser :=
  when (isBackspace k) promptMainMenu.

Definition handleNonVideoPurgeKeyPress (k : KeyPress) : Browser -> Browser :=
  when (isBackspace k) promptMainMenu.

Definition handleSeriesLanguageKeyPress (k : KeyPress) : Browser -> Browser :=
  when (isBackspace k) promptMainMenu.

Definition handleSeriesSuggestionsKeyPress (k : KeyPress) : Browser -> Browser :=
  when (isBackspace k) promptSeriesName.

(** On [a] the structure goes to [renameEpisodes], which is not
    awaited, and the main menu is prompted. *)
Definition handleEpisodeRenamesKeyPress (k : KeyPress) (b : Browser) : Browser :=
  let b := when (isBackspace k) promptSeriesSuggestions b in
  when (keyIs k "a") promptMainMenu b.

Definition handleAssignEpisodeKeyPress (k : KeyPress) : Browser -> Browser :=
  when (isBackspace k) promptEpisodeRenames.

Definition inPrompt (p : Prompt) (b : Browser) : bool :=
  Prompt_eqb (currentPrompt b) p.

(** The dispatcher: a sequence of [if]s, each testing the prompt
    the previous handlers have left current. *)
Definition handleKeyPress (k : KeyPress) (b : Browser) : Browser :=
  let b := when (inPrompt FolderSelection b) (handleFolderSelectionKeyPress k) b in
  let b := when (inPrompt MoveFolder b) (handleMoveFolderKeyPress k) b in
  let b := when (inPrompt HoistFiles b) (handleHoistFilesKeyPress k) b in
  let b := when (inPrompt NonVideoPurge b) (handleNonVideoPurgeKeyPress k) b in
  let b := when (inPrompt SeriesLanguage b) (handleSeriesLanguageKeyPress k) b in
  let b := when (inPrompt SeriesSuggestions b) (handleSeriesSuggestionsKeyPress k) b in
  let b := when (inPrompt EpisodeRenames b) (handleEpisodeRenamesKeyPress k) b in
  when (inPrompt AssignEpisode b) (handleAssignEpisodeKeyPress k) b.

(** A cancellation as the user makes it.  Both keys go through the
    dispatcher, which is registered first; the escape key then
    cancels the pending prompt. *)
Definition cancel (k : KeyName) (b : Browser) : Browser :=
  match k with
  | escape =>
      cancelled (handleKeyPress {| key := [27%N]; data_name := escape |} b)
  | backspace => handleKeyPress {| key := [127%N]; data_name := backspace |} b
  | other => b
  end.

End Transitions.

End Workflow.

(* ================================================================== *)
(** ** Directory listings *)

Module Listing.

(** What the program sees of the disk: [readdir] gives the names in a
    directory, [stat] tells whether a path is a directory, [None] when
    it throws. *)
Record Disk := {
  readdir : jsstring -> list jsstring;
  stat : jsstring -> option bool;
}.

(** [isFolder]: a path whose [stat] throws is not a folder. *)
Definition isFolder (d : Disk) (folderPath : jsstring) : bool :=
  match stat d folderPath with
  | Some isDirectory => isDirectory
  | None => false
  end.

(** [arr.filter((element, index) => keep(element, index))] *)
Fixpoint filterIndexed {A} (keep : A -> nat -> bool) (index : nat) (arr : list A)
  : list A :=
  match arr with
  | [] => []
  | element :: arr' =>
      if keep element index then element :: filterIndexed keep (S index) arr'
      else filterIndexed keep (S index) arr'
  end.

(** [filterAsync]: the answers of [filterMethod] are collected for the
    whole array first and then looked up by index; an index without
    an answer reads [undefined], which does not keep the element. *)
Definition filterAsync {A} (arrayToFilter : list A) (filterMethod : A -> bool)
  : list A :=
  let filterResults := map filterMethod arrayToFilter in
  filterIndexed (fun _ index => nth index filterResults false) 0 arrayToFilter.

Definition getFolderNames (d : Disk) (basePath : jsstring) : list jsstring :=
  filterAsync (readdir d basePath)
              (fun itemName => isFolder d (Path.join basePath itemName)).

Definition getFileNames (d : Disk) (basePath : jsstring) : list jsstring :=
  filterAsync (readdir d basePath)
              (fun itemName => negb (isFolder d (Path.join basePath itemName))).

(** [Promise.all] over results of which some may never arrive. *)
Fixpoint allArrive {A} (results : list (option A)) : option (list A) :=
  match results with
  | [] => Some []
  | None :: _ => None
  | Some r :: results' =>
      match allArrive results' with
      | Some rs => Some (r :: rs)
      | None => None
      end
  end.

(** [getAllFilesInFolder]: the files of the folder, then the files of
    its subfolders, folder by folder.  [fuel] bounds the depth of the
    recursion; [None] stands for a recursion that has not returned
    within it. *)
Fixpoint getAllFilesInFolder (fuel : nat) (d : Disk) (folderPath : jsstring)
  : option (list jsstring) :=
  match fuel with
  | O => None
  | S fuel' =>
      let currentFolderItems := readdir d folderPath in
      let files :=
        filterAsync currentFolderItems
          (fun itemName => negb (isFolder d (Path.join folderPath itemName))) in
      let folders :=
        filterAsync currentFolderItems
          (fun itemName => isFolder d (Path.join folderPath itemName)) in
      let filesInThisFolder := map (fun fileName => Path.join folderPath fileName) files in
      match allArrive
              (map (fun folderName =>
                      getAllFilesInFolder fuel' d (Path.join folderPath folderName))
                   folders) with
      | None => None
      | Some filesInSubFolders => Some (filesInThisFolder ++ List.concat filesInSubFolders)
      end
  end.

End Listing.

(** The file system of the mapping builder over a disk, [renames]
    telling which renames succeed. *)
Definition fileSystemOf (d : Listing.Disk) (renames : jsstring -> jsstring -> bool)
  : FileSystem :=
  {| getFolderNames := Listing.getFolderNames d;
     getFileNames := Listing.getFileNames d;
     fsRename := renames |}.

(* ================================================================== *)
(** ** The main menu *)

(** [options] in [promptMainMenu]: the parent entry, the folders,
    which can be selected, and the files, which cannot. *)
Definition mainMenuOptions (d : Listing.Disk) (currentDirectory : jsstring)
  : list ArrayPromptOption :=
  let files := Listing.getFileNames d currentDirectory in
  let folders := Listing.getFolderNames d currentDirectory in
  let folderOptions :=
    map (fun folderName =>
           {| opt_name := folderName; opt_message := folderName;
              opt_value := folderName; opt_disabled := NotDisabled |}) folders in
  let fileOptopns :=
    map (fun folderName =>
           {| opt_name := folderName; opt_message := folderName;
              opt_value := folderName; opt_disabled := DisabledBecause [] |}) files in
  {| opt_name := lit ".."; opt_message := lit ".."; opt_value := lit "..";
     opt_disabled := NotSet |}
  :: folderOptions ++ fileOptopns.

(** Where the browser is and which entry the menu highlights. *)
Record Location := {
  currentDirectory : jsstring;
  highlightedFolder : jsstring;
}.

(** What [promptMainMenu] does once [selectedFolder] is selected. *)
Definition selectFolder (selectedFolder : jsstring) (at_dir : Location) : Location :=
  {| highlightedFolder :=
       if str_eqb selectedFolder (lit "..")
       then Path.basename (currentDirectory at_dir)
       else lit "..";
     currentDirectory := Path.join (currentDirectory at_dir) selectedFolder |}.

(* ================================================================== *)
(** ** Hoisting, purging and moving *)

(** A mutation asked of the file system. *)
Inductive Mutation :=
| RenamePath (oldPath newPath : jsstring)
| RemoveTree (target : jsstring)
| Unlink (target : jsstring).

(** How a confirmation prompt ends: the user agrees, declines, or
    cancels it (its promise is rejected). *)
Inductive Answer := Agreed | Declined | Aborted.

(** One callback of the [map] over the files in [hoistFiles]:
    [None] for a file that is where it would be moved to. *)
Definition hoistMove (directory filePath : jsstring) : option Mutation :=
  let filename := Path.basename filePath in
  let targetFile := Path.join directory filename in
  if str_eqb filePath targetFile then None
  else Some (RenamePath filePath targetFile).

(** [hoistFiles] after the listing of [files]: the mutations it
    starts.  [renames] tells which renames succeed; when one fails,
    the [await] of the moves throws and the folders are kept.  [d] is
    the disk as the listing of the remaining folders finds it. *)
Definition hoistFiles
  (d : Listing.Disk) (renames : jsstring -> jsstring -> bool)
  (directory : jsstring) (files : list jsstring) (userAgreed : Answer)
  : list Mutation :=
  match userAgreed with
  | Agreed =>
      let moves := filterMap (hoistMove directory) files in
      let moved :=
        forallb (fun m => match m with
                          | RenamePath o n => renames o n
                          | _ => true
                          end) moves in
      if moved then
        let remainingFolders := Listing.getFolderNames d directory in
        moves ++ map (fun folderName => RemoveTree (Path.join directory folderName))
                     remainingFolders
      else moves
  | Declined | Aborted => []
  end.

(** [hoistFiles] from its start: the files under the directory are
    listed on the disk [before], then the moves are started; [after]
    is the disk as the listing of the remaining folders finds it.
    [None] when the listing has not returned within [fuel]. *)
Definition hoistFilesIn
  (fuel : nat) (before after : Listing.Disk) (renames : jsstring -> jsstring -> bool)
  (directory : jsstring) (userAgreed : Answer) : option (list Mutation) :=
  match Listing.getAllFilesInFolder fuel before directory with
  | Some files => Some (hoistFiles after renames directory files userAgreed)
  | None => None
  end.

(** [nonVideoFiles] in [promptNonVideoPurge]. *)
Definition nonVideoFiles (files : list jsstring) : list jsstring :=
  filter (fun filename =>
            let fileExtension := toLowerCase (Path.extname filename) in
            let fileIsVideo := includes videoFileExtensions fileExtension in
            negb fileIsVideo)
         files.

(** [promptNonVideoPurge] after the listing of [files]. *)
Definition promptNonVideoPurge (files : list jsstring) (userAgreed : Answer)
  : list Mutation :=
  match userAgreed with
  | Agreed => map Unlink (nonVideoFiles files)
  | Declined | Aborted => []
  end.

(** What [promptMoveFolder] works out before it shows its choices. *)
Record MovePrompt := {
  currentMoveTarget : jsstring;
  folderAlreadyExists : bool;
  targetIsAcceptable : bool;
  move_footer : jsstring;
  move_options : list ArrayPromptOption;
}.

Definition promptMoveFolder (d : Listing.Disk) (currentDirectory folderToMove : jsstring)
  : MovePrompt :=
  let folders := Listing.getFolderNames d currentDirectory in
  let folderNameToMove := Path.basename folderToMove in
  let folderAlreadyExists := existsb (fun folderName => str_eqb folderName folderNameToMove) folders in
  let targetIsAcceptable := negb folderAlreadyExists in
  {| currentMoveTarget := Path.join currentDirectory folderNameToMove;
     folderAlreadyExists := folderAlreadyExists;
     targetIsAcceptable := targetIsAcceptable;
     move_footer := if targetIsAcceptable then lit "[a]ccept, esc = abort"
                    else lit "esc = abort";
     move_options := moveFolderOptions folders currentDirectory folderToMove |}.

(** [handleMoveFolderKeyPress] on the key [a]: [moveFolder] is called
    with the current target, whatever the prompt has worked out. *)
Definition acceptMove (folderToMove : jsstring) (prompt : MovePrompt) : Mutation :=
  RenamePath folderToMove (currentMoveTarget prompt).

(* ================================================================== *)
(** ** The episodes offered for a reassignment *)







(* ================================================================== *)
(** ** The commands of the folder selection *)

(** [path.dirname(p)]: the path before the last separator that a
    segment follows; trailing separators do not count, and the first
    code unit of the path is not looked at. *)
Definition dirname (path : jsstring) : jsstring :=
  match path with
  | [] => lit "."
  | c :: rest =>
      let hasRoot := (c =? c_slash)%N in
      match dropWhile Path.notSlash
                      (dropWhile (fun x => (x =? c_slash)%N) (rev rest)) with
      | [] => if hasRoot then lit "/" else lit "."
      | _ :: before =>
          match before with
          | [] => if hasRoot then lit "//" else [c]
          | _ :: _ => c :: rev before
          end
      end
  end.

(** What a key of the folder selection starts, with the arguments it
    passes on. *)
Inductive Command :=
| RenameEntry (filePath : jsstring)
| CreateFolderIn (targetDirectory : jsstring)
| DeleteEntry (filePath : jsstring)
| HoistInto (directory : jsstring)
| MoveEntry (currentDirectory folderToMove : jsstring)
| Refresh
| PurgeUnder (folderToPurge : jsstring)
| Leave
| RenameSeries (seriesDirectory : jsstring).

(** [handleFolderSelectionKeyPress]: the calls of its [if]s, in
    their order, for the key and the value of the highlighted
    choice. *)
Definition folderSelectionCommands (key selected : jsstring) (place : Location)
  : list Command :=
  let selectedFolder := Path.join (currentDirectory place) selected in
  let on (c : string) (command : Command) : list Command :=
    if str_eqb key (lit c) then [command] else [] in
  on "r"%string (RenameEntry selectedFolder)
  ++ on "c"%string (CreateFolderIn (currentDirectory place))
  ++ on "d"%string (DeleteEntry selectedFolder)
  ++ on "h"%string (HoistInto (currentDirectory place))
  ++ on "m"%string (MoveEntry (currentDirectory place) selectedFolder)
  ++ on "u"%string Refresh
  ++ on "p"%string (PurgeUnder (currentDirectory place))
  ++ on "e"%string Leave
  ++ on "s"%string (RenameSeries (currentDirectory place)).

(** What a prompt for a name leaves behind: the mutation asked for
    and the entry to highlight, if it is set. *)
Record Entered := {
  asked : list Mutation;
  highlight : option jsstring;
}.

(** [promptRename]: [entered] is the name typed, [None] when the
    prompt is cancelled; a rename that fails leaves the highlight as
    it is. *)
Definition promptRename
  (renames : jsstring -> jsstring -> bool) (filePath : jsstring)
  (entered : option jsstring) : Entered :=
  let directory := dirname filePath in
  let filename := Path.basename filePath in
  match entered with
  | None => {| asked := []; highlight := None |}
  | Some newName =>
      let oldPath := Path.join directory filename in
      let newPath := Path.join directory newName in
      {| asked := [RenamePath oldPath newPath];
         highlight := if renames oldPath newPath then Some newName else None |}
  end.

(** [promptDeleteFolder]: the removal does not report a failure. *)
Definition promptDeleteFolder (filePath : jsstring) (userAgreed : Answer)
  : Entered :=
  match userAgreed with
  | Agreed => {| asked := [RemoveTree filePath]; highlight := Some (lit "..") |}
  | Declined | Aborted => {| asked := []; highlight := None |}
  end.

(* ================================================================== *)
(** ** The choices of the review list *)

(** [a < b] on strings: by code units, a proper prefix first. *)
Fixpoint str_ltb (a b : jsstring) : bool :=
  match a, b with
  | _, [] => false
  | [], _ :: _ => true
  | x :: a', y :: b' => (x <? y)%N || ((x =? y)%N && str_ltb a' b')
  end.

(** The comparison [sort()] makes without a comparator. *)
Definition compareStrings (a b : jsstring) : Z :=
  if str_ltb a b then (-1)%Z else if str_ltb b a then 1%Z else 0%Z.

(** [Object.keys(o)]: the property names, in the order of the
    properties. *)
Definition Object_keys (o : SeasonMapping) : list jsstring :=
  map (fun kv => Number_toString (fst kv)) o.

(** [o[key]] for a property name. *)
Definition obj_get_key (key : jsstring) (o : SeasonMapping) : option SeasonEntry :=
  option_map snd (find (fun kv => str_eqb (Number_toString (fst kv)) key) o).

(** A choice of the review list: the header of a season, which
    cannot be selected, or a mapping. *)
Inductive ReviewChoice :=
| SeasonHeader (header : ArrayPromptOption)
| MappingChoice (episodeMapping : EpisodeMapping).

Definition seasonHeader (season : jsstring) (entry : SeasonEntry) : ArrayPromptOption :=
  let shownFolder :=
    match folderName entry with
    | Some f => f
    | None => lit "undefined"
    end in
  {| opt_name := lit "season" ++ season;
     opt_message := lit "--- Season " ++ season ++ lit " (" ++ shownFolder
                    ++ lit ") ---";
     opt_value := lit "season" ++ season;
     opt_disabled := DisabledBecause [] |}.

(** [seasons] and [options] in [promptEpisodeRenames].  Every key
    read from the object is a property of it; the loop would throw on
    another one. *)
Definition reviewSeasons (currentEpisodeRenames : SeasonMapping) : list jsstring :=
  Array_sort compareStrings (Object_keys currentEpisodeRenames).

Definition reviewOptions (currentEpisodeRenames : SeasonMapping) : list ReviewChoice :=
  flat_map
    (fun season =>
       match obj_get_key season currentEpisodeRenames with
       | Some entry =>
           SeasonHeader (seasonHeader season entry)
           :: map MappingChoice (episodeMappings entry)
       | None => []
       end)
    (reviewSeasons currentEpisodeRenames).

(* ================================================================== *)
(** ** Vocabulary of the properties *)

(** The head of a string is not a digit (or there is none). *)
Definition nondigitHead (s : jsstring) : Prop :=
  match s with
  | [] => True
  | d :: _ => isDigit d = false
  end.

(** Somewhere in [t] a code unit of [cls] is followed by a digit:
    the pattern [/[cls]\d+/] occurs in [t]. *)
Definition occurs (cls : list char) (t : jsstring) : Prop :=
  exists u a d v, t = u ++ a :: d :: v /\ In a cls /\ isDigit d = true.

(** Every code unit of [run] is a digit. *)
Definition allDigits (run : jsstring) : Prop :=
  Forall (fun d => isDigit d = true) run.

(** No code unit of [s] is a digit. *)
Definition noDigit (s : jsstring) : Prop :=
  Forall (fun d => isDigit d = false) s.

(** [c] is a code unit of [s]. *)
Definition mem (c : char) (s : jsstring) : bool := existsb (N.eqb c) s.

(** [table] has an entry that replaces [c] by text without [c], and
    no later entry brings [c] back. *)
Fixpoint kills (c : char) (table : list EpisodeReplace) : bool :=
  match table with
  | [] => false
  | r :: table' =>
      (str_eqb (pattern r) [c] && negb (mem c (replacement r))
       && forallb (fun r' => negb (mem c (replacement r'))) table')
      || kills c table'
  end.

(** The first code unit of the pattern of every entry is absent
    from [s]. *)
Definition untouched (table : list EpisodeReplace) (s : jsstring) : Prop :=
  Forall (fun r => match pattern r with
                   | [] => False
                   | p :: _ => ~ In p s
                   end) table.

(** The code units the sanitizer removes. *)
Definition sanitizedAway : list char :=
  [a_uml; o_uml; u_uml; eszett; A_uml; O_uml; U_uml;
   c_question; c_comma; c_quote; c_colon; c_space; c_tab; c_slash].

(** Follows the specification's words: the decimal numeral of [n],
    zero-padded on the left to [width] digits. *)
Definition zeroPadded (width : nat) (n : Z) : jsstring :=
  repeat 48%N (width - List.length (Number_toString n)) ++ Number_toString n.

(** The width of the ordinal label of a season with [count]
    episodes. *)
Definition ordinalWidth (count : Z) : nat :=
  if (count <? 100)%Z then 2%nat else 3%nat.

(** The episode number [generateEpisodeName] works with: the forced
    one, or else the parsed one. *)
Definition resolvedNumber (fileName : jsstring) (forceEpisodeNumber : option Z)
  : option Z :=
  match forceEpisodeNumber with
  | Some n => Some n
  | None => matchEpisodeNumber episodeRegexes fileName
  end.

(** The predicate handed to [episodesInSeason.find]. *)
Definition hasNumber (n : Z) (e : Episode) : bool :=
  (airedEpisodeNumber e =? n)%Z.

(** The name the specification gives to a matched video file, before
    it is sanitized. *)
Definition canonicalName (series : jsstring) (season : Z) (count : Z)
           (e : Episode) (extension : jsstring) : jsstring :=
  series ++ lit ".S" ++ zeroPadded 2 season ++ lit "E"
  ++ zeroPadded (if (count <? 100)%Z then 2 else 3) (airedEpisodeNumber e)
  ++ lit "." ++ episodeName e ++ extension.

(** A name as a directory listing gives it: not empty, not [.] or
    [..], and without a separator. *)
Definition plain (a : jsstring) : Prop :=
  a <> [] /\ a <> lit "." /\ a <> lit ".." /\ ~ In c_slash a.

(** What [join] puts in front of a plain name. *)
Definition joinPrefix (dir : jsstring) : jsstring :=
  match dir with
  | [] => []
  | c :: _ =>
      let isAbsolute := (c =? c_slash)%N in
      (if isAbsolute then lit "/" else [])
      ++ match rev (fold_left (Path.normalizeStep (negb isAbsolute))
                              (Path.split c_slash dir) []) with
         | [] => []
         | seg :: segs => Path.intercalate (lit "/") (seg :: segs) ++ lit "/"
         end
  end.

(** The invariant of an [EpisodeMapping]. *)
Definition renameFlagOk (m : EpisodeMapping) : Prop :=
  rename (value m) = true <-> originalPath (value m) <> updatedPath (value m).

(** The invariant over a whole structure. *)
Definition allMappings (P : EpisodeMapping -> Prop) (o : SeasonMapping) : Prop :=
  forall k entry m, In (k, entry) o -> In m (episodeMappings entry) -> P m.

(** The number the comparator looks at. *)
Definition episodeKey (m : EpisodeMapping) : option Z :=
  option_map airedEpisodeNumber (episode (value m)).

(** The mapping has a matched episode. *)
Definition isMatched (m : EpisodeMapping) : bool :=
  match episode (value m) with Some _ => true | None => false end.

(** The comparator looks at [k] in [m]. *)
Definition sameKey (k : option Z) (m : EpisodeMapping) : bool :=
  optZ_eqb (episodeKey m) k.

(** Matched entries by ascending number, unmatched entries last. *)
Definition keyLe (a b : option Z) : Prop :=
  match a, b with
  | Some x, Some y => (x <= y)%Z
  | _, None => True
  | None, Some _ => False
  end.

(** [m1] may stand before [m2] in a sorted list. *)
Definition before (m1 m2 : EpisodeMapping) : Prop :=
  keyLe (episodeKey m1) (episodeKey m2).

(** The episode numbers of the matched entries of [l], in the order
    of [l]. *)
Fixpoint matchedNumbers (l : list EpisodeMapping) : list Z :=
  match l with
  | [] => []
  | m :: l' =>
      match episodeKey m with
      | Some n => n :: matchedNumbers l'
      | None => matchedNumbers l'
      end
  end.

(** The order the sort establishes on [after], a rearrangement of
    [original]. *)
Definition seasonOrder (original after : list EpisodeMapping) : Prop :=
  exists matched unmatched,
    after = matched ++ unmatched
    /\ Forall (fun m => episode (value m) <> None) matched
    /\ Forall (fun m => episode (value m) = None) unmatched
    /\ StronglySorted Z.le (matchedNumbers matched)
    /\ unmatched = filter (fun m => negb (isMatched m)) original
    /\ (forall n, filter (sameKey (Some n)) matched
                  = filter (sameKey (Some n)) original)
    /\ Permutation after original.

(** The [fsPromises.rename] calls that the mappings flagged for
    renaming ask for. *)
Definition callsOf (mappings : list EpisodeMapping) : list (jsstring * jsstring) :=
  map (fun m => (originalPath (value m), updatedPath (value m)))
      (filter (fun m => rename (value m)) mappings).

(** The calls of a whole structure, season by season. *)
Definition allCalls (episodeRenames : SeasonMapping) : list (jsstring * jsstring) :=
  flat_map (fun season => callsOf (episodeMappings season))
           (Object_values episodeRenames).

(** The file system carries out the rename [call]. *)
Definition succeeds (fs : FileSystem) (call : jsstring * jsstring) : bool :=
  fsRename fs (fst call) (snd call).

(** The browser in prompt [p] with the structure [renames]. *)
Definition at_ (p : Workflow.Prompt) (renames : option SeasonMapping)
  : Workflow.Browser :=
  {| Workflow.currentPrompt := p;
     Workflow.currentEpisodeRenames := renames;
     Workflow.exited := false |}.

(* ================================================================== *)
(** ** Sample data *)

Definition pilot : Episode :=
  {| id := 101; airedSeason := 1; airedEpisodeNumber := 1;
     episodeName := lit "Pilot" |}.

Definition second : Episode :=
  {| id := 102; airedSeason := 1; airedEpisodeNumber := 2;
     episodeName := lit "Second" |}.

(** The series of the specification's example: season 1 with the
    episodes 1, [Pilot], and 2, [Second]. *)
Definition showSeries : Series :=
  {| seriesId := 1; seriesName := lit "Show"; episodes := [pilot; second] |}.

(** A season folder with two files of the same episode. *)
Definition twoCopies : FileSystem :=
  {| getFolderNames := fun _ => [lit "Season 1"];
     getFileNames := fun _ => [lit "a.e01.mkv"; lit "b.e01.mkv"];
     fsRename := fun _ _ => true |}.

(** A series directory with a season folder and a folder without a
    number; the season folder lists a text file and then the files of
    both episodes, out of order.  Every rename succeeds. *)
Definition mixedFolder : FileSystem :=
  {| getFolderNames := fun _ => [lit "Season 1"; lit "Extras"];
     getFileNames :=
       fun _ => [lit "readme.txt"; lit "Show.e02.mkv"; lit "Show.e01.mkv"];
     fsRename := fun _ _ => true |}.

(** The same directory on a file system that refuses to rename the
    file of episode 1. *)
Definition firstRenameFails : FileSystem :=
  {| getFolderNames := getFolderNames mixedFolder;
     getFileNames := getFileNames mixedFolder;
     fsRename :=
       fun old _ => negb (str_eqb old (lit "Show/Season 1/Show.e01.mkv")) |}.

(** The structure the builder returns for the sample directory: its
    two video files are flagged for renaming. *)
Definition builtRenames : SeasonMapping :=
  generateEpisodeNames mixedFolder (lit "Show") showSeries.

(* ================================================================== *)
(** ** Vocabulary of the further properties *)

(** A segment that [normalizeString] keeps: not empty, not [.], and
    without a separator (it may be [..]). *)
Definition keptSegment (seg : jsstring) : Prop :=
  seg <> [] /\ seg <> lit "." /\ ~ In c_slash seg.

(** The stacks [normalizeString] builds, last segment first: a [..]
    is kept only in a relative path, at the bottom of the stack or on
    another [..]. *)
Fixpoint normalStack (allowAboveRoot : bool) (stack : list jsstring) : Prop :=
  match stack with
  | [] => True
  | seg :: rest =>
      keptSegment seg /\ normalStack allowAboveRoot rest
      /\ (seg = lit ".." ->
          allowAboveRoot = true
          /\ match rest with [] => True | below :: _ => below = lit ".." end)
  end.

(** The path of a stack: its segments, first one first, separated by
    [/], after a [/] when the path is absolute. *)
Definition render (isAbsolute : bool) (stack : list jsstring) : jsstring :=
  (if isAbsolute then lit "/" else []) ++ Path.intercalate (lit "/") (rev stack).

(** The stack [normalize] builds for a path. *)
Definition stackOf (path : jsstring) : list jsstring :=
  match path with
  | [] => []
  | c :: _ =>
      fold_left (Path.normalizeStep (negb (c =? c_slash)%N))
                (Path.split c_slash path) []
  end.

Definition isAbsolutePath (path : jsstring) : bool :=
  match path with
  | [] => false
  | c :: _ => (c =? c_slash)%N
  end.

(** The path reached from [dir] through the folders of [chain]. *)
Definition descend (dir : jsstring) (chain : list jsstring) : jsstring :=
  fold_left Path.join chain dir.

(** The path of a stack as [normalize] gives it when the path has no
    trailing separator: [/] or [.] for the empty stack. *)
Definition settle (isAbsolute : bool) (stack : list jsstring) : jsstring :=
  match Path.intercalate (lit "/") (rev stack) with
  | [] => if isAbsolute then lit "/" else lit "."
  | q => (if isAbsolute then lit "/" else []) ++ q
  end.

(** A finite directory tree: the files of a folder and its
    subfolders, each in the order of the listing. *)
#[warnings="-register-all"]
Inductive Tree :=
| Folder (files : list jsstring) (folders : list (jsstring * Tree)).

Fixpoint depth (t : Tree) : nat :=
  match t with
  | Folder _ folders =>
      S (fold_right Nat.max 0%nat (map (fun sub => depth (snd sub)) folders))
  end.


(** The disk shows the tree [t] at [path]. *)
Fixpoint represents (d : Listing.Disk) (path : jsstring) (t : Tree) : Prop :=
  match t with
  | Folder files folders =>
      Listing.getFileNames d path = files
      /\ Listing.getFolderNames d path = map fst folders
      /\ fold_right and True
           (map (fun sub => represents d (Path.join path (fst sub)) (snd sub))
                folders)
  end.

(** The file [f] lies in the tree, in the folder reached through
    [chain]. *)
Inductive HasFile : Tree -> list jsstring -> jsstring -> Prop :=
| HasFile_here files folders f :
    In f files -> HasFile (Folder files folders) [] f
| HasFile_below files folders name sub chain f :
    In (name, sub) folders -> HasFile sub chain f ->
    HasFile (Folder files folders) (name :: chain) f.

(** The paths of the files of a tree at [path]: the files of the
    folder, then those of its subfolders. *)
Fixpoint treeFiles (path : jsstring) (t : Tree) : list jsstring :=
  match t with
  | Folder files folders =>
      map (fun f => Path.join path f) files
      ++ List.concat
           (map (fun sub => treeFiles (Path.join path (fst sub)) (snd sub))
                folders)
  end.

(** The path [filePath] lies under [directory]: it names [f] in the
    folder reached through [chain]. *)
Definition under (directory filePath : jsstring) : Prop :=
  exists chain f,
    Forall plain chain /\ plain f
    /\ filePath = Path.join (descend directory chain) f.

(** ** Sample disks *)

(** A series directory with a cover, a season folder and a folder of
    extras. *)
Definition sampleDisk : Listing.Disk :=
  {| Listing.readdir :=
       fun p =>
         if str_eqb p (lit "Show")
         then [lit "Season 1"; lit "cover.jpg"; lit "Extras"]
         else if str_eqb p (lit "Show/Season 1")
         then [lit "readme.txt"; lit "Show.e02.mkv"; lit "Show.e01.mkv"]
         else if str_eqb p (lit "Show/Extras")
         then [lit "Trailer.mkv"]
         else [];
     Listing.stat :=
       fun p =>
         Some (existsb (str_eqb p)
                       [lit "Show"; lit "Show/Season 1"; lit "Show/Extras"]) |}.

Definition sampleTree : Tree :=
  Folder [lit "cover.jpg"]
         [(lit "Season 1",
           Folder [lit "readme.txt"; lit "Show.e02.mkv"; lit "Show.e01.mkv"] []);
          (lit "Extras", Folder [lit "Trailer.mkv"] [])].

Definition sampleLocation : Location :=
  {| currentDirectory := lit "/media/Show"; highlightedFolder := lit ".." |}.

(** The keys the handlers test for. *)
Definition commandKeys : list jsstring :=
  [lit "r"; lit "c"; lit "d"; lit "h"; lit "m"; lit "u"; lit "p"; lit "e";
   lit "s"; lit "a"].

(** A keypress as the terminal sends it: the backspace key does not
    come with the character of a command. *)
Definition fromKeyboard (k : Workflow.KeyPress) : Prop :=
  Workflow.isBackspace k = true -> ~ In (Workflow.key k) commandKeys.

(** The handler of a prompt; the prompts that read a line and the
    confirmation of a deletion have none. *)
Definition handlerOf (generated : SeasonMapping) (seriesFound : bool)
           (p : Workflow.Prompt) (k : Workflow.KeyPress)
  : Workflow.Browser -> Workflow.Browser :=
  match p with
  | Workflow.FolderSelection => Workflow.handleFolderSelectionKeyPress k
  | Workflow.MoveFolder => Workflow.handleMoveFolderKeyPress k
  | Workflow.HoistFiles => Workflow.handleHoistFilesKeyPress k
  | Workflow.NonVideoPurge => Workflow.handleNonVideoPurgeKeyPress k
  | Workflow.SeriesLanguage => Workflow.handleSeriesLanguageKeyPress k
  | Workflow.SeriesSuggestions => Workflow.handleSeriesSuggestionsKeyPress k
  | Workflow.EpisodeRenames => Workflow.handleEpisodeRenamesKeyPress seriesFound k
  | Workflow.AssignEpisode => Workflow.handleAssignEpisodeKeyPress generated k
  | Workflow.RenameFile | Workflow.CreateFolder | Workflow.DeleteFolder
  | Workflow.SeriesName => fun b => b
  end.





(** The season folders of a series directory, in the order of the
    listing. *)
Definition seasonFoldersOf (fs : FileSystem) (seriesDirectory : jsstring)
  : list FolderSeasonMatch :=
  filterMap folderSeason (getFolderNames fs seriesDirectory).

(** The last season folder of the listing with the number [k]. *)
Definition lastFolderOf (fs : FileSystem) (seriesDirectory : jsstring) (k : Z)
  : option FolderSeasonMatch :=
  find (fun info => (season info =? k)%Z) (rev (seasonFoldersOf fs seriesDirectory)).

(** The name the builder proposes for the file [f] of a season folder
    matched to the episode [e]. *)
Definition proposedName (seriesDetails : Series) (season : Z) (f : jsstring)
           (e : Episode) : jsstring :=
  generateEpisodeFileName (toLowerCase (Path.extname f)) (seriesName seriesDetails)
    (airedSeason e) (episodeName e) (airedEpisodeNumber e)
    (Z.of_nat (List.length (episodesOfSeason seriesDetails season))).
(** A code unit of a label: a digit, or the sign of a negative
    number. *)
Definition labelUnit (c : char) : Prop := isDigit c = true \/ c = 45%N.

(** The key [m] as the terminal sends it. *)
Definition keyM : Workflow.KeyPress :=
  {| Workflow.key := lit "m"; Workflow.data_name := Workflow.other |}.

(** Two files found under [Show]: its cover and a file of the season
    folder. *)
Definition foundFiles : list jsstring :=
  [lit "Show/cover.jpg"; lit "Show/Season 1/Show.e01.mkv"].

(** A video file of the season folder without a number in its name,
    as the builder lists it. *)
Definition clip : EpisodeMapping :=
  unchangedEpisodeMapping (lit "Show/Season 1") 1 (lit "clip.mkv").

(** Every name in the tree is a name as a listing gives it. *)
Fixpoint plainTree (t : Tree) : Prop :=
  match t with
  | Folder files folders =>
      Forall plain files /\ Forall plain (map fst folders)
      /\ fold_right and True (map (fun sub => plainTree (snd sub)) folders)
  end.

(** [a] does not come after [b] in the order of the code units. *)
Definition strLe (a b : jsstring) : Prop := str_ltb b a = false.

(** A structure with the seasons 2 and 10. *)
Definition twoSeasons : SeasonMapping :=
  [(2%Z, {| folderName := Some (lit "Season 2"); episodeMappings := [] |});
   (10%Z, {| folderName := Some (lit "Season 10"); episodeMappings := [] |})].

(** The order of the keys of an object: after an array index come
    only larger array indices and other keys, after another key no
    array index. *)
Fixpoint keysInOrder (keys : list Z) : Prop :=
  match keys with
  | [] => True
  | k :: rest =>
      (if isArrayIndex k
       then Forall (fun k' => isArrayIndex k' = true -> (k < k')%Z) rest
       else Forall (fun k' => isArrayIndex k' = false) rest)
      /\ keysInOrder rest
  end.

(** The numbers of [l] in the order in which they first occur. *)
Definition firstSeen (l : list Z) : list Z :=
  fold_left (fun seen k => if existsb (Z.eqb k) seen then seen else seen ++ [k])
            l [].

(** The keys that are no array indices. *)
Definition otherKeys (keys : list Z) : list Z :=
  filter (fun k => negb (isArrayIndex k)) keys.

(** A series directory whose folders carry numbers on both sides of
    the largest array index. *)
Definition largeNumbers : FileSystem :=
  {| getFolderNames :=
       fun _ => [lit "A 4294967296"; lit "B 4294967295"; lit "C 7"];
     getFileNames := fun _ => [];
     fsRename := fun _ _ => true |}.

(* ================================================================== *)
(** * Properties *)

(** ** Checks of the model against documented results *)

Example join_normalizes :
  Path.join (lit "/a/b/") (lit "../c/./d/") = lit "/a/c/d/"
  /\ Path.join (lit "a") (lit "../..") = lit ".."
  /\ Path.join (lit "/a") (lit "../..") = lit "/"
  /\ Path.join (lit "Show (2019)") (lit "Season 1") = lit "Show (2019)/Season 1".
Proof. repeat split. Qed.

Example extname_cases :
  map (fun p => Path.extname (lit p))
      ["index.html"; "index.coffee.md"; "index."; "index"; ".index";
       ".index.md"; ".."; "a/b.x/"]%string
  = map lit [".html"; ".md"; "."; ""; ""; ".md"; ""; ".x"]%string.
Proof. reflexivity. Qed.

Example basename_cases :
  map (fun p => Path.basename (lit p)) ["/a/b//"; "/"; "abc"]%string
  = map lit ["b"; ""; "abc"]%string.
Proof. reflexivity. Qed.

Example toString_cases :
  map Number_toString [0; 7; 45; 150; 1000; -5]%Z
  = map lit ["0"; "7"; "45"; "150"; "1000"; "-5"]%string.
Proof. reflexivity. Qed.

Example padding_cases :
  map twoZero [7; 12; 123]%Z = map lit ["07"; "12"; "123"]%string
  /\ map threeZero [7; 45; 150]%Z = map lit ["007"; "045"; "150"]%string.
Proof. split; reflexivity. Qed.

Example match_cases :
  String_match (ClassDigits (lit "eE")) (lit "Show.S01E07.x264.mkv")
  = Some (lit "E07")
  /\ String_match (ClassDigits (lit "xX")) (lit "Show.7x07.mkv") = Some (lit "x07")
  /\ String_match Digits (lit "Season 12 (2019)") = Some (lit "12")
  /\ String_match Digits (lit "Extras") = None.
Proof. repeat split. Qed.

Example replace_cases :
  replace_all (lit ": ") (lit "-") (lit "a: b: c") = lit "a-b-c"
  /\ replace_all (lit "?") [] (lit "who? me?") = lit "who me".
Proof. split; reflexivity. Qed.

(** The end-to-end example of the specification: the names proposed
    for the three files of [Show (2019)/Season 1]. *)
Example proposed_names :
  map (fun m => (name m, rename (value m)))
      (generateEpisodeNamesForSeason
         {| getFolderNames := fun _ => [];
            getFileNames :=
              fun _ => [lit "Show.e01.mkv"; lit "Show.e02.mkv"; lit "readme.txt"];
            fsRename := fun _ _ => true |}
         (lit "Show (2019)/Season 1") 1
         {| seriesId := 1; seriesName := lit "Show";
            episodes :=
              [ {| id := 1; airedSeason := 1; airedEpisodeNumber := 1;
                   episodeName := lit "Pilot" |};
                {| id := 2; airedSeason := 1; airedEpisodeNumber := 2;
                   episodeName := lit "Second Episode" |} ] |})
  = [(lit "Show.S01E01.Pilot.mkv", true);
     (lit "Show.S01E02.Second.Episode.mkv", true);
     (lit "readme.txt", false)].
Proof. reflexivity. Qed.


(** ** Strings *)

Section StringFacts.

Lemma str_eqb_eq (a b : jsstring) : str_eqb a b = true <-> a = b.
Proof.
  revert b; induction a as [|x a IH]; intros [|y b]; simpl;
    try (split; intro H; [discriminate || reflexivity | reflexivity || discriminate]).
  rewrite andb_true_iff, N.eqb_eq, IH.
  split; [intros [-> ->]; reflexivity | intros [= -> ->]; auto].
Qed.

Lemma str_eqb_refl (a : jsstring) : str_eqb a a = true.
Proof. apply str_eqb_eq; reflexivity. Qed.

Lemma str_eqb_neq (a b : jsstring) : str_eqb a b = false <-> a <> b.
Proof.
  rewrite <- str_eqb_eq. destruct (str_eqb a b); split; congruence.
Qed.

Lemma mem_class (c : char) (cls : list char) :
  existsb (N.eqb c) cls = true <-> In c cls.
Proof.
  rewrite existsb_exists; split.
  - intros (x & Hx & E). apply N.eqb_eq in E. subst; assumption.
  - intros H; exists c; split; [assumption | apply N.eqb_refl].
Qed.

Lemma startsWith_app (p rest : jsstring) : startsWith (p ++ rest) p = true.
Proof.
  induction p as [|x p IH]; simpl; [reflexivity|].
  rewrite N.eqb_refl; exact IH.
Qed.

Lemma startsWith_prefix (s p : jsstring) :
  startsWith s p = true <-> exists rest, s = p ++ rest.
Proof.
  split.
  - revert s; induction p as [|x p IH]; intros s H; simpl in *.
    + exists s; reflexivity.
    + destruct s as [|y s]; [discriminate|].
      apply andb_true_iff in H as [E H]. apply N.eqb_eq in E; subst y.
      destruct (IH _ H) as [rest ->]. exists rest; reflexivity.
  - intros [rest ->]; apply startsWith_app.
Qed.

Lemma takeWhile_run (p : char -> bool) (run rest : jsstring) :
  Forall (fun c => p c = true) run ->
  match rest with [] => True | d :: _ => p d = false end ->
  takeWhile p (run ++ rest) = run.
Proof.
  intros Hrun Hrest; induction Hrun as [|c run Hc _ IH]; simpl.
  - destruct rest as [|d rest]; simpl; [reflexivity | now rewrite Hrest].
  - now rewrite Hc, IH.
Qed.

Lemma takeWhile_all (p : char -> bool) (s : jsstring) :
  Forall (fun c => p c = true) (takeWhile p s).
Proof.
  induction s as [|c s IH]; simpl; [constructor|].
  destruct (p c) eqn:E; constructor; assumption.
Qed.

Lemma takeWhile_dropWhile (p : char -> bool) (s : jsstring) :
  takeWhile p s ++ dropWhile p s = s.
Proof.
  induction s as [|c s IH]; simpl; [reflexivity|].
  destruct (p c); simpl; [now rewrite IH | reflexivity].
Qed.

Lemma dropWhile_head (p : char -> bool) (s : jsstring) :
  match dropWhile p s with [] => True | d :: _ => p d = false end.
Proof.
  induction s as [|c s IH]; simpl; [exact I|].
  destruct (p c) eqn:E; [exact IH | exact E].
Qed.

Lemma takeWhile_id (p : char -> bool) (s : jsstring) :
  Forall (fun c => p c = true) s -> takeWhile p s = s.
Proof.
  induction 1 as [|c s Hc _ IH]; simpl; [reflexivity|].
  now rewrite Hc, IH.
Qed.

End StringFacts.

(** ** Regular expression matching *)

Section MatchFacts.

Lemma occurs_cons (cls : list char) (a : char) (t : jsstring) :
  occurs cls t -> occurs cls (a :: t).
Proof.
  intros (u & x & d & v & -> & Hx & Hd).
  exists (a :: u), x, d, v; auto.
Qed.

Lemma String_match_unfold (r : RegExp) (s : jsstring) :
  String_match r s =
  match match_here r s with
  | Some m => Some m
  | None => match s with [] => None | _ :: s' => String_match r s' end
  end.
Proof. destruct s; reflexivity. Qed.

Lemma match_here_class_none (cls : list char) (s : jsstring) :
  ~ occurs cls s -> match_here (ClassDigits cls) s = None.
Proof.
  intros H; destruct s as [|c s]; simpl; [reflexivity|].
  destruct (existsb (N.eqb c) cls) eqn:E; [|reflexivity].
  apply mem_class in E.
  destruct s as [|d s]; simpl; [reflexivity|].
  destruct (isDigit d) eqn:Hd; [|reflexivity].
  exfalso; apply H. exists [], c, d, s; auto.
Qed.

Lemma String_match_class_none (cls : list char) (s : jsstring) :
  ~ occurs cls s -> String_match (ClassDigits cls) s = None.
Proof.
  induction s as [|c s IH]; intros H.
  - reflexivity.
  - cbn [String_match]. rewrite (match_here_class_none _ _ H).
    apply IH. intros Ho; apply H, occurs_cons, Ho.
Qed.

Lemma match_here_class_hit (cls : list char) (c : char) (run rest : jsstring) :
  In c cls -> run <> [] -> Forall (fun d => isDigit d = true) run ->
  nondigitHead rest ->
  match_here (ClassDigits cls) (c :: run ++ rest) = Some (c :: run).
Proof.
  intros Hc Hne Hrun Hrest; simpl.
  apply mem_class in Hc; rewrite Hc.
  rewrite (takeWhile_run isDigit _ _ Hrun Hrest).
  destruct run; [congruence | reflexivity].
Qed.

(** The leftmost occurrence is the one matched, with all its
    digits. *)
Lemma String_match_class_first
      (cls : list char) (pre : jsstring) (c : char) (run rest : jsstring) :
  ~ occurs cls (pre ++ [c]) ->
  In c cls -> run <> [] -> Forall (fun d => isDigit d = true) run ->
  nondigitHead rest ->
  String_match (ClassDigits cls) (pre ++ c :: run ++ rest) = Some (c :: run).
Proof.
  intros Hno Hc Hne Hrun Hrest.
  induction pre as [|a pre IH].
  - simpl app. rewrite String_match_unfold.
    now rewrite match_here_class_hit.
  - change ((a :: pre) ++ c :: run ++ rest)
      with (a :: (pre ++ c :: run ++ rest)).
    cbn [String_match].
    assert (Hh : match_here (ClassDigits cls) (a :: pre ++ c :: run ++ rest) = None).
    { simpl. destruct (existsb (N.eqb a) cls) eqn:Ea; [|reflexivity].
      apply mem_class in Ea.
      destruct pre as [|d pre]; simpl.
      - destruct (isDigit c) eqn:Hd; [|reflexivity].
        exfalso; apply Hno. exists [], a, c, []; auto.
      - destruct (isDigit d) eqn:Hd; [|reflexivity].
        exfalso; apply Hno. exists [], a, d, (pre ++ [c]); auto. }
    rewrite Hh. apply IH.
    intros Ho; apply Hno. simpl. apply occurs_cons, Ho.
Qed.

Lemma String_match_digits_none (s : jsstring) :
  Forall (fun d => isDigit d = false) s <-> String_match Digits s = None.
Proof.
  induction s as [|c s IH]; cbn [String_match match_here takeWhile].
  - split; [reflexivity | constructor].
  - destruct (isDigit c) eqn:Hc.
    + split; [|discriminate]. intros H; inversion H; congruence.
    + rewrite <- IH. split; [intros H; now inversion H | now constructor].
Qed.

Lemma String_match_digits_first (pre run rest : jsstring) :
  Forall (fun d => isDigit d = false) pre ->
  run <> [] -> Forall (fun d => isDigit d = true) run ->
  nondigitHead rest ->
  String_match Digits (pre ++ run ++ rest) = Some run.
Proof.
  intros Hpre Hne Hrun Hrest.
  induction Hpre as [|a pre Ha _ IH].
  - simpl app. rewrite String_match_unfold. cbn [match_here].
    rewrite (takeWhile_run isDigit _ _ Hrun Hrest).
    destruct run; [congruence | reflexivity].
  - change ((a :: pre) ++ run ++ rest) with (a :: (pre ++ run ++ rest)).
    cbn [String_match match_here takeWhile]. rewrite Ha. exact IH.
Qed.

(** What [/\d+/] matches is a non-empty run of digits: the argument
    of [parseInt] at its calls. *)
Lemma String_match_digits (s m : jsstring) :
  String_match Digits s = Some m ->
  m <> [] /\ Forall (fun d => isDigit d = true) m.
Proof.
  induction s as [|c s IH]; cbn [String_match match_here].
  - simpl. discriminate.
  - destruct (takeWhile isDigit (c :: s)) eqn:E.
    + exact IH.
    + intros [= <-]. split; [discriminate|].
      rewrite <- E. apply takeWhile_all.
Qed.

Lemma String_match_class_digits (cls : list char) (s m : jsstring) :
  String_match (ClassDigits cls) s = Some m ->
  exists c run, m = c :: run /\ In c cls /\ run <> []
                /\ Forall (fun d => isDigit d = true) run.
Proof.
  induction s as [|c s IH]; cbn [String_match match_here].
  - discriminate.
  - destruct (existsb (N.eqb c) cls) eqn:Ec; [|exact IH].
    destruct (takeWhile isDigit s) eqn:E; [exact IH|].
    intros [= <-]. exists c, (c0 :: j). apply mem_class in Ec.
    repeat split; auto; [discriminate|].
    rewrite <- E. apply takeWhile_all.
Qed.

End MatchFacts.

(** ** The episode number parser *)

Section Parser.

Lemma occurs_has_digit (cls : list char) (s : jsstring) :
  noDigit s -> ~ occurs cls s.
Proof.
  intros H (u & a & d & v & -> & _ & Hd).
  apply Forall_app in H as [_ H].
  inversion H as [|? ? _ H']; inversion H' as [|? ? Hd' _]; congruence.
Qed.

Lemma matchEpisodeNumber_E (pre : jsstring) (c : char) (run rest : jsstring) :
  In c (lit "eE") -> run <> [] -> allDigits run -> nondigitHead rest ->
  ~ occurs (lit "eE") (pre ++ [c]) ->
  matchEpisodeNumber episodeRegexes (pre ++ c :: run ++ rest)
  = Some (parseInt run).
Proof.
  intros Hc Hne Hrun Hrest Hno.
  cbn [matchEpisodeNumber episodeRegexes regex numberStart].
  now rewrite (String_match_class_first _ _ _ _ _ Hno Hc Hne Hrun Hrest).
Qed.

Lemma matchEpisodeNumber_x (pre : jsstring) (c : char) (run rest : jsstring) :
  ~ occurs (lit "eE") (pre ++ c :: run ++ rest) ->
  In c (lit "xX") -> run <> [] -> allDigits run -> nondigitHead rest ->
  ~ occurs (lit "xX") (pre ++ [c]) ->
  matchEpisodeNumber episodeRegexes (pre ++ c :: run ++ rest)
  = Some (parseInt run).
Proof.
  intros HnoE Hc Hne Hrun Hrest Hno.
  cbn [matchEpisodeNumber episodeRegexes regex numberStart].
  rewrite (String_match_class_none _ _ HnoE).
  now rewrite (String_match_class_first _ _ _ _ _ Hno Hc Hne Hrun Hrest).
Qed.

Lemma matchEpisodeNumber_digits (pre run rest : jsstring) :
  ~ occurs (lit "eE") (pre ++ run ++ rest) ->
  ~ occurs (lit "xX") (pre ++ run ++ rest) ->
  noDigit pre -> run <> [] -> allDigits run -> nondigitHead rest ->
  matchEpisodeNumber episodeRegexes (pre ++ run ++ rest)
  = Some (parseInt run).
Proof.
  intros HnoE Hnox Hpre Hne Hrun Hrest.
  cbn [matchEpisodeNumber episodeRegexes regex numberStart].
  rewrite (String_match_class_none _ _ HnoE), (String_match_class_none _ _ Hnox).
  now rewrite (String_match_digits_first _ _ _ Hpre Hne Hrun Hrest).
Qed.

Lemma matchEpisodeNumber_none (fileName : jsstring) :
  matchEpisodeNumber episodeRegexes fileName = None
  <-> Forall (fun r => String_match (regex r) fileName = None) episodeRegexes.
Proof.
  unfold episodeRegexes. cbn [matchEpisodeNumber regex numberStart].
  rewrite !Forall_cons_iff. cbn [regex].
  destruct (String_match (ClassDigits (lit "eE")) fileName);
    [split; [discriminate | intros [H _]; discriminate]|].
  destruct (String_match (ClassDigits (lit "xX")) fileName);
    [split; [discriminate | intros (_ & H & _); discriminate]|].
  destruct (String_match Digits fileName);
    [split; [discriminate | intros (_ & _ & H & _); discriminate]|].
  split; [intros _; repeat split; constructor | reflexivity].
Qed.

Lemma matchEpisodeNumber_noDigit (fileName : jsstring) :
  matchEpisodeNumber episodeRegexes fileName = None <-> noDigit fileName.
Proof.
  split.
  - intros H. apply matchEpisodeNumber_none in H.
    unfold episodeRegexes in H. rewrite !Forall_cons_iff in H.
    destruct H as (_ & _ & H & _). now apply String_match_digits_none.
  - intros H. cbn [matchEpisodeNumber episodeRegexes regex numberStart].
    rewrite (String_match_class_none _ _ (occurs_has_digit _ _ H)).
    rewrite (String_match_class_none _ _ (occurs_has_digit _ _ H)).
    apply String_match_digits_none in H. now rewrite H.
Qed.

End Parser.

(** C4. The episode number parser tries the patterns in the order
    E/e plus digits, x/X plus digits, bare digits, and stops at the
    first that matches: the leftmost [E]-occurrence gives the digits
    after the letter; without any [E]-occurrence the leftmost
    [x]-occurrence does; without either, the first run of digits is
    taken as it is; and no number is produced exactly when no pattern
    matches, that is when the name has no digit.  The three names
    ["Show.E07.mkv"], ["Show.7x07.mkv"] and ["Show.07.mkv"] all give 7. *)
Theorem C4_parser_priority :
  matchEpisodeNumber episodeRegexes (lit "Show.E07.mkv") = Some 7%Z
  /\ matchEpisodeNumber episodeRegexes (lit "Show.7x07.mkv") = Some 7%Z
  /\ matchEpisodeNumber episodeRegexes (lit "Show.07.mkv") = Some 7%Z
  /\ (forall pre c run rest,
        In c (lit "eE") -> run <> [] -> allDigits run -> nondigitHead rest ->
        ~ occurs (lit "eE") (pre ++ [c]) ->
        matchEpisodeNumber episodeRegexes (pre ++ c :: run ++ rest)
        = Some (parseInt run))
  /\ (forall pre c run rest,
        ~ occurs (lit "eE") (pre ++ c :: run ++ rest) ->
        In c (lit "xX") -> run <> [] -> allDigits run -> nondigitHead rest ->
        ~ occurs (lit "xX") (pre ++ [c]) ->
        matchEpisodeNumber episodeRegexes (pre ++ c :: run ++ rest)
        = Some (parseInt run))
  /\ (forall pre run rest,
        ~ occurs (lit "eE") (pre ++ run ++ rest) ->
        ~ occurs (lit "xX") (pre ++ run ++ rest) ->
        noDigit pre -> run <> [] -> allDigits run -> nondigitHead rest ->
        matchEpisodeNumber episodeRegexes (pre ++ run ++ rest)
        = Some (parseInt run))
  /\ (forall fileName,
        matchEpisodeNumber episodeRegexes fileName = None
        <-> Forall (fun r => String_match (regex r) fileName = None)
                   episodeRegexes)
  /\ (forall fileName,
        matchEpisodeNumber episodeRegexes fileName = None <-> noDigit fileName).
Proof.
  split; [reflexivity|].
  split; [reflexivity|].
  split; [reflexivity|].
  split; [exact matchEpisodeNumber_E|].
  split; [exact matchEpisodeNumber_x|].
  split; [exact matchEpisodeNumber_digits|].
  split; [exact matchEpisodeNumber_none | exact matchEpisodeNumber_noDigit].
Qed.

(** ** The file name sanitizer *)

Section Sanitizer.

(** Every code unit of a result comes from the input or from the
    replacement. *)
Lemma replace_from_origin (pat rep : jsstring) (c : char) (s : jsstring) :
  forall skip, In c (replace_from pat rep skip s) -> In c s \/ In c rep.
Proof.
  induction s as [|x s IH]; intros skip H; simpl in H; [contradiction|].
  destruct skip as [|k].
  - destruct pat as [|p pat'].
    + destruct H as [-> | H]; [left; left; reflexivity|].
      destruct (IH _ H); [left; right; assumption | right; assumption].
    + destruct (startsWith (x :: s) (p :: pat')).
      * apply in_app_or in H as [H | H]; [right; assumption|].
        destruct (IH _ H); [left; right; assumption | right; assumption].
      * destruct H as [-> | H]; [left; left; reflexivity|].
        destruct (IH _ H); [left; right; assumption | right; assumption].
  - destruct (IH _ H); [left; right; assumption | right; assumption].
Qed.

Lemma replace_all_absent (pat rep : jsstring) (c : char) (s : jsstring) :
  ~ In c s -> ~ In c rep -> ~ In c (replace_all pat rep s).
Proof.
  intros Hs Hr H. destruct (replace_from_origin _ _ _ _ _ H); auto.
Qed.

(** A one-character pattern is gone from the result. *)
Lemma replace_all_kills (c : char) (rep s : jsstring) :
  ~ In c rep -> ~ In c (replace_all [c] rep s).
Proof.
  intros Hr. unfold replace_all.
  induction s as [|x s IH]; simpl; [tauto|].
  destruct (c =? x)%N eqn:E; simpl.
  - intros H; apply in_app_or in H as [H | H]; auto.
  - intros [-> | H]; [now rewrite N.eqb_refl in E | auto].
Qed.

(** A pattern whose first code unit is not in the string leaves the
    string as it is. *)
Lemma replace_all_id (p : char) (pat' rep s : jsstring) :
  ~ In p s -> replace_all (p :: pat') rep s = s.
Proof.
  unfold replace_all. induction s as [|x s IH]; intros H; [reflexivity|].
  cbn [replace_from startsWith].
  destruct (p =? x)%N eqn:E.
  - apply N.eqb_eq in E; subst. exfalso; apply H; left; reflexivity.
  - simpl. rewrite IH; [reflexivity|]. intros Hin; apply H; right; exact Hin.
Qed.

Lemma mem_false (c : char) (s : jsstring) : mem c s = false <-> ~ In c s.
Proof.
  unfold mem. rewrite <- mem_class. destruct (existsb (N.eqb c) s); split; congruence.
Qed.

Lemma applyReplaces_absent (c : char) (table : list EpisodeReplace) :
  forall s,
    forallb (fun r => negb (mem c (replacement r))) table = true ->
    ~ In c s -> ~ In c (applyReplaces table s).
Proof.
  induction table as [|r table IH]; intros s Ht Hs; [exact Hs|].
  simpl in Ht. apply andb_true_iff in Ht as [Hr Ht].
  apply negb_true_iff, mem_false in Hr.
  apply (IH _ Ht). now apply replace_all_absent.
Qed.

Lemma kills_sound (c : char) (table : list EpisodeReplace) :
  kills c table = true -> forall s, ~ In c (applyReplaces table s).
Proof.
  induction table as [|r table IH]; intros H s; [discriminate|].
  simpl in H. apply orb_true_iff in H as [H | H].
  - apply andb_true_iff in H as [H Hpost].
    apply andb_true_iff in H as [Hpat Hrep].
    apply str_eqb_eq in Hpat. apply negb_true_iff, mem_false in Hrep.
    cbn [applyReplaces fold_left]. fold (applyReplaces table).
    apply (applyReplaces_absent _ _ _ Hpost).
    rewrite Hpat. now apply replace_all_kills.
  - apply (IH H).
Qed.

Lemma applyReplaces_id (table : list EpisodeReplace) (s : jsstring) :
  untouched table s -> applyReplaces table s = s.
Proof.
  induction 1 as [|r table Hr _ IH]; [reflexivity|].
  cbn [applyReplaces fold_left]. fold (applyReplaces table).
  destruct (pattern r) as [|p pat'] eqn:E; [contradiction|].
  rewrite (replace_all_id _ _ _ _ Hr). exact IH.
Qed.

Lemma sanitize_clean (s : jsstring) (c : char) :
  In c sanitizedAway -> ~ In c (sanitize s).
Proof.
  intros Hc. apply kills_sound. revert c Hc.
  apply Forall_forall. repeat constructor.
Qed.

Lemma sanitize_idempotent (s : jsstring) : sanitize (sanitize s) = sanitize s.
Proof.
  apply applyReplaces_id. unfold untouched, episodeReplaces.
  repeat constructor; cbn [pattern lit map list_ascii_of_string];
    apply sanitize_clean; cbn; tauto.
Qed.

End Sanitizer.

(** C3. The output of the sanitizer contains none of the code units
    ä ö ü ß Ä Ö Ü ? , : / or the double quote, space or tab, whatever
    the input; sanitizing
    an output again returns it unchanged; and in the table the two
    colon entries come before the space entry, so that ["a: b"]
    becomes ["a-b"]. *)
Theorem C3_sanitizer_clean_idempotent :
  (forall s, Forall (fun c => ~ In c (sanitize s)) sanitizedAway)
  /\ (forall s, sanitize (sanitize s) = sanitize s)
  /\ (exists pre mid post,
         episodeReplaces =
         pre ++ [ {| pattern := lit ": "; replacement := lit "-" |};
                  {| pattern := lit ":"; replacement := lit "-" |} ]
             ++ mid ++ [ {| pattern := lit " "; replacement := lit "." |} ]
             ++ post)
  /\ sanitize (lit "a: b") = lit "a-b"
  /\ (forall fileExtension seriesName seasonNumber episodeName episodeNumber
             episodesInSeason,
         Forall (fun c =>
                   ~ In c (generateEpisodeFileName fileExtension seriesName
                             seasonNumber episodeName episodeNumber
                             episodesInSeason))
                sanitizedAway).
Proof.
  split; [intros s; apply Forall_forall; intros c; apply sanitize_clean|].
  split; [exact sanitize_idempotent|].
  split.
  { exists (firstn 9 episodeReplaces),
           [ {| pattern := [c_quote]; replacement := lit "'" |} ],
           (skipn 13 episodeReplaces).
    reflexivity. }
  split; [reflexivity|].
  intros. apply Forall_forall; intros c. apply sanitize_clean.
Qed.

(** ** Episode ordinals *)

Section Ordinals.

Lemma digits_of_length_ge (fuel : nat) :
  forall n acc, (List.length acc <= List.length (digits_of fuel n acc))%nat.
Proof.
  induction fuel as [|fuel IH]; intros n acc; simpl; [lia|].
  destruct (n <? 10)%N; simpl; [lia|].
  specialize (IH (n / 10)%N ((48 + n mod 10)%N :: acc)). simpl in IH. lia.
Qed.

Lemma log2_fuel (n : N) (k : N) :
  (2 ^ k <= n)%N -> (N.to_nat k <= N.to_nat (N.log2 n))%nat.
Proof.
  intros H. apply N.log2_le_mono in H. rewrite N.log2_pow2 in H by lia. lia.
Qed.

Lemma N_toString_length_1 (n : N) :
  (n < 10)%N -> List.length (N_toString n) = 1%nat.
Proof.
  intros H. unfold N_toString. cbn [digits_of].
  apply N.ltb_lt in H. now rewrite H.
Qed.

Lemma N_toString_length_2 (n : N) :
  (10 <= n < 100)%N -> List.length (N_toString n) = 2%nat.
Proof.
  intros [Hlo Hhi]. unfold N_toString.
  assert (Hf : (3 <= N.to_nat (N.log2 n))%nat).
  { apply (log2_fuel n 3). simpl. lia. }
  destruct (N.to_nat (N.log2 n)) as [|[|f]]; try lia.
  cbn [digits_of].
  assert (E1 : (n <? 10)%N = false) by (apply N.ltb_ge; lia).
  assert (E2 : (n / 10 <? 10)%N = true).
  { apply N.ltb_lt. apply N.Div0.div_lt_upper_bound; lia. }
  now rewrite E1, E2.
Qed.

Lemma N_toString_length_3 (n : N) :
  (100 <= n)%N -> (3 <= List.length (N_toString n))%nat.
Proof.
  intros Hlo. unfold N_toString.
  assert (Hf : (6 <= N.to_nat (N.log2 n))%nat).
  { apply (log2_fuel n 6). simpl. lia. }
  destruct (N.to_nat (N.log2 n)) as [|[|[|f]]]; try lia.
  cbn [digits_of].
  assert (E1 : (n <? 10)%N = false) by (apply N.ltb_ge; lia).
  assert (E2 : (n / 10 <? 10)%N = false).
  { apply N.ltb_ge. apply N.div_le_lower_bound; lia. }
  rewrite E1, E2.
  repeat match goal with
         | |- context [(?a <? 10)%N] => destruct (a <? 10)%N
         end; cbn [List.length]; try lia.
  match goal with
  | |- (_ <= List.length (digits_of ?f ?m ?acc))%nat =>
      pose proof (digits_of_length_ge f m acc) as Hl
  end.
  cbn [List.length] in Hl. lia.
Qed.

Lemma Number_toString_nonneg (n : Z) :
  (0 <= n)%Z -> Number_toString n = N_toString (Z.to_N n).
Proof. destruct n; [reflexivity | reflexivity | lia]. Qed.

Lemma twoZero_zeroPadded (n : Z) : (0 <= n)%Z -> twoZero n = zeroPadded 2 n.
Proof.
  intros H. unfold twoZero, zeroPadded.
  rewrite (Number_toString_nonneg n H).
  destruct (n <? 10)%Z eqn:E.
  - apply Z.ltb_lt in E. rewrite N_toString_length_1 by lia. reflexivity.
  - apply Z.ltb_ge in E.
    destruct (Z_lt_le_dec n 100).
    + rewrite N_toString_length_2 by lia. reflexivity.
    + pose proof (N_toString_length_3 (Z.to_N n)) as H3.
      replace (2 - List.length (N_toString (Z.to_N n)))%nat with 0%nat by lia.
      reflexivity.
Qed.

Lemma threeZero_zeroPadded (n : Z) : (0 <= n)%Z -> threeZero n = zeroPadded 3 n.
Proof.
  intros H. unfold threeZero, twoZero, zeroPadded.
  rewrite (Number_toString_nonneg n H).
  destruct (n <? 100)%Z eqn:E.
  - apply Z.ltb_lt in E. destruct (n <? 10)%Z eqn:E'.
    + apply Z.ltb_lt in E'. rewrite N_toString_length_1 by lia. reflexivity.
    + apply Z.ltb_ge in E'. rewrite N_toString_length_2 by lia. reflexivity.
  - apply Z.ltb_ge in E.
    pose proof (N_toString_length_3 (Z.to_N n)) as H3.
    replace (3 - List.length (N_toString (Z.to_N n)))%nat with 0%nat by lia.
    reflexivity.
Qed.

Lemma generateEpisodeNumber_zeroPadded (n count : Z) :
  (0 <= n)%Z ->
  generateEpisodeNumber n count = zeroPadded (ordinalWidth count) n.
Proof.
  intros H. unfold generateEpisodeNumber, ordinalWidth.
  destruct (count <? 100)%Z;
    [apply twoZero_zeroPadded | apply threeZero_zeroPadded]; exact H.
Qed.

End Ordinals.

(** The numeral that [Number_toString] prints reads back as the
    number. *)
Section Numerals.

Let step (acc : Z) (c : char) : Z := (10 * acc + (Z.of_N c - 48))%Z.

Lemma digits_of_value (fuel : nat) :
  forall n acc,
    (n < 10 ^ N.of_nat fuel)%N ->
    exists ds,
      digits_of fuel n acc = ds ++ acc
      /\ allDigits ds
      /\ forall a, fold_left step ds a
                   = (a * 10 ^ Z.of_nat (List.length ds) + Z.of_N n)%Z.
Proof.
  induction fuel as [|fuel IH]; intros n acc Hn.
  - exists []. change (10 ^ N.of_nat 0)%N with 1%N in Hn.
    repeat split; [constructor|]. intros a. cbn. lia.
  - cbn [digits_of].
    assert (Hd : isDigit (48 + n mod 10)%N = true).
    { unfold isDigit. pose proof (N.mod_upper_bound n 10 ltac:(lia)) as Hm.
      set (m := (n mod 10)%N) in *. clearbody m.
      apply andb_true_iff; split; apply N.leb_le; lia. }
    destruct (n <? 10)%N eqn:E.
    + apply N.ltb_lt in E. exists [(48 + n mod 10)%N].
      split; [reflexivity|]. split; [repeat constructor; exact Hd|].
      intros a. cbn [fold_left List.length]. unfold step.
      rewrite N.mod_small by exact E. change (Z.of_nat 1) with 1%Z. lia.
    + apply N.ltb_ge in E.
      assert (Hq : (n / 10 < 10 ^ N.of_nat fuel)%N).
      { apply N.Div0.div_lt_upper_bound.
        rewrite Nat2N.inj_succ, N.pow_succ_r' in Hn. exact Hn. }
      destruct (IH (n / 10)%N ((48 + n mod 10)%N :: acc) Hq)
        as (ds & Hds & Hall & Hval).
      exists (ds ++ [(48 + n mod 10)%N]).
      split; [rewrite Hds, <- app_assoc; reflexivity|].
      split; [apply Forall_app; split; [exact Hall | repeat constructor; exact Hd]|].
      intros a. rewrite fold_left_app, Hval. cbn [fold_left]. unfold step.
      rewrite length_app. cbn [List.length].
      rewrite Nat2Z.inj_add. change (Z.of_nat 1) with 1%Z.
      rewrite Z.pow_add_r by lia. change (10 ^ 1)%Z with 10%Z.
      pose proof (N.div_mod n 10 ltac:(lia)) as Hdm.
      pose proof (N.mod_upper_bound n 10 ltac:(lia)) as Hm.
      rewrite N2Z.inj_div.
      assert (Z.of_N n = 10 * (Z.of_N n / 10) + Z.of_N (n mod 10))%Z.
      { rewrite N2Z.inj_mod. apply Z.div_mod. lia. }
      lia.
Qed.

Lemma fuel_suffices (n : N) : (n < 10 ^ N.of_nat (S (N.to_nat (N.log2 n))))%N.
Proof.
  rewrite Nat2N.inj_succ, N2Nat.id.
  destruct (N.eq_dec n 0) as [-> | Hn]; [reflexivity|].
  destruct (N.log2_spec n ltac:(lia)) as [_ Hlt].
  eapply N.lt_le_trans; [exact Hlt|].
  apply N.pow_le_mono_l. lia.
Qed.

Lemma parseInt_toString (n : Z) : (0 <= n)%Z -> parseInt (Number_toString n) = n.
Proof.
  intros Hn. rewrite (Number_toString_nonneg n Hn). unfold N_toString, parseInt.
  destruct (digits_of_value _ (Z.to_N n) [] (fuel_suffices (Z.to_N n)))
    as (ds & Hds & Hall & Hval).
  rewrite Hds, app_nil_r, (takeWhile_id isDigit ds Hall).
  fold step. rewrite Hval. lia.
Qed.

End Numerals.

(** ** Sorting *)

Section SortFacts.

Context {A : Type} (cmp : A -> A -> Z).

Lemma sort_insert_perm (x : A) (l : list A) :
  Permutation (sort_insert cmp x l) (x :: l).
Proof.
  induction l as [|y l IH]; simpl; [reflexivity|].
  destruct (cmp x y <=? 0)%Z; [reflexivity|].
  rewrite IH. apply perm_swap.
Qed.

Lemma Array_sort_perm (l : list A) : Permutation (Array_sort cmp l) l.
Proof.
  induction l as [|x l IH]; simpl; [reflexivity|].
  rewrite sort_insert_perm. now constructor.
Qed.

Lemma Array_sort_In (x : A) (l : list A) : In x (Array_sort cmp l) <-> In x l.
Proof.
  split; apply Permutation_in;
    [apply Array_sort_perm | symmetry; apply Array_sort_perm].
Qed.

Lemma Array_sort_Forall (P : A -> Prop) (l : list A) :
  Forall P l -> Forall P (Array_sort cmp l).
Proof.
  rewrite !Forall_forall. intros H x Hx. apply H, Array_sort_In, Hx.
Qed.

End SortFacts.

(** ** The mapping of one file *)

Section OneFile.

Lemma generateEpisodeName_notVideo sn sf snum f eps force :
  fileIsVideo f = false ->
  generateEpisodeName sn sf snum f eps force = unchangedEpisodeMapping sf snum f.
Proof.
  unfold fileIsVideo, generateEpisodeName. intros ->. reflexivity.
Qed.

Lemma generateEpisodeName_unparsed sn sf snum f eps force :
  resolvedNumber f force = None ->
  generateEpisodeName sn sf snum f eps force = unchangedEpisodeMapping sf snum f.
Proof.
  unfold resolvedNumber, generateEpisodeName. intros ->.
  now destruct (negb _).
Qed.

Lemma generateEpisodeName_noEpisode sn sf snum f eps force n :
  resolvedNumber f force = Some n ->
  Array_find (hasNumber n) eps = None ->
  generateEpisodeName sn sf snum f eps force = unchangedEpisodeMapping sf snum f.
Proof.
  unfold resolvedNumber, generateEpisodeName, hasNumber. intros -> ->.
  now destruct (negb _).
Qed.

Lemma generateEpisodeName_matched sn sf snum f eps force n e :
  fileIsVideo f = true ->
  resolvedNumber f force = Some n ->
  Array_find (hasNumber n) eps = Some e ->
  let count := Z.of_nat (List.length eps) in
  let fileExtension := toLowerCase (Path.extname f) in
  let sanatizedName :=
    generateEpisodeFileName fileExtension sn (airedSeason e) (episodeName e)
                            (airedEpisodeNumber e) count in
  generateEpisodeName sn sf snum f eps force =
  {| name := sanatizedName;
     message := lit "E" ++ generateEpisodeNumber n count ++ lit ": "
                ++ f ++ lit " > " ++ sanatizedName;
     value := {| originalPath := Path.join sf f;
                 updatedPath := Path.join sf sanatizedName;
                 episode := Some e;
                 rename := negb (str_eqb f sanatizedName);
                 episodeNumber := Some (generateEpisodeNumber n count);
                 seasonNumber := snum;
                 seasonFolder := sf |} |}.
Proof.
  unfold fileIsVideo, resolvedNumber, generateEpisodeName, hasNumber.
  intros -> -> ->. reflexivity.
Qed.

(** The three ways out, and no other. *)
Lemma generateEpisodeName_cases sn sf snum f eps force :
  generateEpisodeName sn sf snum f eps force = unchangedEpisodeMapping sf snum f
  \/ exists n e,
      fileIsVideo f = true /\ resolvedNumber f force = Some n
      /\ Array_find (hasNumber n) eps = Some e.
Proof.
  destruct (fileIsVideo f) eqn:Hv;
    [|left; now apply generateEpisodeName_notVideo].
  destruct (resolvedNumber f force) as [n|] eqn:Hn;
    [|left; now apply generateEpisodeName_unparsed].
  destruct (Array_find (hasNumber n) eps) as [e|] eqn:He;
    [|left; now apply generateEpisodeName_noEpisode with n].
  right; exists n, e; auto.
Qed.

Lemma find_none_iff (n : Z) (eps : list Episode) :
  Array_find (hasNumber n) eps = None
  <-> Forall (fun e => airedEpisodeNumber e <> n) eps.
Proof.
  unfold Array_find, hasNumber. induction eps as [|e eps IH]; simpl.
  - split; [constructor | reflexivity].
  - destruct (airedEpisodeNumber e =? n)%Z eqn:E.
    + apply Z.eqb_eq in E. split; [discriminate|].
      intros H; inversion H; contradiction.
    + apply Z.eqb_neq in E. rewrite IH.
      split; [now constructor | intros H; now inversion H].
Qed.

Lemma find_some_number (n : Z) (eps : list Episode) (e : Episode) :
  Array_find (hasNumber n) eps = Some e -> In e eps /\ airedEpisodeNumber e = n.
Proof.
  intros H. apply find_some in H as [Hin H]. split; [exact Hin|].
  now apply Z.eqb_eq.
Qed.

End OneFile.

(** C8. A file of a season folder that is not a video file, or from
    whose name no episode number is parsed, or whose parsed number is
    the number of no episode of the season, gets the unchanged mapping
    in the list the builder returns for the folder: both paths are the
    path of the file, no episode is matched, the rename flag is false,
    the entry is named by the file name itself and is shown as
    ["--- "] followed by the file name. *)
Theorem C8_unchanged_mapping :
  forall fs seasonFolder season seriesDetails fileName,
    In fileName (getFileNames fs seasonFolder) ->
    (fileIsVideo fileName = false
     \/ matchEpisodeNumber episodeRegexes fileName = None
     \/ exists n, matchEpisodeNumber episodeRegexes fileName = Some n
                  /\ forall e, In e (episodes seriesDetails) ->
                               airedSeason e = season ->
                               airedEpisodeNumber e <> n) ->
    let m := generateEpisodeName (seriesName seriesDetails) seasonFolder season
               fileName (episodesOfSeason seriesDetails season) None in
    In m (generateEpisodeNamesForSeason fs seasonFolder season seriesDetails)
    /\ m = unchangedEpisodeMapping seasonFolder season fileName
    /\ originalPath (value m) = Path.join seasonFolder fileName
    /\ updatedPath (value m) = originalPath (value m)
    /\ episode (value m) = None
    /\ rename (value m) = false
    /\ name m = fileName
    /\ message m = lit "--- " ++ fileName.
Proof.
  intros fs sf season sd f Hin Hcase m.
  assert (Hm : m = unchangedEpisodeMapping sf season f).
  { subst m. destruct Hcase as [Hv | [Hp | (n & Hp & Hnone)]].
    - now apply generateEpisodeName_notVideo.
    - now apply generateEpisodeName_unparsed.
    - apply generateEpisodeName_noEpisode with n; [exact Hp|].
      apply find_none_iff, Forall_forall. intros e He.
      apply filter_In in He as [He Hs]. apply Z.eqb_eq in Hs. now apply Hnone. }
  split.
  - apply Array_sort_In. unfold seasonFileMappings.
    apply in_map_iff. exists f. split; [reflexivity | exact Hin].
  - rewrite Hm. repeat split.
Qed.

(** ** The proposed file name *)

Section ProposedName.

Lemma parseInt_nonneg (s : jsstring) : (0 <= parseInt s)%Z.
Proof.
  unfold parseInt.
  assert (H : forall run acc,
             allDigits run -> (0 <= acc)%Z ->
             (0 <= fold_left (fun acc c => 10 * acc + (Z.of_N c - 48)) run acc)%Z).
  { induction run as [|c run IH]; intros acc Hrun Hacc; cbn [fold_left];
      [exact Hacc|].
    inversion Hrun as [|? ? Hc Hrun']; subst. apply IH; [exact Hrun'|].
    unfold isDigit in Hc. apply andb_true_iff in Hc as [Hc _].
    apply N.leb_le in Hc. lia. }
  apply H; [apply takeWhile_all | lia].
Qed.

Lemma matchEpisodeNumber_nonneg (table : list EpisodeRegex) (f : jsstring) (n : Z) :
  matchEpisodeNumber table f = Some n -> (0 <= n)%Z.
Proof.
  induction table as [|r table IH]; simpl; [discriminate|].
  destruct (String_match (regex r) f); [|exact IH].
  intros [= <-]. apply parseInt_nonneg.
Qed.

Lemma generateEpisodeFileName_canonical ext series count e :
  (0 <= airedSeason e)%Z -> (0 <= airedEpisodeNumber e)%Z ->
  generateEpisodeFileName ext series (airedSeason e) (episodeName e)
                          (airedEpisodeNumber e) count
  = sanitize (canonicalName series (airedSeason e) count e ext).
Proof.
  intros Hs Hn. unfold generateEpisodeFileName, canonicalName.
  rewrite (twoZero_zeroPadded _ Hs), (generateEpisodeNumber_zeroPadded _ count Hn).
  reflexivity.
Qed.

Lemma matched_name sn sf snum f eps force n e :
  fileIsVideo f = true ->
  resolvedNumber f force = Some n ->
  Array_find (hasNumber n) eps = Some e ->
  (0 <= airedSeason e)%Z -> (0 <= n)%Z ->
  let m := generateEpisodeName sn sf snum f eps force in
  let count := Z.of_nat (List.length eps) in
  name m = sanitize (canonicalName sn (airedSeason e) count e
                                   (toLowerCase (Path.extname f)))
  /\ updatedPath (value m) = Path.join sf (name m)
  /\ episode (value m) = Some e
  /\ episodeNumber (value m)
     = Some (zeroPadded (if (count <? 100)%Z then 2 else 3) n).
Proof.
  intros Hv Hn He Hs Hn0 m count. subst m.
  rewrite (generateEpisodeName_matched sn sf snum f eps force n e Hv Hn He).
  cbn [name value updatedPath episode episodeNumber].
  destruct (find_some_number _ _ _ He) as [_ En].
  rewrite generateEpisodeFileName_canonical by lia.
  rewrite (generateEpisodeNumber_zeroPadded n _ Hn0).
  repeat split.
Qed.

Lemma built_name fs sf season sd m e :
  (0 <= season)%Z ->
  In m (generateEpisodeNamesForSeason fs sf season sd) ->
  episode (value m) = Some e ->
  exists f,
    In f (getFileNames fs sf)
    /\ In e (episodes sd) /\ airedSeason e = season
    /\ matchEpisodeNumber episodeRegexes f = Some (airedEpisodeNumber e)
    /\ originalPath (value m) = Path.join sf f
    /\ name m
       = sanitize (canonicalName (seriesName sd) season
                     (Z.of_nat (List.length (episodesOfSeason sd season))) e
                     (toLowerCase (Path.extname f)))
    /\ updatedPath (value m) = Path.join sf (name m).
Proof.
  intros Hseason Hin He.
  apply Array_sort_In in Hin. unfold seasonFileMappings in Hin.
  apply in_map_iff in Hin as (f & Hm & Hf). exists f.
  destruct (generateEpisodeName_cases (seriesName sd) sf season f
              (episodesOfSeason sd season) None) as [Hu | (n & e' & Hv & Hn & Hfind)].
  - rewrite Hu in Hm. subst m. discriminate.
  - destruct (find_some_number _ _ _ Hfind) as [Hin' En].
    apply filter_In in Hin' as [Hin' Hs]. apply Z.eqb_eq in Hs.
    assert (Hn0 : (0 <= n)%Z) by (apply (matchEpisodeNumber_nonneg _ _ _ Hn)).
    pose proof (matched_name (seriesName sd) sf season f _ None n e' Hv Hn Hfind
                  ltac:(lia) Hn0) as Hname.
    cbv zeta in Hname. rewrite Hm in Hname.
    destruct Hname as (Hname & Hupd & Hep & _).
    assert (e' = e) by congruence. subst e'.
    rewrite Hs in Hname.
    split; [exact Hf|]. split; [exact Hin'|]. split; [exact Hs|].
    split; [rewrite En; exact Hn|].
    split; [|split; [exact Hname | exact Hupd]].
    rewrite <- Hm.
    rewrite (generateEpisodeName_matched _ sf season f _ None n e Hv Hn Hfind).
    reflexivity.
Qed.

End ProposedName.

(** C5. The ordinal label is the episode number zero-padded to 2
    digits when the season has fewer than 100 episodes and to 3 digits
    otherwise, so that [generateEpisodeNumber(7, 45)] is ["07"] and
    [generateEpisodeNumber(7, 150)] is ["007"]; and for a video file
    matched to an episode, the proposed file name is the sanitized
    [<series>.S<season, 2 digits>E<ordinal>.<title><extension>], the
    extension being the one of the file in lower case.  The last part
    states it for every matched entry the builder returns for a season
    folder. *)
Theorem C5_proposed_file_name :
  generateEpisodeNumber 7 45 = lit "07"
  /\ generateEpisodeNumber 7 150 = lit "007"
  /\ (forall n count,
        (0 <= n)%Z ->
        generateEpisodeNumber n count
        = zeroPadded (if (count <? 100)%Z then 2 else 3) n)
  /\ (forall sn sf snum f eps force n e,
        fileIsVideo f = true ->
        resolvedNumber f force = Some n ->
        Array_find (hasNumber n) eps = Some e ->
        (0 <= airedSeason e)%Z -> (0 <= n)%Z ->
        let m := generateEpisodeName sn sf snum f eps force in
        let count := Z.of_nat (List.length eps) in
        name m = sanitize (canonicalName sn (airedSeason e) count e
                                         (toLowerCase (Path.extname f)))
        /\ updatedPath (value m) = Path.join sf (name m)
        /\ episode (value m) = Some e
        /\ episodeNumber (value m)
           = Some (zeroPadded (if (count <? 100)%Z then 2 else 3) n))
  /\ (forall fs sf season sd m e,
        (0 <= season)%Z ->
        In m (generateEpisodeNamesForSeason fs sf season sd) ->
        episode (value m) = Some e ->
        exists f,
          In f (getFileNames fs sf)
          /\ In e (episodes sd) /\ airedSeason e = season
          /\ matchEpisodeNumber episodeRegexes f = Some (airedEpisodeNumber e)
          /\ originalPath (value m) = Path.join sf f
          /\ name m
             = sanitize (canonicalName (seriesName sd) season
                           (Z.of_nat (List.length (episodesOfSeason sd season))) e
                           (toLowerCase (Path.extname f)))
          /\ updatedPath (value m) = Path.join sf (name m)).
Proof.
  split; [reflexivity|].
  split; [reflexivity|].
  split; [exact generateEpisodeNumber_zeroPadded|].
  split; [exact matched_name | exact built_name].
Qed.

(** ** Paths *)

Section PathFacts.

Import Path.

Lemma split_nonempty (sep : char) (s : jsstring) : split sep s <> [].
Proof.
  destruct s as [|c s]; simpl; [discriminate|].
  destruct (c =? sep)%N; [discriminate|].
  destruct (split sep s); discriminate.
Qed.

Lemma split_plain (a : jsstring) : ~ In c_slash a -> split c_slash a = [a].
Proof.
  induction a as [|c a IH]; intros H; simpl; [reflexivity|].
  destruct (c =? c_slash)%N eqn:E.
  - apply N.eqb_eq in E. exfalso; apply H; left; auto.
  - rewrite IH; [reflexivity|]. intros Hin; apply H; right; exact Hin.
Qed.

Lemma split_snoc (p a : jsstring) :
  ~ In c_slash a ->
  split c_slash (p ++ c_slash :: a) = split c_slash p ++ [a].
Proof.
  intros Ha. induction p as [|c p IH]; simpl.
  - now rewrite split_plain.
  - destruct (c =? c_slash)%N; rewrite IH; [reflexivity|].
    destruct (split c_slash p) eqn:E; [|reflexivity].
    now apply split_nonempty in E.
Qed.

Lemma intercalate_snoc (sep : jsstring) (l : list jsstring) (a : jsstring) :
  intercalate sep (l ++ [a])
  = match l with
    | [] => a
    | _ :: _ => intercalate sep l ++ sep ++ a
    end.
Proof.
  induction l as [|x l IH]; [reflexivity|].
  destruct l as [|y l]; [reflexivity|].
  change (intercalate sep ((x :: y :: l) ++ [a]))
    with (x ++ sep ++ intercalate sep ((y :: l) ++ [a])).
  rewrite IH. change (intercalate sep (x :: y :: l))
    with (x ++ sep ++ intercalate sep (y :: l)).
  now rewrite <- !app_assoc.
Qed.

Lemma normalizeStep_plain (allow : bool) (stack : list jsstring) (a : jsstring) :
  plain a -> normalizeStep allow stack a = a :: stack.
Proof.
  intros (H0 & H1 & H2 & _). unfold normalizeStep.
  apply str_eqb_neq in H0, H1, H2. now rewrite H0, H1, H2.
Qed.

Lemma last_app_cons (l : jsstring) (x : char) (l' : jsstring) (d : char) :
  last (l ++ x :: l') d = last (x :: l') d.
Proof.
  induction l as [|y l IH]; [reflexivity|].
  rewrite <- IH.
  change ((y :: l) ++ x :: l') with (y :: (l ++ x :: l')).
  destruct (l ++ x :: l') eqn:E; [now destruct l | reflexivity].
Qed.

Lemma last_In (x : char) (l : jsstring) (d : char) : In (last (x :: l) d) (x :: l).
Proof.
  revert x; induction l as [|y l IH]; intros x; [left; reflexivity|].
  right. apply IH.
Qed.

Lemma normalize_plain (a : jsstring) : plain a -> normalize a = a.
Proof.
  intros Ha. pose proof Ha as (H0 & _ & _ & Hs).
  destruct a as [|c a]; [congruence|].
  unfold normalize, normalizeString.
  rewrite (split_plain _ Hs). cbn [fold_left].
  rewrite (normalizeStep_plain _ _ _ Ha). cbn [rev app intercalate].
  assert (E1 : (c =? c_slash)%N = false).
  { apply N.eqb_neq. intros ->. apply Hs; left; reflexivity. }
  assert (E2 : (last (c :: a) 0%N =? c_slash)%N = false).
  { apply N.eqb_neq. intros E. apply Hs. rewrite <- E. apply last_In. }
  rewrite E1, E2. cbn [app]. now rewrite app_nil_r.
Qed.

Lemma join_plain (dir a : jsstring) :
  plain a -> join dir a = joinPrefix dir ++ a.
Proof.
  intros Ha. pose proof Ha as (H0 & _ & _ & Hs).
  destruct a as [|x a]; [congruence|].
  destruct dir as [|c dir].
  - cbn [join joinPrefix app]. now apply normalize_plain.
  - cbn [join joinPrefix].
    change (lit "/" ++ x :: a) with (c_slash :: x :: a).
    unfold normalize.
    change ((c :: dir) ++ c_slash :: x :: a)
      with (c :: (dir ++ c_slash :: x :: a)).
    cbv zeta.
    assert (EL : last (c :: dir ++ c_slash :: x :: a) 0%N = last (x :: a) 0%N).
    { change (c :: dir ++ c_slash :: x :: a)
        with ((c :: dir) ++ c_slash :: x :: a).
      now rewrite (last_app_cons (c :: dir) c_slash (x :: a)). }
    rewrite EL.
    assert (E2 : (last (x :: a) 0%N =? c_slash)%N = false).
    { apply N.eqb_neq. intros E. apply Hs. rewrite <- E. apply last_In. }
    rewrite E2. unfold normalizeString.
    change (c :: dir ++ c_slash :: x :: a) with ((c :: dir) ++ c_slash :: x :: a).
    rewrite (split_snoc _ _ Hs), fold_left_app. cbn [fold_left].
    rewrite (normalizeStep_plain _ _ _ Ha). cbn [rev].
    set (st := rev (fold_left (normalizeStep (negb (c =? c_slash)%N))
                              (split c_slash (c :: dir)) [])).
    rewrite intercalate_snoc.
    destruct st as [|seg segs].
    + cbn [app]. destruct (c =? c_slash)%N; cbn [app]; now rewrite ?app_nil_r.
    + set (body := intercalate (lit "/") (seg :: segs)).
      destruct (body ++ lit "/" ++ x :: a) eqn:E.
      * apply app_eq_nil in E as [_ E]. discriminate.
      * rewrite <- E. rewrite app_nil_r. now rewrite <- !app_assoc.
Qed.

Lemma join_plain_inj (dir a b : jsstring) :
  plain a -> plain b -> join dir a = join dir b -> a = b.
Proof.
  intros Ha Hb. rewrite (join_plain dir a Ha), (join_plain dir b Hb).
  apply app_inv_head.
Qed.

Lemma basename_no_slash (path : jsstring) : ~ In c_slash (basename path).
Proof.
  unfold basename. rewrite <- in_rev.
  set (r := dropWhile _ _). clearbody r.
  intros H.
  pose proof (takeWhile_all notSlash r) as Hall.
  rewrite Forall_forall in Hall. specialize (Hall _ H).
  unfold notSlash in Hall. now rewrite N.eqb_refl in Hall.
Qed.

End PathFacts.

(** ** The rename flag *)

Section RenameFlag.

(** The code units of a string outside the pattern survive a
    replacement. *)
Lemma replace_from_keeps (pat rep : jsstring) (c : char) (s : jsstring) :
  ~ In c pat ->
  forall skip,
    Forall (fun x => In x pat) (firstn skip s) ->
    In c s -> In c (replace_from pat rep skip s).
Proof.
  intros Hc. induction s as [|x s IH]; intros skip Hskip Hin; [contradiction|].
  destruct skip as [|k]; cbn [replace_from].
  - destruct pat as [|p pat'].
    + destruct Hin as [-> | Hin]; [left; reflexivity | right].
      apply IH; [constructor | exact Hin].
    + destruct (startsWith (x :: s) (p :: pat')) eqn:E.
      * apply in_or_app; right.
        apply startsWith_prefix in E as [rest E].
        injection E as -> ->.
        destruct Hin as [-> | Hin]; [exfalso; apply Hc; left; reflexivity|].
        apply IH; [|exact Hin].
        rewrite firstn_app, Nat.sub_diag, firstn_all. cbn [firstn].
        rewrite app_nil_r. apply Forall_forall. intros y Hy. right; exact Hy.
      * destruct Hin as [-> | Hin]; [left; reflexivity | right].
        apply IH; [constructor | exact Hin].
  - cbn [firstn] in Hskip. inversion Hskip as [|? ? Hx Hrest]; subst.
    destruct Hin as [-> | Hin]; [contradiction|].
    apply IH; assumption.
Qed.

Lemma applyReplaces_keeps (c : char) (table : list EpisodeReplace) :
  forallb (fun r => negb (mem c (pattern r))) table = true ->
  forall s, In c s -> In c (applyReplaces table s).
Proof.
  induction table as [|r table IH]; intros Ht s Hs; [exact Hs|].
  simpl in Ht. apply andb_true_iff in Ht as [Hr Ht].
  apply negb_true_iff, mem_false in Hr.
  cbn [applyReplaces fold_left]. fold (applyReplaces table).
  apply (IH Ht). unfold replace_all.
  apply replace_from_keeps; [exact Hr | constructor | exact Hs].
Qed.

Lemma generateEpisodeFileName_plain ext series season title number count :
  plain (generateEpisodeFileName ext series season title number count).
Proof.
  unfold generateEpisodeFileName.
  set (t := series ++ _).
  assert (HS : In 83%N (sanitize t)).
  { apply applyReplaces_keeps; [reflexivity|].
    subst t. apply in_or_app; right. right; left; reflexivity. }
  repeat split.
  - intros E; rewrite E in HS; exact HS.
  - intros E; rewrite E in HS. simpl in HS. intuition discriminate.
  - intros E; rewrite E in HS. simpl in HS. intuition discriminate.
  - apply sanitize_clean. unfold sanitizedAway. simpl. tauto.
Qed.

Lemma video_plain (f : jsstring) :
  fileIsVideo f = true -> ~ In c_slash f -> plain f.
Proof.
  intros Hv Hs. repeat split; try exact Hs; intros ->; discriminate.
Qed.

Lemma unchanged_renameFlagOk sf snum f :
  renameFlagOk (unchangedEpisodeMapping sf snum f).
Proof.
  unfold renameFlagOk; simpl. split; [discriminate | congruence].
Qed.

Lemma generateEpisodeName_renameFlagOk sn sf snum f eps force :
  ~ In c_slash f ->
  renameFlagOk (generateEpisodeName sn sf snum f eps force).
Proof.
  intros Hs.
  destruct (generateEpisodeName_cases sn sf snum f eps force)
    as [-> | (n & e & Hv & Hn & He)]; [apply unchanged_renameFlagOk|].
  rewrite (generateEpisodeName_matched sn sf snum f eps force n e Hv Hn He).
  unfold renameFlagOk. cbn [value rename originalPath updatedPath].
  rewrite negb_true_iff, str_eqb_neq.
  split.
  - intros Hne Hj. apply Hne.
    apply (join_plain_inj sf); [now apply video_plain | | exact Hj].
    apply generateEpisodeFileName_plain.
  - intros Hj E. apply Hj. now rewrite <- E.
Qed.

Lemma obj_get_In (k : Z) (o : SeasonMapping) (v : SeasonEntry) :
  obj_get k o = Some v -> In (k, v) o.
Proof.
  induction o as [|[k' v'] o IH]; simpl; [discriminate|].
  destruct (k =? k')%Z eqn:E.
  - apply Z.eqb_eq in E. intros [= ->]. left; congruence.
  - intros H; right; auto.
Qed.

Lemma obj_set_In (k : Z) (v : SeasonEntry) (o : SeasonMapping) (kv : Z * SeasonEntry) :
  In kv (obj_set k v o) -> kv = (k, v) \/ In kv o.
Proof.
  induction o as [|[k' v'] o IH]; cbn [obj_set In].
  - intros [<- | []]; auto.
  - destruct (k =? k')%Z;
      [|destruct (isArrayIndex k && (negb (isArrayIndex k') || (k <? k')%Z))];
      cbn [In].
    + intros [<- | H]; auto.
    + intros [<- | [<- | H]]; auto.
    + intros [<- | H]; auto. destruct (IH H); auto.
Qed.

Lemma assignEpisode_preserves (P : EpisodeMapping -> Prop)
      series em selected renames renames' :
  (forall sn sf snum eps force,
      P (generateEpisodeName sn sf snum
           (Path.basename (originalPath (value em))) eps force)) ->
  assignEpisode series em selected renames = Some renames' ->
  allMappings P renames -> allMappings P renames'.
Proof.
  intros Hgen Ha Hall k entry m Hin Hm.
  unfold assignEpisode in Ha.
  destruct (obj_get _ renames) as [sm|] eqn:Hget; [|discriminate].
  injection Ha as <-.
  apply obj_set_In in Hin as [E | Hin]; [|exact (Hall _ _ _ Hin Hm)].
  injection E as -> ->. cbn [episodeMappings] in Hm.
  unfold replaceAssigned in Hm.
  apply Array_sort_In, in_map_iff in Hm as (m0 & Hm0 & Hin0).
  destruct (str_eqb (name m0) (name em)).
  - subst m. apply Hgen.
  - subst m0. exact (Hall _ _ _ (obj_get_In _ _ _ Hget) Hin0).
Qed.

End RenameFlag.

(** C7. Every mapping that [generateEpisodeName] makes for a file name
    without a separator has its rename flag set exactly when its
    original path differs from its proposed path; so has every mapping
    the builder returns for a season folder, and manual reassignment
    keeps the property over the whole structure. *)
Theorem C7_rename_flag_iff_paths_differ :
  (forall sn sf snum f eps force,
      ~ In c_slash f ->
      renameFlagOk (generateEpisodeName sn sf snum f eps force))
  /\ (forall fs sf season sd m,
         (forall f, In f (getFileNames fs sf) -> ~ In c_slash f) ->
         In m (generateEpisodeNamesForSeason fs sf season sd) ->
         renameFlagOk m)
  /\ (forall series em selected renames renames',
         assignEpisode series em selected renames = Some renames' ->
         allMappings renameFlagOk renames ->
         allMappings renameFlagOk renames').
Proof.
  split; [exact generateEpisodeName_renameFlagOk|].
  split.
  - intros fs sf season sd m Hfiles Hin.
    apply Array_sort_In in Hin. unfold seasonFileMappings in Hin.
    apply in_map_iff in Hin as (f & <- & Hf).
    apply generateEpisodeName_renameFlagOk, Hfiles, Hf.
  - intros series em selected renames renames' Ha.
    apply (assignEpisode_preserves renameFlagOk series em selected); [|exact Ha].
    intros. apply generateEpisodeName_renameFlagOk, basename_no_slash.
Qed.

(** ** The order of a season's mappings *)

Section SeasonOrder.

Lemma sortEpisodeMappings_le (m1 m2 : EpisodeMapping) :
  (sortEpisodeMappings m1 m2 <=? 0)%Z = true <-> before m1 m2.
Proof.
  unfold sortEpisodeMappings, before. fold (episodeKey m1) (episodeKey m2).
  rewrite Z.leb_le.
  destruct (episodeKey m1) as [a|], (episodeKey m2) as [b|]; simpl; try lia.
  destruct (a =? b)%Z eqn:E; [apply Z.eqb_eq in E | apply Z.eqb_neq in E]; lia.
Qed.

Lemma sortEpisodeMappings_same (k : option Z) (m1 m2 : EpisodeMapping) :
  sameKey k m1 = true -> sameKey k m2 = true ->
  (sortEpisodeMappings m1 m2 <=? 0)%Z = true.
Proof.
  unfold sameKey, sortEpisodeMappings. fold (episodeKey m1) (episodeKey m2).
  destruct (episodeKey m1) as [a|], (episodeKey m2) as [b|], k as [c|];
    simpl; try discriminate; try reflexivity.
  intros Ha Hb. apply Z.eqb_eq in Ha, Hb. subst.
  now rewrite Z.eqb_refl.
Qed.

Lemma before_total (m1 m2 : EpisodeMapping) : before m1 m2 \/ before m2 m1.
Proof.
  unfold before. destruct (episodeKey m1), (episodeKey m2); simpl; auto; lia.
Qed.

Lemma before_trans (m1 m2 m3 : EpisodeMapping) :
  before m1 m2 -> before m2 m3 -> before m1 m3.
Proof.
  unfold before.
  destruct (episodeKey m1), (episodeKey m2), (episodeKey m3); simpl;
    auto; try lia; contradiction.
Qed.

Lemma sort_insert_sorted (x : EpisodeMapping) (l : list EpisodeMapping) :
  StronglySorted before l ->
  StronglySorted before (sort_insert sortEpisodeMappings x l).
Proof.
  induction 1 as [|y l Hs IH Hy]; simpl.
  - repeat constructor.
  - destruct (sortEpisodeMappings x y <=? 0)%Z eqn:E.
    + apply sortEpisodeMappings_le in E.
      constructor; [now constructor|].
      constructor; [exact E|].
      eapply Forall_impl; [|exact Hy]. intros z Hz.
      exact (before_trans _ _ _ E Hz).
    + constructor; [exact IH|].
      assert (Hyx : before y x).
      { destruct (before_total x y) as [H | H]; [|exact H].
        apply sortEpisodeMappings_le in H. congruence. }
      apply Forall_forall. intros z Hz.
      apply (Permutation_in _ (sort_insert_perm sortEpisodeMappings x l)) in Hz.
      destruct Hz as [<- | Hz]; [exact Hyx|].
      rewrite Forall_forall in Hy. now apply Hy.
Qed.

Lemma Array_sort_sorted (l : list EpisodeMapping) :
  StronglySorted before (Array_sort sortEpisodeMappings l).
Proof.
  induction l as [|x l IH]; simpl; [constructor|].
  now apply sort_insert_sorted.
Qed.

(** Stability: entries with the same key keep their order. *)
Lemma sort_insert_stable (k : option Z) (x : EpisodeMapping) (l : list EpisodeMapping) :
  filter (sameKey k) (sort_insert sortEpisodeMappings x l)
  = filter (sameKey k) (x :: l).
Proof.
  induction l as [|y l IH]; [reflexivity|].
  cbn [sort_insert].
  destruct (sortEpisodeMappings x y <=? 0)%Z eqn:E; [reflexivity|].
  cbn [filter] in *. rewrite IH.
  destruct (sameKey k x) eqn:Hx; [|reflexivity].
  destruct (sameKey k y) eqn:Hy; [|reflexivity].
  rewrite (sortEpisodeMappings_same k x y Hx Hy) in E. discriminate.
Qed.

Lemma Array_sort_stable (k : option Z) (l : list EpisodeMapping) :
  filter (sameKey k) (Array_sort sortEpisodeMappings l) = filter (sameKey k) l.
Proof.
  induction l as [|x l IH]; [reflexivity|].
  cbn [Array_sort]. rewrite sort_insert_stable. cbn [filter].
  now rewrite IH.
Qed.

Lemma matchedNumbers_In (n : Z) (l : list EpisodeMapping) :
  In n (matchedNumbers l) -> exists m, In m l /\ episodeKey m = Some n.
Proof.
  induction l as [|m l IH]; simpl; [contradiction|].
  destruct (episodeKey m) as [k|] eqn:E.
  - intros [<- | H]; [exists m; auto|].
    destruct (IH H) as (m' & ? & ?); exists m'; auto.
  - intros H. destruct (IH H) as (m' & ? & ?); exists m'; auto.
Qed.

(** A sorted list is its matched entries, by ascending number,
    followed by its unmatched entries. *)
Lemma sorted_split (l : list EpisodeMapping) :
  StronglySorted before l ->
  l = filter isMatched l ++ filter (sameKey None) l
  /\ StronglySorted Z.le (matchedNumbers l).
Proof.
  induction 1 as [|x l Hs [IHl IHn] Hx]; [split; [reflexivity | constructor]|].
  cbn [filter matchedNumbers]. unfold isMatched at 1, sameKey at 1, episodeKey at 1 2.
  destruct (episode (value x)) as [e|] eqn:Ex; cbn [option_map optZ_eqb].
  - split; [cbn [app]; f_equal; exact IHl|].
    constructor; [exact IHn|].
    apply Forall_forall. intros n Hn.
    destruct (matchedNumbers_In _ _ Hn) as (m & Hm & Hk).
    rewrite Forall_forall in Hx. specialize (Hx _ Hm).
    unfold before, episodeKey at 1 in Hx. rewrite Ex, Hk in Hx. exact Hx.
  - assert (Hall : Forall (fun m => episode (value m) = None) l).
    { eapply Forall_impl; [|exact Hx]. intros m Hm.
      unfold before, episodeKey in Hm. rewrite Ex in Hm. cbn [option_map] in Hm.
      destruct (episode (value m)); [contradiction | reflexivity]. }
    assert (E1 : filter isMatched l = []).
    { clear -Hall. induction Hall as [|m l Hm _ IH]; [reflexivity|].
      cbn [filter]. unfold isMatched at 1. now rewrite Hm. }
    assert (E2 : filter (sameKey None) l = l).
    { clear -Hall. induction Hall as [|m l Hm _ IH]; [reflexivity|].
      cbn [filter]. unfold sameKey at 1, episodeKey. rewrite Hm. cbn.
      now rewrite IH. }
    rewrite E1, E2. split; [reflexivity | exact IHn].
Qed.

Lemma matchedNumbers_app (l1 l2 : list EpisodeMapping) :
  matchedNumbers (l1 ++ l2) = matchedNumbers l1 ++ matchedNumbers l2.
Proof.
  induction l1 as [|m l1 IH]; [reflexivity|].
  simpl. destruct (episodeKey m); simpl; now rewrite IH.
Qed.

Lemma matchedNumbers_unmatched (l : list EpisodeMapping) :
  matchedNumbers (filter (sameKey None) l) = [].
Proof.
  induction l as [|m l IH]; [reflexivity|].
  cbn [filter]. unfold sameKey at 1.
  destruct (episodeKey m) eqn:E; cbn [optZ_eqb]; [exact IH|].
  cbn [matchedNumbers]. now rewrite E.
Qed.

Lemma sameKey_None_unmatched (l : list EpisodeMapping) :
  filter (sameKey None) l = filter (fun m => negb (isMatched m)) l.
Proof.
  apply filter_ext. intros m. unfold sameKey, episodeKey, isMatched.
  now destruct (episode (value m)).
Qed.

Lemma filter_sameKey_matched (n : Z) (l : list EpisodeMapping) :
  filter (sameKey (Some n)) (filter isMatched l) = filter (sameKey (Some n)) l.
Proof.
  induction l as [|m l IH]; [reflexivity|].
  cbn [filter]. unfold isMatched at 1, sameKey at 2, episodeKey.
  destruct (episode (value m)) eqn:E; cbn [filter option_map optZ_eqb].
  - unfold sameKey at 1, episodeKey. rewrite E. cbn [option_map].
    now rewrite IH.
  - exact IH.
Qed.

Lemma Array_sort_seasonOrder (l : list EpisodeMapping) :
  seasonOrder l (Array_sort sortEpisodeMappings l).
Proof.
  set (out := Array_sort sortEpisodeMappings l).
  destruct (sorted_split out (Array_sort_sorted l)) as [Hsplit Hnum].
  exists (filter isMatched out), (filter (sameKey None) out).
  split; [exact Hsplit|].
  split.
  { apply Forall_forall. intros m Hm. apply filter_In in Hm as [_ Hm].
    unfold isMatched in Hm. destruct (episode (value m)); congruence. }
  split.
  { apply Forall_forall. intros m Hm. apply filter_In in Hm as [_ Hm].
    unfold sameKey, episodeKey in Hm.
    destruct (episode (value m)); [discriminate | reflexivity]. }
  split.
  { rewrite Hsplit, matchedNumbers_app, matchedNumbers_unmatched, app_nil_r in Hnum.
    exact Hnum. }
  split.
  { subst out. now rewrite Array_sort_stable, sameKey_None_unmatched. }
  split.
  { intros n. rewrite filter_sameKey_matched. apply Array_sort_stable. }
  apply Array_sort_perm.
Qed.

End SeasonOrder.

Lemma obj_get_set (k : Z) (v : SeasonEntry) (o : SeasonMapping) :
  obj_get k (obj_set k v o) = Some v.
Proof.
  induction o as [|[k' v'] o IH]; cbn [obj_set obj_get];
    [now rewrite Z.eqb_refl|].
  destruct (k =? k')%Z eqn:E; cbn [obj_get]; [now rewrite Z.eqb_refl|].
  destruct (isArrayIndex k && (negb (isArrayIndex k') || (k <? k')%Z));
    cbn [obj_get]; [now rewrite Z.eqb_refl|].
  now rewrite E.
Qed.

(** C2, as the specification states it, fails: two files of a season
    folder that carry the same episode number are both matched to that
    episode, and the sorted list then holds the number twice; the
    matched numbers [1; 1] are not strictly ascending. *)
Lemma C2_same_episode_twice_not_strict :
  matchedNumbers
    (generateEpisodeNamesForSeason twoCopies (lit "Show/Season 1") 1 showSeries)
  = [1; 1]%Z
  /\ ~ StronglySorted Z.lt
       (matchedNumbers
          (generateEpisodeNamesForSeason twoCopies (lit "Show/Season 1") 1
                                         showSeries)).
Proof.
  split; [reflexivity|].
  change (matchedNumbers _) with [1; 1]%Z.
  intros H. inversion H as [|? ? _ H1]; subst.
  inversion H1 as [|? ? Hlt _]; subst. lia.
Qed.

(** C2, amended.  After the builder's sort, and after the sort that
    follows a manual reassignment, a season's list is its matched
    entries followed by its unmatched entries; the matched entries are
    in ascending order of episode number, entries with the same number
    in the order they had before the sort; the unmatched entries are in
    the order they had before the sort.  With episodes 1 and 2 and the
    files [readme.txt], [Show.e02.mkv], [Show.e01.mkv], the list is the
    file of episode 1, the file of episode 2, then [readme.txt]. *)
Theorem C2_season_order :
  (forall fs sf season sd,
      seasonOrder (seasonFileMappings fs sf season sd)
                  (generateEpisodeNamesForSeason fs sf season sd))
  /\ (forall series em selected renames renames',
         assignEpisode series em selected renames = Some renames' ->
         exists old new,
           obj_get (seasonNumber (value em)) renames = Some old
           /\ obj_get (seasonNumber (value em)) renames' = Some new
           /\ seasonOrder
                (replaceAssigned series em selected (episodeMappings old))
                (episodeMappings new))
  /\ map (fun m => originalPath (value m))
         (generateEpisodeNamesForSeason mixedFolder (lit "Show/Season 1") 1
                                        showSeries)
     = [lit "Show/Season 1/Show.e01.mkv"; lit "Show/Season 1/Show.e02.mkv";
        lit "Show/Season 1/readme.txt"].
Proof.
  split; [intros; apply Array_sort_seasonOrder|].
  split; [|reflexivity].
  intros series em selected renames renames' Ha.
  unfold assignEpisode in Ha.
  destruct (obj_get (seasonNumber (value em)) renames) as [old|] eqn:Hget;
    [|discriminate].
  injection Ha as <-.
  eexists old, _. split; [reflexivity|].
  split; [apply obj_get_set|].
  cbn [episodeMappings]. apply Array_sort_seasonOrder.
Qed.

(** C10.  The guard of the move-folder prompt and the choice it
    misses.  The choice of a folder whose path is the folder being
    moved, or a path below it, is disabled; moving [/media/A], the
    choice [A] in [/media] and the choice [B] in [/media/A] are
    disabled.  The choice [..] is put first without the guard: it is
    never disabled.  In [/media/A/B], where the key [m] on the
    highlighted [..] moves [/media/A], the choice [..] leads to the
    moved folder itself and can be selected. *)
Theorem C10_guard_misses_the_parent_choice :
  (forall folders currentDirectory folderToMove folderName,
      In folderName folders ->
      (Path.join currentDirectory folderName = folderToMove
       \/ exists rest,
           Path.join currentDirectory folderName
           = folderToMove ++ lit "/" ++ rest) ->
      let o := moveFolderOption currentDirectory folderToMove folderName in
      In o (moveFolderOptions folders currentDirectory folderToMove)
      /\ opt_value o = folderName
      /\ opt_disabled o = DisabledBecause (lit "(can't move a folder into itself)")
      /\ isDisabled o = true)
  /\ Path.join (lit "/media") (lit "A") = lit "/media/A"
  /\ isDisabled (moveFolderOption (lit "/media") (lit "/media/A") (lit "A")) = true
  /\ Path.join (lit "/media/A") (lit "B") = lit "/media/A/B"
  /\ isDisabled (moveFolderOption (lit "/media/A") (lit "/media/A") (lit "B")) = true
  /\ (forall folders currentDirectory folderToMove,
         exists o,
           moveFolderOptions folders currentDirectory folderToMove
           = o :: map (moveFolderOption currentDirectory folderToMove) folders
           /\ opt_value o = lit ".." /\ isDisabled o = false)
  /\ Path.join (lit "/media/A/B") (lit "..") = lit "/media/A"
  /\ (forall folders,
         exists o rest,
           moveFolderOptions folders (lit "/media/A/B") (lit "/media/A") = o :: rest
           /\ Path.join (lit "/media/A/B") (opt_value o) = lit "/media/A"
           /\ startsWith (Path.join (lit "/media/A/B") (opt_value o))
                         (lit "/media/A") = true
           /\ isDisabled o = false).
Proof.
  split; [|repeat split].
  - intros folders cur mv f Hin Hcase o.
    assert (Hs : startsWith (Path.join cur f) mv = true).
    { apply startsWith_prefix. destruct Hcase as [-> | [rest ->]].
      - exists []. now rewrite app_nil_r.
      - eexists; reflexivity. }
    subst o. unfold moveFolderOptions, moveFolderOption, isDisabled.
    rewrite Hs. cbn [opt_value opt_disabled].
    split; [|repeat split].
    right. apply in_map_iff. exists f. unfold moveFolderOption.
    rewrite Hs. split; [reflexivity | exact Hin].
  - intros folders cur mv. eexists. split; [reflexivity|]. split; reflexivity.
  - intros folders. eexists. eexists. split; [reflexivity|]. repeat split.
Qed.

(** ** Season folders *)

Section SeasonFolders.

(** What [/\d+/] matches is the first run of digits. *)
Lemma String_match_digits_run (s run : jsstring) :
  String_match Digits s = Some run ->
  exists pre rest,
    s = pre ++ run ++ rest /\ noDigit pre /\ run <> []
    /\ allDigits run /\ nondigitHead rest.
Proof.
  induction s as [|c s IH]; cbn [String_match match_here]; [discriminate|].
  destruct (takeWhile isDigit (c :: s)) as [|d ds] eqn:E.
  - intros H. destruct (IH H) as (pre & rest & -> & Hpre & Hne & Hrun & Hrest).
    exists (c :: pre), rest. repeat split; auto.
    constructor; [|exact Hpre].
    simpl in E. destruct (isDigit c); [discriminate | reflexivity].
  - intros [= <-]. exists [], (dropWhile isDigit (c :: s)).
    rewrite <- E. repeat split.
    + symmetry. exact (takeWhile_dropWhile isDigit (c :: s)).
    + constructor.
    + rewrite E; discriminate.
    + apply takeWhile_all.
    + apply dropWhile_head.
Qed.

Lemma filterMap_In {A B} (f : A -> option B) (l : list A) (y : B) :
  In y (filterMap f l) <-> exists x, In x l /\ f x = Some y.
Proof.
  induction l as [|a l IH]; simpl.
  - split; [contradiction | intros (x & [] & _)].
  - destruct (f a) as [b|] eqn:E; simpl; rewrite IH; split.
    + intros [<- | (x & Hx & Hf)]; [exists a; auto | exists x; auto].
    + intros (x & [<- | Hx] & Hf); [left; congruence | right; exists x; auto].
    + intros (x & Hx & Hf); exists x; auto.
    + intros (x & [<- | Hx] & Hf); [congruence | exists x; auto].
Qed.

Lemma obj_get_set_neq (k k' : Z) (v : SeasonEntry) (o : SeasonMapping) :
  k <> k' -> obj_get k (obj_set k' v o) = obj_get k o.
Proof.
  intros Hne. induction o as [|[k0 v0] o IH]; cbn [obj_set obj_get].
  - destruct (k =? k')%Z eqn:E; [apply Z.eqb_eq in E; contradiction | reflexivity].
  - destruct (k' =? k0)%Z eqn:E0;
      [|destruct (isArrayIndex k' && (negb (isArrayIndex k0) || (k' <? k0)%Z))];
      cbn [obj_get].
    + apply Z.eqb_eq in E0; subst k0.
      destruct (k =? k')%Z eqn:E; [apply Z.eqb_eq in E; contradiction | reflexivity].
    + destruct (k =? k')%Z eqn:E; [apply Z.eqb_eq in E; contradiction | reflexivity].
    + now rewrite IH.
Qed.

Lemma obj_get_set_some (k k' : Z) (v : SeasonEntry) (o : SeasonMapping) :
  obj_get k o <> None -> obj_get k (obj_set k' v o) <> None.
Proof.
  intros H. destruct (Z.eq_dec k k') as [-> | Hne].
  - rewrite obj_get_set. discriminate.
  - now rewrite obj_get_set_neq.
Qed.

Context (entryOf : FolderSeasonMatch -> SeasonEntry).

Let collect := fold_left (fun result info => obj_set (season info) (entryOf info) result).

Lemma collect_In (infos : list FolderSeasonMatch) :
  forall init kv,
    In kv (collect infos init) ->
    In kv init \/ exists info, In info infos /\ kv = (season info, entryOf info).
Proof.
  induction infos as [|info infos IH]; intros init kv H; [left; exact H|].
  cbn [collect fold_left] in H. apply IH in H as [H | (i & Hi & ->)].
  - apply obj_set_In in H as [-> | H]; [|left; exact H].
    right; exists info; split; [left; reflexivity | reflexivity].
  - right; exists i; split; [right; exact Hi | reflexivity].
Qed.

Lemma collect_keeps (infos : list FolderSeasonMatch) :
  forall init k, obj_get k init <> None -> obj_get k (collect infos init) <> None.
Proof.
  induction infos as [|info infos IH]; intros init k H; [exact H|].
  cbn [collect fold_left]. apply IH. now apply obj_get_set_some.
Qed.

Lemma collect_has (infos : list FolderSeasonMatch) :
  forall init info,
    In info infos -> obj_get (season info) (collect infos init) <> None.
Proof.
  induction infos as [|i infos IH]; intros init info []; cbn [collect fold_left].
  - subst i. apply collect_keeps. rewrite obj_get_set. discriminate.
  - now apply IH.
Qed.

End SeasonFolders.

Lemma generateEpisodeName_paths sn sf snum f eps force :
  seasonFolder (value (generateEpisodeName sn sf snum f eps force)) = sf
  /\ seasonNumber (value (generateEpisodeName sn sf snum f eps force)) = snum
  /\ originalPath (value (generateEpisodeName sn sf snum f eps force))
     = Path.join sf f.
Proof.
  destruct (generateEpisodeName_cases sn sf snum f eps force)
    as [-> | (n & e & Hv & Hn & He)]; [repeat split|].
  rewrite (generateEpisodeName_matched sn sf snum f eps force n e Hv Hn He).
  repeat split.
Qed.

(** C9. The structure the builder returns has an entry only for a
    subfolder of the series directory whose name has a run of digits:
    the key of the entry is the number of the first run of digits of
    the name.  Every such subfolder finds an entry under its number.
    A subfolder without a digit gives no season, names no entry, and
    every mapping of the structure is the mapping of a file listed in
    a subfolder that has a digit: the files of the other subfolders
    are never mapped. *)
Theorem C9_season_folders :
  forall fs seriesDirectory seriesDetails,
    (forall k entry,
        In (k, entry) (generateEpisodeNames fs seriesDirectory seriesDetails) ->
        exists folder pre run rest,
          In folder (getFolderNames fs seriesDirectory)
          /\ folder = pre ++ run ++ rest
          /\ noDigit pre /\ run <> [] /\ allDigits run /\ nondigitHead rest
          /\ k = parseInt run
          /\ folderName entry = Some folder
          /\ episodeMappings entry
             = generateEpisodeNamesForSeason fs
                 (Path.join seriesDirectory folder) k seriesDetails)
    /\ (forall folder pre run rest,
           In folder (getFolderNames fs seriesDirectory) ->
           folder = pre ++ run ++ rest ->
           noDigit pre -> run <> [] -> allDigits run -> nondigitHead rest ->
           obj_get (parseInt run)
                   (generateEpisodeNames fs seriesDirectory seriesDetails)
           <> None)
    /\ (forall folder,
           In folder (getFolderNames fs seriesDirectory) ->
           noDigit folder ->
           folderSeason folder = None
           /\ forall k entry,
               In (k, entry)
                  (generateEpisodeNames fs seriesDirectory seriesDetails) ->
               folderName entry <> Some folder)
    /\ (forall k entry m,
           In (k, entry) (generateEpisodeNames fs seriesDirectory seriesDetails) ->
           In m (episodeMappings entry) ->
           exists folder f,
             In folder (getFolderNames fs seriesDirectory)
             /\ ~ noDigit folder
             /\ In f (getFileNames fs (Path.join seriesDirectory folder))
             /\ seasonFolder (value m) = Path.join seriesDirectory folder
             /\ seasonNumber (value m) = k
             /\ originalPath (value m)
                = Path.join (Path.join seriesDirectory folder) f).
Proof.
  intros fs dir sd.
  assert (Hentry :
    forall k entry,
      In (k, entry) (generateEpisodeNames fs dir sd) ->
      exists folder pre run rest,
        In folder (getFolderNames fs dir)
        /\ folder = pre ++ run ++ rest
        /\ noDigit pre /\ run <> [] /\ allDigits run /\ nondigitHead rest
        /\ k = parseInt run
        /\ folderName entry = Some folder
        /\ episodeMappings entry
           = generateEpisodeNamesForSeason fs (Path.join dir folder) k sd).
  { intros k entry H. unfold generateEpisodeNames in H.
    apply collect_In in H as [[] | (info & Hinfo & E)].
    apply filterMap_In in Hinfo as (folder & Hfolder & Hfs).
    unfold folderSeason in Hfs.
    destruct (String_match Digits folder) as [run|] eqn:Hm; [|discriminate].
    injection Hfs as <-. injection E as -> ->.
    destruct (String_match_digits_run _ _ Hm)
      as (pre & rest & Hf & Hpre & Hne & Hrun & Hrest).
    exists folder, pre, run, rest. repeat split; auto. }
  assert (Hdigit : forall folder pre run rest,
             folder = pre ++ run ++ rest -> run <> [] -> allDigits run ->
             ~ noDigit folder).
  { intros folder pre run rest -> Hne Hrun Hno.
    apply Forall_app in Hno as [_ Hno]. apply Forall_app in Hno as [Hno _].
    destruct run as [|d run]; [congruence|].
    inversion Hrun; inversion Hno; congruence. }
  split; [exact Hentry|].
  split.
  { intros folder pre run rest Hin Hf Hpre Hne Hrun Hrest.
    unfold generateEpisodeNames.
    pose proof (String_match_digits_first pre run rest Hpre Hne Hrun Hrest) as Hm.
    rewrite <- Hf in Hm.
    apply (collect_has (seasonEntryOf fs dir sd) _ []
             {| fsm_folderName := folder; season := parseInt run |}).
    apply filterMap_In. exists folder. split; [exact Hin|].
    unfold folderSeason. now rewrite Hm. }
  split.
  { intros folder Hin Hno. split.
    - unfold folderSeason. apply String_match_digits_none in Hno. now rewrite Hno.
    - intros k entry H E.
      destruct (Hentry _ _ H)
        as (folder' & pre & run & rest & _ & Hf & _ & Hne & Hrun & _ & _ & E' & _).
      assert (Efolder : folder' = folder) by congruence.
      rewrite Efolder in Hf.
      exact (Hdigit _ _ _ _ Hf Hne Hrun Hno). }
  intros k entry m H Hm.
  destruct (Hentry _ _ H)
    as (folder & pre & run & rest & Hin & Hf & _ & Hne & Hrun & _ & _ & _ & Hmaps).
  rewrite Hmaps in Hm. apply Array_sort_In in Hm.
  unfold seasonFileMappings in Hm. apply in_map_iff in Hm as (f & <- & Hfile).
  exists folder, f.
  destruct (generateEpisodeName_paths (seriesName sd) (Path.join dir folder) k f
              (episodesOfSeason sd k) None) as (E1 & E2 & E3).
  repeat split; auto. exact (Hdigit _ _ _ _ Hf Hne Hrun).
Qed.

(** ** The batch rename executor *)

Section Executor.

Variable fs : FileSystem.

Lemma isFulfilled_settledOf (b : bool) : isFulfilled (settledOf b) = b.
Proof. now destruct b. Qed.

Lemma renameOne_flagged (st : RenameState) (m : EpisodeMapping) :
  rename (value m) = true ->
  renameOne fs st m
  = ({| renamedFileCount := renamedFileCount st + 1;
        issued := issued st ++ [(originalPath (value m), updatedPath (value m))] |},
     settledOf (fsRename fs (originalPath (value m)) (updatedPath (value m)))).
Proof. unfold renameOne. now intros ->. Qed.

Lemma renameOne_unflagged (st : RenameState) (m : EpisodeMapping) :
  rename (value m) = false -> renameOne fs st m = (st, Fulfilled).
Proof. unfold renameOne. now intros ->. Qed.

Lemma mapS_renameOne (mappings : list EpisodeMapping) :
  forall st,
    renamedFileCount (fst (mapS (renameOne fs) st mappings))
    = (renamedFileCount st + Z.of_nat (List.length (callsOf mappings)))%Z
    /\ issued (fst (mapS (renameOne fs) st mappings))
       = issued st ++ callsOf mappings
    /\ forallb isFulfilled (snd (mapS (renameOne fs) st mappings))
       = forallb (succeeds fs) (callsOf mappings).
Proof.
  induction mappings as [|m mappings IH]; intros st.
  - simpl. rewrite app_nil_r. repeat split; lia.
  - cbn [mapS]. unfold callsOf. cbn [filter]. fold (callsOf mappings).
    destruct (rename (value m)) eqn:Hr.
    + rewrite (renameOne_flagged st m Hr).
      match goal with
      | |- context [mapS (renameOne fs) ?st' mappings] =>
          destruct (IH st') as (Hc & Hi & Ho);
          destruct (mapS (renameOne fs) st' mappings) as [st2 outs]
      end.
      cbn [fst snd renamedFileCount issued] in *.
      cbn [map List.length forallb]. fold (callsOf mappings).
      rewrite Hc, Hi, Ho, isFulfilled_settledOf, <- app_assoc.
      unfold succeeds at 1. cbn [fst snd app].
      repeat split; lia.
    + rewrite (renameOne_unflagged st m Hr).
      destruct (IH st) as (Hc & Hi & Ho).
      destruct (mapS (renameOne fs) st mappings) as [st2 outs].
      cbn [fst snd forallb isFulfilled] in *.
      repeat split; assumption.
Qed.

Lemma renameSeason_eq (st : RenameState) (season : SeasonEntry) :
  renameSeason fs st season
  = (fst (mapS (renameOne fs) st (episodeMappings season)),
     Promise_all (snd (mapS (renameOne fs) st (episodeMappings season)))).
Proof.
  unfold renameSeason.
  now destruct (mapS (renameOne fs) st (episodeMappings season)).
Qed.

Lemma mapS_renameSeason (seasons : list SeasonEntry) :
  forall st,
    let calls := flat_map (fun season => callsOf (episodeMappings season)) seasons in
    renamedFileCount (fst (mapS (renameSeason fs) st seasons))
    = (renamedFileCount st + Z.of_nat (List.length calls))%Z
    /\ issued (fst (mapS (renameSeason fs) st seasons)) = issued st ++ calls
    /\ forallb isFulfilled (snd (mapS (renameSeason fs) st seasons))
       = forallb (succeeds fs) calls.
Proof.
  induction seasons as [|season seasons IH]; intros st calls; subst calls.
  - simpl. rewrite app_nil_r. repeat split; lia.
  - cbn [mapS flat_map]. rewrite (renameSeason_eq st season).
    destruct (mapS_renameOne (episodeMappings season) st) as (Hc1 & Hi1 & Ho1).
    destruct (mapS (renameOne fs) st (episodeMappings season)) as [st1 outs1].
    cbn [fst snd] in *.
    destruct (IH st1) as (Hc & Hi & Ho).
    destruct (mapS (renameSeason fs) st1 seasons) as [st2 outs].
    cbn [fst snd forallb] in *.
    unfold Promise_all. rewrite isFulfilled_settledOf.
    rewrite Hc, Hi, Ho, Hc1, Hi1, Ho1, forallb_app, length_app, <- app_assoc.
    repeat split; lia.
Qed.

End Executor.

(** C1, as the specification states it, fails: when one rename of the
    batch is rejected, the executor writes nothing to the console,
    neither the failure nor the count of renamed files, and its own
    promise is rejected; the other rename of the batch has been
    started all the same. *)
Lemma C1_failed_rename_reports_nothing :
  fsRename firstRenameFails (lit "Show/Season 1/Show.e01.mkv")
           (lit "Show/Season 1/Show.S01E01.Pilot.mkv") = false
  /\ run_console (renameEpisodes firstRenameFails builtRenames) = []
  /\ run_settled (renameEpisodes firstRenameFails builtRenames) = Rejected
  /\ run_issued (renameEpisodes firstRenameFails builtRenames)
     = [(lit "Show/Season 1/Show.e01.mkv",
         lit "Show/Season 1/Show.S01E01.Pilot.mkv");
        (lit "Show/Season 1/Show.e02.mkv",
         lit "Show/Season 1/Show.S01E02.Second.mkv")]
  /\ ~ (exists line,
          In line (run_console (renameEpisodes firstRenameFails builtRenames))).
Proof.
  repeat split. intros [line []].
Qed.

(** C1, amended.  The executor starts the rename of every mapping
    whose rename flag is set, season by season, whatever the outcome
    of the other renames, and never undoes one (best effort, no
    rollback).  When every rename succeeds it reports the number of
    files it renamed; when one fails its promise is rejected and it
    writes nothing to the console. *)
Theorem C1_batch_rename_best_effort :
  forall fs episodeRenames,
    run_issued (renameEpisodes fs episodeRenames) = allCalls episodeRenames
    /\ (forallb (succeeds fs) (allCalls episodeRenames) = true ->
        run_settled (renameEpisodes fs episodeRenames) = Fulfilled
        /\ run_console (renameEpisodes fs episodeRenames)
           = [lit "renamed "
              ++ Number_toString (Z.of_nat (List.length (allCalls episodeRenames)))
              ++ lit " files"])
    /\ (forallb (succeeds fs) (allCalls episodeRenames) = false ->
        run_settled (renameEpisodes fs episodeRenames) = Rejected
        /\ run_console (renameEpisodes fs episodeRenames) = []).
Proof.
  intros fs episodeRenames. unfold renameEpisodes, allCalls.
  destruct (mapS_renameSeason fs (Object_values episodeRenames)
              {| renamedFileCount := 0; issued := [] |}) as (Hc & Hi & Ho).
  destruct (mapS (renameSeason fs) _ (Object_values episodeRenames)) as [st outs].
  cbn [fst snd renamedFileCount issued app] in *.
  unfold Promise_all. rewrite Ho.
  destruct (forallb (succeeds fs) _);
    cbn [settledOf run_issued run_settled run_console].
  - rewrite Hi, Hc. repeat split; discriminate.
  - rewrite Hi. repeat split; discriminate.
Qed.

(** ** Cancellation in the series pipeline *)

Section Cancellation.

Import Workflow.

Variable generated : SeasonMapping.
Variable seriesFound : bool.

Lemma cancel_series_language (k : KeyName) (renames : option SeasonMapping) :
  k <> other ->
  cancel generated seriesFound k (at_ SeriesLanguage renames)
  = at_ FolderSelection renames.
Proof. destruct k; [reflexivity | reflexivity | congruence]. Qed.

Lemma cancel_series_suggestions (k : KeyName) (renames : option SeasonMapping) :
  k <> other ->
  cancel generated seriesFound k (at_ SeriesSuggestions renames)
  = at_ SeriesName renames.
Proof. destruct k; [reflexivity | reflexivity | congruence]. Qed.

Lemma backspace_assign_episode (renames : SeasonMapping) :
  cancel generated seriesFound backspace (at_ AssignEpisode (Some renames))
  = at_ EpisodeRenames (Some renames).
Proof. reflexivity. Qed.

Lemma escape_assign_episode (renames : SeasonMapping) :
  cancel generated seriesFound escape (at_ AssignEpisode (Some renames))
  = at_ SeriesName (Some renames).
Proof. reflexivity. Qed.

End Cancellation.

(** C6.  What the program does on a cancellation in the series
    pipeline.  From [series-language] both keys lead to
    [folder-selection]; from [series-suggestions] both lead to
    [series-name]; from [assign-episode] the backspace key leads to
    [episode-renames] with the structure kept, but the escape key leads
    to [series-name]; from [episode-renames] the backspace key leads to
    [series-suggestions] and the escape key to [series-name]. *)
Theorem C6_cancellations :
  forall generated renames,
    (forall seriesFound stored,
        Workflow.cancel generated seriesFound Workflow.escape
                        (at_ Workflow.SeriesLanguage stored)
        = at_ Workflow.FolderSelection stored
        /\ Workflow.cancel generated seriesFound Workflow.backspace
                           (at_ Workflow.SeriesLanguage stored)
           = at_ Workflow.FolderSelection stored
        /\ Workflow.cancel generated seriesFound Workflow.escape
                           (at_ Workflow.SeriesSuggestions stored)
           = at_ Workflow.SeriesName stored
        /\ Workflow.cancel generated seriesFound Workflow.backspace
                           (at_ Workflow.SeriesSuggestions stored)
           = at_ Workflow.SeriesName stored)
    /\ (forall seriesFound,
           Workflow.cancel generated seriesFound Workflow.backspace
                           (at_ Workflow.AssignEpisode (Some renames))
           = at_ Workflow.EpisodeRenames (Some renames)
           /\ Workflow.cancel generated seriesFound Workflow.escape
                              (at_ Workflow.AssignEpisode (Some renames))
              = at_ Workflow.SeriesName (Some renames)
           /\ Workflow.cancel generated seriesFound Workflow.escape
                              (at_ Workflow.EpisodeRenames (Some renames))
              = at_ Workflow.SeriesName (Some renames))
    /\ Workflow.cancel generated true Workflow.backspace
                       (at_ Workflow.EpisodeRenames (Some renames))
       = at_ Workflow.SeriesSuggestions None.
Proof.
  intros generated renames. repeat split.
Qed.

(** ** Instances *)

Lemma String_match_class_some (cls : list char) (s : jsstring) :
  occurs cls s -> String_match (ClassDigits cls) s <> None.
Proof.
  intros (u & a & d & v & -> & Ha & Hd).
  induction u as [|x u IH].
  - cbn [app String_match match_here takeWhile].
    apply mem_class in Ha. now rewrite Ha, Hd.
  - change ((x :: u) ++ a :: d :: v) with (x :: (u ++ a :: d :: v)).
    cbn [String_match].
    destruct (match_here (ClassDigits cls) (x :: u ++ a :: d :: v));
      [discriminate | exact IH].
Qed.

Lemma no_occurrence (cls : list char) (s : jsstring) :
  String_match (ClassDigits cls) s = None -> ~ occurs cls s.
Proof. intros H Ho. exact (String_match_class_some cls s Ho H). Qed.

(** C4 at [Show.S01E07.mkv], where the [E] occurrence gives 7, at
    [Show.7x07.mkv], where the [x] occurrence does, and at
    [Show.07.mkv], where the first run of digits does. *)
Lemma C4_parser_priority_witness :
  (In 69%N (lit "eE") /\ lit "07" <> [] /\ allDigits (lit "07")
   /\ nondigitHead (lit ".mkv") /\ ~ occurs (lit "eE") (lit "Show.S01" ++ [69%N]))
  /\ matchEpisodeNumber episodeRegexes (lit "Show.S01" ++ 69%N :: lit "07" ++ lit ".mkv")
     = Some (parseInt (lit "07"))
  /\ (~ occurs (lit "eE") (lit "Show.7x07.mkv") /\ In 120%N (lit "xX")
      /\ ~ occurs (lit "xX") (lit "Show.7" ++ [120%N]))
  /\ matchEpisodeNumber episodeRegexes (lit "Show.7" ++ 120%N :: lit "07" ++ lit ".mkv")
     = Some (parseInt (lit "07"))
  /\ (~ occurs (lit "eE") (lit "Show.07.mkv") /\ ~ occurs (lit "xX") (lit "Show.07.mkv")
      /\ noDigit (lit "Show."))
  /\ matchEpisodeNumber episodeRegexes (lit "Show." ++ lit "07" ++ lit ".mkv")
     = Some (parseInt (lit "07")).
Proof.
  assert (H1 : In 69%N (lit "eE")) by (right; left; reflexivity).
  assert (H2 : lit "07" <> []) by discriminate.
  assert (H3 : allDigits (lit "07")) by (repeat constructor).
  assert (H4 : nondigitHead (lit ".mkv")) by reflexivity.
  assert (H5 : ~ occurs (lit "eE") (lit "Show.S01" ++ [69%N]))
    by (apply no_occurrence; reflexivity).
  assert (X1 : ~ occurs (lit "eE") (lit "Show.7x07.mkv"))
    by (apply no_occurrence; reflexivity).
  assert (X2 : In 120%N (lit "xX")) by (left; reflexivity).
  assert (X3 : ~ occurs (lit "xX") (lit "Show.7" ++ [120%N]))
    by (apply no_occurrence; reflexivity).
  assert (D1 : ~ occurs (lit "eE") (lit "Show.07.mkv"))
    by (apply no_occurrence; reflexivity).
  assert (D2 : ~ occurs (lit "xX") (lit "Show.07.mkv"))
    by (apply no_occurrence; reflexivity).
  assert (D3 : noDigit (lit "Show.")) by (repeat constructor).
  split; [repeat split; assumption|].
  split; [exact (proj1 (proj2 (proj2 (proj2 C4_parser_priority)))
                       (lit "Show.S01") 69%N (lit "07") (lit ".mkv")
                       H1 H2 H3 H4 H5)|].
  split; [repeat split; assumption|].
  split; [exact (proj1 (proj2 (proj2 (proj2 (proj2 C4_parser_priority))))
                       (lit "Show.7") 120%N (lit "07") (lit ".mkv")
                       X1 X2 H2 H3 H4 X3)|].
  split; [repeat split; assumption|].
  exact (proj1 (proj2 (proj2 (proj2 (proj2 (proj2 C4_parser_priority)))))
               (lit "Show.") (lit "07") (lit ".mkv") D1 D2 D3 H2 H3 H4).
Defined.

(** C3 at a title with a colon, a comma, spaces and a question mark. *)
Lemma C3_sanitizer_clean_idempotent_witness :
  In c_colon sanitizedAway /\ ~ In c_colon (sanitize (lit "Was: ist, los?")).
Proof.
  assert (H : In c_colon sanitizedAway) by (unfold sanitizedAway; simpl; tauto).
  split; [exact H|].
  exact (proj1 (Forall_forall _ _)
               (proj1 C3_sanitizer_clean_idempotent (lit "Was: ist, los?"))
               c_colon H).
Defined.

(** C5 at the file [Show.e02.MKV] of the sample series. *)
Lemma C5_proposed_file_name_witness :
  (fileIsVideo (lit "Show.e02.MKV") = true
   /\ resolvedNumber (lit "Show.e02.MKV") None = Some 2%Z
   /\ Array_find (hasNumber 2) [pilot; second] = Some second
   /\ (0 <= airedSeason second)%Z /\ (0 <= 2)%Z)
  /\ name (generateEpisodeName (lit "Show") (lit "Show/Season 1") 1
                               (lit "Show.e02.MKV") [pilot; second] None)
     = sanitize (canonicalName (lit "Show") (airedSeason second) 2 second
                               (lit ".mkv")).
Proof.
  assert (H1 : fileIsVideo (lit "Show.e02.MKV") = true) by reflexivity.
  assert (H2 : resolvedNumber (lit "Show.e02.MKV") None = Some 2%Z) by reflexivity.
  assert (H3 : Array_find (hasNumber 2) [pilot; second] = Some second) by reflexivity.
  assert (H4 : (0 <= airedSeason second)%Z) by (simpl; lia).
  assert (H5 : (0 <= 2)%Z) by lia.
  split; [repeat split; assumption|].
  exact (proj1 (proj1 (proj2 (proj2 (proj2 C5_proposed_file_name)))
                      (lit "Show") (lit "Show/Season 1") 1%Z (lit "Show.e02.MKV")
                      [pilot; second] None 2%Z second H1 H2 H3 H4 H5)).
Defined.

(** C7 at the file [Show.e02.mkv] of the sample series. *)
Lemma C7_rename_flag_iff_paths_differ_witness :
  ~ In c_slash (lit "Show.e02.mkv")
  /\ renameFlagOk (generateEpisodeName (lit "Show") (lit "Show/Season 1") 1
                                       (lit "Show.e02.mkv") [pilot; second] None).
Proof.
  assert (H : ~ In c_slash (lit "Show.e02.mkv")) by (apply mem_false; reflexivity).
  split; [exact H|].
  exact (proj1 C7_rename_flag_iff_paths_differ
               (lit "Show") (lit "Show/Season 1") 1%Z (lit "Show.e02.mkv")
               [pilot; second] None H).
Defined.

(** C8 at the text file of the sample season folder. *)
Lemma C8_unchanged_mapping_witness :
  (In (lit "readme.txt") (getFileNames mixedFolder (lit "Show/Season 1"))
   /\ fileIsVideo (lit "readme.txt") = false)
  /\ rename (value (generateEpisodeName (seriesName showSeries) (lit "Show/Season 1")
                      1 (lit "readme.txt") (episodesOfSeason showSeries 1) None))
     = false.
Proof.
  assert (H1 : In (lit "readme.txt") (getFileNames mixedFolder (lit "Show/Season 1")))
    by (left; reflexivity).
  assert (H2 : fileIsVideo (lit "readme.txt") = false) by reflexivity.
  split; [split; assumption|].
  exact (proj1 (proj2 (proj2 (proj2 (proj2 (proj2
           (C8_unchanged_mapping mixedFolder (lit "Show/Season 1") 1%Z showSeries
              (lit "readme.txt") H1 (or_introl H2)))))))).
Defined.

(** C9 at the sample series directory: the folder [Extras] gives no
    season, the folder [Season 1] finds its entry under 1. *)
Lemma C9_season_folders_witness :
  (In (lit "Extras") (getFolderNames mixedFolder (lit "Show"))
   /\ noDigit (lit "Extras"))
  /\ folderSeason (lit "Extras") = None
  /\ (In (lit "Season 1") (getFolderNames mixedFolder (lit "Show"))
      /\ lit "Season 1" = lit "Season " ++ lit "1" ++ []
      /\ noDigit (lit "Season ") /\ lit "1" <> [] /\ allDigits (lit "1")
      /\ nondigitHead [])
  /\ obj_get (parseInt (lit "1"))
             (generateEpisodeNames mixedFolder (lit "Show") showSeries)
     <> None.
Proof.
  assert (H1 : In (lit "Extras") (getFolderNames mixedFolder (lit "Show")))
    by (right; left; reflexivity).
  assert (H2 : noDigit (lit "Extras")) by (repeat constructor).
  assert (S1 : In (lit "Season 1") (getFolderNames mixedFolder (lit "Show")))
    by (left; reflexivity).
  assert (S2 : lit "Season 1" = lit "Season " ++ lit "1" ++ []) by reflexivity.
  assert (S3 : noDigit (lit "Season ")) by (repeat constructor).
  assert (S4 : lit "1" <> []) by discriminate.
  assert (S5 : allDigits (lit "1")) by (repeat constructor).
  assert (S6 : nondigitHead []) by exact I.
  split; [split; assumption|].
  split; [exact (proj1 (proj1 (proj2 (proj2 (C9_season_folders mixedFolder
                                               (lit "Show") showSeries)))
                              (lit "Extras") H1 H2))|].
  split; [repeat split; assumption|].
  exact (proj1 (proj2 (C9_season_folders mixedFolder (lit "Show") showSeries))
               (lit "Season 1") (lit "Season ") (lit "1") [] S1 S2 S3 S4 S5 S6).
Defined.

(** C2 at a reassignment in the structure built for the sample
    directory. *)
Lemma C2_season_order_witness :
  exists renames',
    assignEpisode showSeries
      (unchangedEpisodeMapping (lit "Show/Season 1") 1 (lit "readme.txt"))
      second (generateEpisodeNames mixedFolder (lit "Show") showSeries)
    = Some renames'
    /\ exists old new,
        obj_get 1 (generateEpisodeNames mixedFolder (lit "Show") showSeries) = Some old
        /\ obj_get 1 renames' = Some new
        /\ seasonOrder
             (replaceAssigned showSeries
                (unchangedEpisodeMapping (lit "Show/Season 1") 1 (lit "readme.txt"))
                second (episodeMappings old))
             (episodeMappings new).
Proof.
  eexists. split; [reflexivity|].
  exact (proj1 (proj2 C2_season_order) showSeries
               (unchangedEpisodeMapping (lit "Show/Season 1") 1 (lit "readme.txt"))
               second (generateEpisodeNames mixedFolder (lit "Show") showSeries)
               _ eq_refl).
Defined.

(** C1 at the structure built for the sample directory, once with
    every rename succeeding and once with the first one failing. *)
Lemma C1_batch_rename_best_effort_witness :
  forallb (succeeds mixedFolder) (allCalls builtRenames) = true
  /\ run_console (renameEpisodes mixedFolder builtRenames)
     = [lit "renamed 2 files"]
  /\ forallb (succeeds firstRenameFails) (allCalls builtRenames) = false
  /\ run_console (renameEpisodes firstRenameFails builtRenames) = [].
Proof.
  assert (H1 : forallb (succeeds mixedFolder) (allCalls builtRenames) = true)
    by reflexivity.
  assert (H2 : forallb (succeeds firstRenameFails) (allCalls builtRenames) = false)
    by reflexivity.
  split; [exact H1|].
  split; [exact (proj2 (proj1 (proj2 (C1_batch_rename_best_effort mixedFolder
                                         builtRenames)) H1))|].
  split; [exact H2|].
  exact (proj2 (proj2 (proj2 (C1_batch_rename_best_effort firstRenameFails
                                 builtRenames)) H2)).
Defined.

(* ================================================================== *)
(** * Further properties of the program *)

(** ** Directory listings *)

Section ListingFacts.

Lemma filterIndexed_offset {A} (p : A -> bool) (arr : list A) :
  forall (seen : list bool),
    Listing.filterIndexed
      (fun _ index => nth index (seen ++ map p arr) false)
      (List.length seen) arr
    = filter p arr.
Proof.
  induction arr as [|x arr IH]; intros seen; [reflexivity|].
  cbn [Listing.filterIndexed filter map].
  rewrite app_nth2, Nat.sub_diag by lia. cbn [nth].
  specialize (IH (seen ++ [p x])).
  rewrite <- app_assoc, length_app in IH. cbn [app List.length] in IH.
  replace (List.length seen + 1)%nat with (S (List.length seen)) in IH by lia.
  destruct (p x); now rewrite IH.
Qed.

Lemma filterAsync_filter {A} (arr : list A) (p : A -> bool) :
  Listing.filterAsync arr p = filter p arr.
Proof. exact (filterIndexed_offset p arr []). Qed.

Lemma filter_partition_perm {A} (p : A -> bool) (l : list A) :
  Permutation (filter p l ++ filter (fun x => negb (p x)) l) l.
Proof.
  induction l as [|x l IH]; [reflexivity|].
  cbn [filter]. destruct (p x); cbn [negb app].
  - now constructor.
  - rewrite <- Permutation_middle. now constructor.
Qed.

End ListingFacts.

(** X1. [filterAsync] keeps exactly the elements for which the
    asynchronous test answers yes, in their order: looking the answers
    up by index gives the same as filtering by the test itself. *)
Theorem X1_filterAsync_is_filter :
  forall (A : Type) (arrayToFilter : list A) (filterMethod : A -> bool),
    Listing.filterAsync arrayToFilter filterMethod
    = filter filterMethod arrayToFilter.
Proof.
  intros A arr p. unfold Listing.filterAsync.
  exact (filterIndexed_offset p arr []).
Qed.

(** X2. The folders and the files of a directory split its listing:
    a listed name is a folder name exactly when its path is a
    directory, a file name otherwise, also when [stat] throws for it;
    the two lists together are a rearrangement of the listing. *)
Theorem X2_listing_is_split :
  forall d basePath,
    (forall itemName,
        In itemName (Listing.getFolderNames d basePath)
        <-> In itemName (Listing.readdir d basePath)
            /\ Listing.stat d (Path.join basePath itemName) = Some true)
    /\ (forall itemName,
           In itemName (Listing.getFileNames d basePath)
           <-> In itemName (Listing.readdir d basePath)
               /\ Listing.stat d (Path.join basePath itemName) <> Some true)
    /\ Permutation (Listing.getFolderNames d basePath
                    ++ Listing.getFileNames d basePath)
                   (Listing.readdir d basePath).
Proof.
  intros d p. unfold Listing.getFolderNames, Listing.getFileNames.
  rewrite !filterAsync_filter.
  split; [|split].
  - intros n. rewrite filter_In. unfold Listing.isFolder.
    destruct (Listing.stat d (Path.join p n)) as [[|]|]; intuition congruence.
  - intros n. rewrite filter_In. unfold Listing.isFolder.
    destruct (Listing.stat d (Path.join p n)) as [[|]|]; cbn [negb];
      intuition congruence.
  - apply filter_partition_perm.
Qed.

(** ** Paths, continued *)

Section PathRoundTrips.

Import Path.

Lemma joinPrefix_shape (dir : jsstring) :
  joinPrefix dir = [] \/ exists q, joinPrefix dir = q ++ [c_slash].
Proof.
  destruct dir as [|c dir]; [left; reflexivity|].
  cbn [joinPrefix].
  destruct (rev (fold_left _ _ _)) as [|seg segs].
  - destruct (c =? c_slash)%N; [right; exists []; reflexivity | left; reflexivity].
  - right. exists ((if (c =? c_slash)%N then lit "/" else [])
                   ++ intercalate (lit "/") (seg :: segs)).
    now rewrite <- app_assoc.
Qed.

Lemma basename_after_prefix (P a : jsstring) :
  plain a ->
  P = [] \/ (exists q, P = q ++ [c_slash]) ->
  basename (P ++ a) = a.
Proof.
  intros (Hne & _ & _ & Hs) HP. unfold basename.
  rewrite rev_app_distr.
  assert (Hall : Forall (fun c => notSlash c = true) (rev a)).
  { apply Forall_forall. intros c Hc. apply in_rev in Hc.
    unfold notSlash. apply negb_true_iff, N.eqb_neq. intros ->. contradiction. }
  destruct (rev a) as [|y r] eqn:Er.
  { apply (f_equal (@rev _)) in Er. rewrite rev_involutive in Er. contradiction. }
  assert (Hy : (y =? c_slash)%N = false).
  { inversion Hall as [|? ? Hy' _]; subst. now apply negb_true_iff in Hy'. }
  cbn [app dropWhile]. rewrite Hy.
  change (y :: r ++ rev P) with ((y :: r) ++ rev P).
  rewrite (takeWhile_run notSlash (y :: r) (rev P) Hall).
  - rewrite <- Er. apply rev_involutive.
  - destruct HP as [-> | [q ->]]; [exact I|].
    rewrite rev_app_distr. cbn. reflexivity.
Qed.

Lemma basename_join (dir a : jsstring) : plain a -> basename (join dir a) = a.
Proof.
  intros Ha. rewrite (join_plain dir a Ha).
  apply basename_after_prefix; [exact Ha | apply joinPrefix_shape].
Qed.

Lemma basename_plain (a : jsstring) : plain a -> basename a = a.
Proof. intros Ha. apply (basename_after_prefix [] a Ha). now left. Qed.

Lemma extname_join (dir a : jsstring) : plain a -> extname (join dir a) = extname a.
Proof.
  intros Ha. unfold extname. now rewrite (basename_join dir a Ha), (basename_plain a Ha).
Qed.

(** Separators and stacks *)

Lemma split_no_slash (s : jsstring) :
  Forall (fun seg => ~ In c_slash seg) (split c_slash s).
Proof.
  induction s as [|c s IH]; cbn [split]; [repeat constructor; tauto|].
  destruct (c =? c_slash)%N eqn:E.
  - constructor; [tauto | exact IH].
  - destruct (split c_slash s) as [|seg segs]; [repeat constructor|].
    + intros [-> | []]. now rewrite N.eqb_refl in E.
    + inversion IH as [|? ? Hseg Hsegs]; subst. constructor; [|exact Hsegs].
      intros [-> | H]; [now rewrite N.eqb_refl in E | contradiction].
Qed.

Lemma split_app_slash (x rest : jsstring) :
  ~ In c_slash x -> split c_slash (x ++ c_slash :: rest) = x :: split c_slash rest.
Proof.
  induction x as [|c x IH]; intros Hx; cbn [app split].
  - now rewrite N.eqb_refl.
  - destruct (c =? c_slash)%N eqn:E.
    + apply N.eqb_eq in E. exfalso; apply Hx; left; auto.
    + rewrite IH; [reflexivity|]. intros H; apply Hx; right; exact H.
Qed.

Lemma split_intercalate (segs : list jsstring) :
  segs <> [] -> Forall (fun seg => ~ In c_slash seg) segs ->
  split c_slash (intercalate (lit "/") segs) = segs.
Proof.
  induction segs as [|x segs IH]; intros Hne Hall; [congruence|].
  inversion Hall as [|? ? Hx Hrest]; subst.
  destruct segs as [|y segs].
  - cbn [intercalate]. now apply split_plain.
  - change (intercalate (lit "/") (x :: y :: segs))
      with (x ++ c_slash :: intercalate (lit "/") (y :: segs)).
    rewrite (split_app_slash _ _ Hx), IH; [reflexivity | discriminate | exact Hrest].
Qed.

Lemma normalStack_kept (allow : bool) (stack : list jsstring) :
  normalStack allow stack -> Forall keptSegment stack.
Proof.
  induction stack as [|seg rest IH]; [constructor|].
  intros (Hseg & Hrest & _). constructor; auto.
Qed.

Lemma dotdot_kept : keptSegment (lit "..").
Proof.
  repeat split; try discriminate.
  cbn. intros [H | [H | []]]; discriminate.
Qed.

Lemma normalizeStep_normal (allow : bool) (stack : list jsstring) (seg : jsstring) :
  ~ In c_slash seg -> normalStack allow stack ->
  normalStack allow (normalizeStep allow stack seg).
Proof.
  intros Hs Hst. unfold normalizeStep.
  destruct (str_eqb seg []) eqn:E0; [exact Hst|].
  destruct (str_eqb seg (lit ".")) eqn:E1; [exact Hst|].
  cbn [orb].
  apply str_eqb_neq in E0, E1.
  destruct (str_eqb seg (lit "..")) eqn:E2.
  - apply str_eqb_eq in E2. subst seg.
    destruct stack as [|top rest].
    + destruct allow; [|exact I].
      cbn [normalStack]. split; [exact dotdot_kept|]. split; [exact I|].
      intros _. split; [reflexivity | exact I].
    + destruct (str_eqb top (lit "..")) eqn:Et.
      * apply str_eqb_eq in Et. subst top.
        destruct allow; [|exact Hst].
        split; [exact dotdot_kept|]. split; [exact Hst|].
        intros _. split; reflexivity.
      * destruct Hst as (_ & Hrest & _). exact Hrest.
  - apply str_eqb_neq in E2.
    split; [repeat split; assumption|]. split; [exact Hst|].
    intros E; contradiction.
Qed.

Lemma fold_normal (allow : bool) (segs : list jsstring) :
  forall stack,
    Forall (fun seg => ~ In c_slash seg) segs -> normalStack allow stack ->
    normalStack allow (fold_left (normalizeStep allow) segs stack).
Proof.
  induction segs as [|seg segs IH]; intros stack Hall Hst; [exact Hst|].
  inversion Hall; subst. cbn [fold_left]. apply IH; [assumption|].
  now apply normalizeStep_normal.
Qed.

Lemma stackOf_normal (path : jsstring) :
  normalStack (negb (isAbsolutePath path)) (stackOf path).
Proof.
  destruct path as [|c path]; [exact I|].
  cbn [stackOf isAbsolutePath]. apply fold_normal; [apply split_no_slash | exact I].
Qed.

Lemma normalizeStep_push (allow : bool) (stack : list jsstring) (seg : jsstring) :
  normalStack allow (seg :: stack) -> normalizeStep allow stack seg = seg :: stack.
Proof.
  intros ((H0 & H1 & _) & _ & Hdd). unfold normalizeStep.
  apply str_eqb_neq in H0, H1. rewrite H0, H1. cbn [orb].
  destruct (str_eqb seg (lit "..")) eqn:E; [|reflexivity].
  apply str_eqb_eq in E. destruct (Hdd E) as [-> Hbelow].
  destruct stack as [|below rest]; [reflexivity|].
  rewrite Hbelow, str_eqb_refl. now rewrite E.
Qed.

(** Folding the segments of a normal stack builds the stack again. *)
Lemma refold (allow : bool) (stack : list jsstring) :
  normalStack allow stack ->
  fold_left (normalizeStep allow) (rev stack) [] = stack.
Proof.
  induction stack as [|seg rest IH]; intros Hst; [reflexivity|].
  cbn [rev]. rewrite fold_left_app. cbn [fold_left].
  destruct Hst as (Hseg & Hrest & Hdd).
  rewrite (IH Hrest). apply normalizeStep_push. cbn [normalStack]. auto.
Qed.

Lemma intercalate_nonempty (segs : list jsstring) :
  segs <> [] -> Forall keptSegment segs ->
  exists c s, intercalate (lit "/") segs = c :: s /\ c <> c_slash.
Proof.
  intros Hne Hall. destruct segs as [|x segs]; [congruence|].
  inversion Hall as [|? ? (Hx & _ & Hs) _]; subst.
  destruct x as [|c x]; [congruence|].
  assert (c <> c_slash) by (intros ->; apply Hs; left; reflexivity).
  destruct segs; [exists c, x | eexists c, _]; split; auto; reflexivity.
Qed.

Lemma intercalate_last (segs : list jsstring) (d : char) :
  segs <> [] -> Forall keptSegment segs ->
  last (intercalate (lit "/") segs) d <> c_slash.
Proof.
  intros Hne Hall.
  destruct (exists_last Hne) as (front & a & ->).
  apply Forall_app in Hall as [_ Ha].
  inversion Ha as [|? ? (Hane & _ & Hs) _]; subst.
  rewrite intercalate_snoc.
  destruct a as [|x a]; [congruence|].
  assert (Hl : last (x :: a) d <> c_slash).
  { intros E. apply Hs. rewrite <- E. apply last_In. }
  destruct front as [|f front]; [exact Hl|].
  rewrite app_assoc. now rewrite last_app_cons.
Qed.

(** The stack of a rendered stack is the stack. *)
Lemma stackOf_render (isAbsolute : bool) (stack : list jsstring) :
  stack <> [] -> normalStack (negb isAbsolute) stack ->
  isAbsolutePath (render isAbsolute stack) = isAbsolute
  /\ stackOf (render isAbsolute stack) = stack
  /\ render isAbsolute stack <> []
  /\ last (render isAbsolute stack) 0%N <> c_slash.
Proof.
  intros Hne Hst.
  assert (Hrev : rev stack <> []).
  { intros E. apply Hne. apply (f_equal (@rev _)) in E.
    now rewrite rev_involutive in E. }
  assert (Hkept : Forall keptSegment (rev stack)).
  { apply Forall_rev, (normalStack_kept _ _ Hst). }
  assert (Hns : Forall (fun seg => ~ In c_slash seg) (rev stack)).
  { eapply Forall_impl; [|exact Hkept]. now intros seg (_ & _ & H). }
  destruct (intercalate_nonempty _ Hrev Hkept) as (c & s & Ei & Hc).
  pose proof (split_intercalate _ Hrev Hns) as Hsplit.
  pose proof (intercalate_last _ 0%N Hrev Hkept) as Hlast.
  unfold render. destruct isAbsolute.
  - change (lit "/" ++ intercalate (lit "/") (rev stack))
      with (c_slash :: intercalate (lit "/") (rev stack)).
    repeat split.
    + cbn [stackOf]. rewrite N.eqb_refl. cbn [negb split].
      rewrite N.eqb_refl, Hsplit. cbn [fold_left normalizeStep str_eqb orb].
      now apply refold.
    + discriminate.
    + rewrite Ei in *. exact Hlast.
  - cbn [app]. rewrite Ei in *. apply N.eqb_neq in Hc.
    repeat split.
    + cbn [isAbsolutePath]. exact Hc.
    + cbn [stackOf]. rewrite Hc. cbn [negb]. rewrite Hsplit. now apply refold.
    + discriminate.
    + exact Hlast.
Qed.

End PathRoundTrips.

Section JoinedPaths.

Import Path.

Lemma plain_kept (a : jsstring) : plain a -> keptSegment a.
Proof. intros (H0 & H1 & _ & Hs). repeat split; assumption. Qed.

Lemma normalStack_push (allow : bool) (stack : list jsstring) (a : jsstring) :
  plain a -> normalStack allow stack -> normalStack allow (a :: stack).
Proof.
  intros Ha Hst. split; [now apply plain_kept|]. split; [exact Hst|].
  intros E. destruct Ha as (_ & _ & H2 & _). contradiction.
Qed.

Lemma join_render (dir a : jsstring) :
  plain a -> join dir a = render (isAbsolutePath dir) (a :: stackOf dir).
Proof.
  intros Ha. rewrite (join_plain dir a Ha). unfold render. cbn [rev].
  rewrite intercalate_snoc.
  destruct dir as [|c dir]; [reflexivity|].
  cbn [joinPrefix isAbsolutePath stackOf].
  destruct (rev (fold_left _ _ _)) as [|seg segs].
  - now rewrite app_nil_r.
  - now rewrite <- !app_assoc.
Qed.

Lemma join_facts (dir a : jsstring) :
  plain a ->
  isAbsolutePath (join dir a) = isAbsolutePath dir
  /\ stackOf (join dir a) = a :: stackOf dir
  /\ join dir a <> []
  /\ last (join dir a) 0%N <> c_slash.
Proof.
  intros Ha. rewrite (join_render dir a Ha).
  apply stackOf_render; [discriminate|].
  apply normalStack_push; [exact Ha | apply stackOf_normal].
Qed.

(** [normalize] in terms of the stack. *)
Lemma normalize_stack (path : jsstring) :
  path <> [] ->
  normalize path
  = match intercalate (lit "/") (rev (stackOf path)) with
    | [] => if isAbsolutePath path then lit "/"
            else if (last path 0%N =? c_slash)%N then lit "./" else lit "."
    | q => (if isAbsolutePath path then lit "/" else []) ++ q
           ++ (if (last path 0%N =? c_slash)%N then lit "/" else [])
    end.
Proof.
  destruct path as [|c path]; [congruence|]. intros _. reflexivity.
Qed.

Lemma stackOf_snoc (dir seg : jsstring) (x : char) (dir' : jsstring) :
  dir = x :: dir' -> ~ In c_slash seg ->
  stackOf (dir ++ c_slash :: seg)
  = normalizeStep (negb (isAbsolutePath dir)) (stackOf dir) seg.
Proof.
  intros -> Hs. cbn [app stackOf isAbsolutePath].
  change (x :: dir' ++ c_slash :: seg) with ((x :: dir') ++ c_slash :: seg).
  now rewrite (split_snoc _ _ Hs), fold_left_app.
Qed.

Lemma join_dot (dir : jsstring) :
  join dir (lit ".") = settle (isAbsolutePath dir) (stackOf dir).
Proof.
  destruct dir as [|x dir']; [reflexivity|].
  cbn [join lit map list_ascii_of_string].
  change ([N_of_ascii "/"] ++ [N_of_ascii "."]) with (c_slash :: lit ".").
  rewrite normalize_stack by (destruct dir'; discriminate).
  rewrite (stackOf_snoc (x :: dir') (lit ".") x dir' eq_refl)
    by (cbn; intros [H | []]; discriminate).
  change (normalizeStep _ (stackOf (x :: dir')) (lit ".")) with (stackOf (x :: dir')).
  assert (El : last ((x :: dir') ++ c_slash :: lit ".") 0%N = c_dot).
  { now rewrite last_app_cons. }
  rewrite El. unfold settle. cbn [isAbsolutePath app].
  change ((c_dot =? c_slash)%N) with false. cbn iota.
  destruct (intercalate (lit "/") (rev (stackOf (x :: dir')))); [reflexivity|].
  now rewrite app_nil_r.
Qed.

Lemma join_dotdot (dir a : jsstring) :
  plain a ->
  join (join dir a) (lit "..") = settle (isAbsolutePath dir) (stackOf dir).
Proof.
  intros Ha. destruct (join_facts dir a Ha) as (Habs & Hst & Hne & _).
  destruct (join dir a) as [|x p] eqn:Ej; [congruence|].
  cbn [join lit map list_ascii_of_string].
  change ([N_of_ascii "/"] ++ [N_of_ascii "."; N_of_ascii "."])
    with (c_slash :: lit "..").
  rewrite normalize_stack by (destruct p; discriminate).
  rewrite (stackOf_snoc (x :: p) (lit "..") x p eq_refl)
    by (cbn; intros [H | [H | []]]; discriminate).
  rewrite Hst, Habs.
  assert (Estep : normalizeStep (negb (isAbsolutePath dir)) (a :: stackOf dir) (lit "..")
                  = stackOf dir).
  { unfold normalizeStep. cbn [str_eqb lit map list_ascii_of_string andb orb].
    change (str_eqb [N_of_ascii "."; N_of_ascii "."] [N_of_ascii "."; N_of_ascii "."])
      with true.
    cbn iota.
    destruct Ha as (_ & _ & H2 & _). apply str_eqb_neq in H2.
    change [N_of_ascii "."; N_of_ascii "."] with (lit ".."). now rewrite H2. }
  rewrite Estep.
  assert (El : last ((x :: p) ++ c_slash :: lit "..") 0%N = c_dot).
  { now rewrite last_app_cons. }
  rewrite El. unfold settle.
  assert (Ea : isAbsolutePath ((x :: p) ++ c_slash :: lit "..") = isAbsolutePath dir).
  { rewrite <- Habs. reflexivity. }
  rewrite Ea. change ((c_dot =? c_slash)%N) with false. cbn iota.
  destruct (intercalate (lit "/") (rev (stackOf dir))); [reflexivity|].
  now rewrite app_nil_r.
Qed.

Lemma settle_joined (dir a : jsstring) :
  plain a ->
  settle (isAbsolutePath (join dir a)) (stackOf (join dir a)) = join dir a.
Proof.
  intros Ha. destruct (join_facts dir a Ha) as (Habs & Hst & Hne & _).
  rewrite Habs, Hst. rewrite (join_render dir a Ha) in *.
  unfold settle, render in *.
  destruct (intercalate (lit "/") (rev (a :: stackOf dir))) eqn:E; [|reflexivity].
  exfalso.
  assert (Hrev : rev (a :: stackOf dir) <> []).
  { cbn [rev]. intros H. now apply app_eq_nil in H as [_ H]. }
  assert (Hk : Forall keptSegment (rev (a :: stackOf dir))).
  { apply Forall_rev. constructor; [now apply plain_kept|].
    apply (normalStack_kept _ _ (stackOf_normal dir)). }
  destruct (intercalate_nonempty _ Hrev Hk) as (c & s & Ei & _). congruence.
Qed.

Lemma descend_facts (chain : list jsstring) :
  forall dir,
    chain <> [] -> Forall plain chain ->
    isAbsolutePath (descend dir chain) = isAbsolutePath dir
    /\ stackOf (descend dir chain) = rev chain ++ stackOf dir.
Proof.
  induction chain as [|a chain IH]; intros dir Hne Hall; [congruence|].
  inversion Hall as [|? ? Ha Hrest]; subst.
  destruct (join_facts dir a Ha) as (Habs & Hst & _).
  cbn [descend fold_left]. fold (descend (join dir a) chain).
  destruct chain as [|b chain].
  - cbn [descend fold_left rev app]. split; assumption.
  - destruct (IH (join dir a) ltac:(discriminate) Hrest) as (Habs' & Hst').
    rewrite Habs', Hst', Habs, Hst. split; [reflexivity|].
    cbn [rev]. now rewrite <- !app_assoc.
Qed.

End JoinedPaths.

(** X3. Entering a folder of the main menu and then selecting the
    parent entry leads back: the directory is the one the browser was
    in, in normal form, and the menu highlights the folder that was
    left.  Once the directory is the result of such a selection, the
    way down and up gives exactly the same directory again. *)
Theorem X3_down_and_up :
  forall place folder,
    plain folder ->
    currentDirectory (selectFolder (lit "..") (selectFolder folder place))
    = Path.join (currentDirectory place) (lit ".")
    /\ highlightedFolder (selectFolder (lit "..") (selectFolder folder place))
       = folder
    /\ highlightedFolder (selectFolder folder place) = lit ".."
    /\ (forall inner,
           plain inner ->
           currentDirectory
             (selectFolder (lit "..")
                (selectFolder inner (selectFolder folder place)))
           = currentDirectory (selectFolder folder place)).
Proof.
  intros place folder Ha.
  assert (Hnd : str_eqb folder (lit "..") = false).
  { apply str_eqb_neq. now destruct Ha as (_ & _ & H & _). }
  unfold selectFolder. cbn [currentDirectory highlightedFolder].
  rewrite Hnd, str_eqb_refl.
  split; [now rewrite join_dotdot, join_dot|].
  split; [now apply basename_join|].
  split; [reflexivity|].
  intros inner Hi. rewrite (join_dotdot _ inner Hi). now apply settle_joined.
Qed.

(** ** The files under a folder *)

Section AllFiles.

Variable d : Listing.Disk.

Lemma Tree_induction (P : Tree -> Prop) :
  (forall files folders,
      Forall (fun sub => P (snd sub)) folders -> P (Folder files folders)) ->
  forall t, P t.
Proof.
  intros H. fix IH 1. intros [files folders]. apply H.
  induction folders as [|[name sub] folders IHf]; constructor;
    [apply IH | exact IHf].
Qed.

Lemma allArrive_map_some {A B} (f : A -> option B) (g : A -> B) (l : list A) :
  Forall (fun x => f x = Some (g x)) l ->
  Listing.allArrive (map f l) = Some (map g l).
Proof.
  induction 1 as [|x l Hx _ IH]; [reflexivity|].
  cbn [map Listing.allArrive]. now rewrite Hx, IH.
Qed.

Lemma allArrive_none {A} (results : list (option A)) :
  In None results -> Listing.allArrive results = None.
Proof.
  induction results as [|r results IH]; intros []; subst; cbn [Listing.allArrive].
  - reflexivity.
  - destruct r; [|reflexivity]. now rewrite IH.
Qed.

Lemma allArrive_some {A} (results : list (option A)) (rs : list A) :
  Listing.allArrive results = Some rs -> results = map Some rs.
Proof.
  revert rs; induction results as [|r results IH]; intros rs; cbn [Listing.allArrive].
  - now intros [= <-].
  - destruct r as [x|]; [|discriminate].
    destruct (Listing.allArrive results) as [rs'|]; [|discriminate].
    intros [= <-]. cbn [map]. now rewrite (IH rs' eq_refl).
Qed.

Lemma getAllFilesInFolder_unfold (fuel : nat) (folderPath : jsstring) :
  Listing.getAllFilesInFolder (S fuel) d folderPath
  = match Listing.allArrive
            (map (fun folderName =>
                    Listing.getAllFilesInFolder fuel d (Path.join folderPath folderName))
                 (Listing.getFolderNames d folderPath)) with
    | None => None
    | Some filesInSubFolders =>
        Some (map (fun fileName => Path.join folderPath fileName)
                  (Listing.getFileNames d folderPath)
              ++ List.concat filesInSubFolders)
    end.
Proof. reflexivity. Qed.

Lemma more_fuel (fuel : nat) :
  forall folderPath files,
    Listing.getAllFilesInFolder fuel d folderPath = Some files ->
    Listing.getAllFilesInFolder (S fuel) d folderPath = Some files.
Proof.
  induction fuel as [|fuel IH]; intros p files H; [discriminate|].
  rewrite getAllFilesInFolder_unfold in H. rewrite getAllFilesInFolder_unfold.
  destruct (Listing.allArrive
              (map (fun n => Listing.getAllFilesInFolder fuel d (Path.join p n))
                   (Listing.getFolderNames d p))) as [subs|] eqn:E; [|discriminate].
  apply allArrive_some in E.
  assert (E' : map (fun n => Listing.getAllFilesInFolder (S fuel) d (Path.join p n))
                   (Listing.getFolderNames d p) = map Some subs).
  { clear H. revert subs E. induction (Listing.getFolderNames d p) as [|n ns IHn];
      intros [|s subs] E; try discriminate; [reflexivity|].
    cbn [map] in *. injection E as E1 E2.
    now rewrite (IH _ _ E1), (IHn _ E2). }
  rewrite E'.
  replace (Listing.allArrive (map Some subs)) with (Some subs); [exact H|].
  clear. induction subs as [|s subs IHs]; [reflexivity|].
  cbn [map Listing.allArrive]. now rewrite <- IHs.
Qed.

Lemma enough_fuel (fuel fuel' : nat) (folderPath : jsstring) (files : list jsstring) :
  (fuel <= fuel')%nat ->
  Listing.getAllFilesInFolder fuel d folderPath = Some files ->
  Listing.getAllFilesInFolder fuel' d folderPath = Some files.
Proof.
  induction 1 as [|fuel' _ IH]; [auto|]. intros H. apply more_fuel, IH, H.
Qed.

Lemma represents_subs (path : jsstring) (folders : list (jsstring * Tree)) :
  fold_right and True
    (map (fun sub => represents d (Path.join path (fst sub)) (snd sub)) folders)
  <-> Forall (fun sub => represents d (Path.join path (fst sub)) (snd sub)) folders.
Proof.
  induction folders as [|sub folders IH]; cbn [map fold_right].
  - split; [constructor | exact (fun _ => I)].
  - rewrite IH. split; [intros []; now constructor | intros H; inversion H; auto].
Qed.

Lemma depth_subs (folders : list (jsstring * Tree)) (sub : jsstring * Tree) :
  In sub folders ->
  (depth (snd sub)
   <= fold_right Nat.max 0%nat (map (fun s => depth (snd s)) folders))%nat.
Proof.
  induction folders as [|s folders IH]; intros []; cbn [map fold_right].
  - subst. lia.
  - specialize (IH H). lia.
Qed.

Lemma tree_listing (t : Tree) :
  forall path fuel,
    represents d path t -> (depth t <= fuel)%nat ->
    Listing.getAllFilesInFolder fuel d path = Some (treeFiles path t).
Proof.
  induction t as [files folders IH] using Tree_induction.
  intros path fuel (Hfiles & Hfolders & Hsubs) Hdepth.
  cbn [depth] in Hdepth. destruct fuel as [|fuel]; [lia|].
  apply represents_subs in Hsubs.
  rewrite getAllFilesInFolder_unfold, Hfiles, Hfolders, map_map.
  rewrite (allArrive_map_some _
             (fun sub => treeFiles (Path.join path (fst sub)) (snd sub))).
  - reflexivity.
  - rewrite Forall_forall in *. intros sub Hin.
    apply (IH sub Hin); [exact (Hsubs sub Hin)|].
    pose proof (depth_subs folders sub Hin). lia.
Qed.


Lemma treeFiles_In (t : Tree) :
  forall path q,
    In q (treeFiles path t)
    <-> exists chain f, HasFile t chain f /\ q = Path.join (descend path chain) f.
Proof.
  induction t as [files folders IH] using Tree_induction. intros path q.
  rewrite Forall_forall in IH.
  cbn [treeFiles]. rewrite in_app_iff, in_map_iff, in_concat. split.
  - intros [(f & <- & Hf) | (l & Hl & Hq)].
    + exists [], f. split; [now constructor | reflexivity].
    + apply in_map_iff in Hl as ([name sub] & <- & Hsub).
      apply (IH _ Hsub) in Hq as (chain & f & Hhas & ->).
      exists (name :: chain), f. split; [|reflexivity].
      now apply HasFile_below with sub.
  - intros (chain & f & Hhas & ->).
    inversion Hhas as [? ? ? Hf | ? ? folder sub below ? Hin Hsub]; subst.
    + left. exists f. split; [reflexivity | assumption].
    + right. exists (treeFiles (Path.join path folder) sub). split.
      * apply in_map_iff. exists (folder, sub). split; [reflexivity | assumption].
      * apply (IH (folder, sub)); [assumption|]. exists below, f; auto.
Qed.

Lemma deeper_sub (folders : list (jsstring * Tree)) (fuel : nat) :
  (fuel < fold_right Nat.max 0%nat (map (fun s => depth (snd s)) folders))%nat ->
  exists sub, In sub folders /\ (fuel < depth (snd sub))%nat.
Proof.
  induction folders as [|s folders IH]; cbn [map fold_right]; [lia|].
  intros H.
  destruct (Nat.lt_ge_cases fuel (depth (snd s))) as [Hs | Hs].
  - exists s. split; [now left | exact Hs].
  - destruct IH as (sub & Hin & Hsub); [lia|].
    exists sub. split; [now right | exact Hsub].
Qed.

Lemma tree_too_deep (t : Tree) :
  forall path fuel,
    represents d path t -> (fuel < depth t)%nat ->
    Listing.getAllFilesInFolder fuel d path = None.
Proof.
  induction t as [files folders IH] using Tree_induction.
  intros path fuel (Hfiles & Hfolders & Hsubs) Hdepth.
  destruct fuel as [|fuel]; [reflexivity|].
  cbn [depth] in Hdepth.
  destruct (deeper_sub folders fuel ltac:(lia)) as (sub & Hin & Hsub).
  apply represents_subs in Hsubs. rewrite Forall_forall in IH, Hsubs.
  rewrite getAllFilesInFolder_unfold, Hfolders, map_map.
  rewrite allArrive_none; [reflexivity|].
  apply in_map_iff. exists sub. split; [|exact Hin].
  exact (IH sub Hin _ fuel (Hsubs sub Hin) Hsub).
Qed.

End AllFiles.


(** X5. The recursion of [getAllFilesInFolder] is not cut off: on
    a disk that shows a finite tree under a folder it goes as deep as
    the tree, so that it has returned exactly when it may go at least
    that deep. *)
Theorem X5_recursion_as_deep_as_the_tree :
  forall d folderPath t fuel,
    represents d folderPath t ->
    (Listing.getAllFilesInFolder fuel d folderPath = None
     <-> (fuel < depth t)%nat).
Proof.
  intros d p t fuel Hrep. split.
  - intros Hnone. destruct (Nat.lt_ge_cases fuel (depth t)) as [H | H]; [exact H|].
    rewrite (tree_listing d t p fuel Hrep H) in Hnone. discriminate.
  - now apply tree_too_deep.
Qed.

(** ** Hoisting and purging *)

Ltac plain_lit :=
  repeat split; try discriminate; apply mem_false; reflexivity.

Section Hoisting.

Lemma hoistMove_top (directory f : jsstring) :
  plain f -> hoistMove directory (Path.join directory f) = None.
Proof.
  intros Hf. unfold hoistMove.
  now rewrite (basename_join _ _ Hf), str_eqb_refl.
Qed.

Lemma deeper_differs (directory : jsstring) (chain : list jsstring) (f g : jsstring) :
  chain <> [] -> Forall plain chain -> plain f -> plain g ->
  Path.join (descend directory chain) f <> Path.join directory g.
Proof.
  intros Hne Hch Hf Hg E.
  destruct (join_facts (descend directory chain) f Hf) as (_ & S1 & _).
  destruct (join_facts directory g Hg) as (_ & S2 & _).
  destruct (descend_facts chain directory Hne Hch) as (_ & S3).
  rewrite E, S2, S3 in S1.
  apply (f_equal (@List.length _)) in S1.
  cbn [List.length] in S1. rewrite length_app, length_rev in S1.
  destruct chain; [congruence | cbn [List.length] in S1; lia].
Qed.

Lemma hoistMove_deep (directory : jsstring) (chain : list jsstring) (f : jsstring) :
  chain <> [] -> Forall plain chain -> plain f ->
  hoistMove directory (Path.join (descend directory chain) f)
  = Some (RenamePath (Path.join (descend directory chain) f)
                     (Path.join directory f)).
Proof.
  intros Hne Hch Hf. unfold hoistMove. rewrite (basename_join _ _ Hf).
  destruct (str_eqb _ _) eqn:E; [|reflexivity].
  apply str_eqb_eq in E. now apply deeper_differs in E.
Qed.

Lemma hoistMove_under (directory old : jsstring) (m : Mutation) :
  under directory old -> hoistMove directory old = Some m ->
  exists chain f,
    chain <> [] /\ Forall plain chain /\ plain f
    /\ old = Path.join (descend directory chain) f
    /\ m = RenamePath old (Path.join directory f).
Proof.
  intros (chain & f & Hch & Hf & ->) Hm.
  destruct chain as [|c chain].
  - cbn [descend fold_left] in Hm. now rewrite (hoistMove_top _ _ Hf) in Hm.
  - rewrite (hoistMove_deep directory (c :: chain) f) in Hm;
      [|discriminate | exact Hch | exact Hf].
    injection Hm as <-. exists (c :: chain), f.
    split; [discriminate|]. split; [exact Hch|]. split; [exact Hf|].
    split; reflexivity.
Qed.

Lemma In_rename_app (old new : jsstring) (moves : list Mutation) (folders : list jsstring)
      (directory : jsstring) :
  In (RenamePath old new)
     (moves ++ map (fun folderName => RemoveTree (Path.join directory folderName)) folders)
  <-> In (RenamePath old new) moves.
Proof.
  rewrite in_app_iff, in_map_iff.
  split; [intros [H | (x & Hx & _)]; [exact H | discriminate] | now left].
Qed.

Lemma moves_only_rename (directory : jsstring) (files : list jsstring) (m : Mutation) :
  In m (filterMap (hoistMove directory) files) ->
  exists old new, m = RenamePath old new.
Proof.
  intros H. apply filterMap_In in H as (x & _ & H). unfold hoistMove in H.
  destruct (str_eqb _ _); [discriminate|]. injection H as <-. eauto.
Qed.

End Hoisting.

(** X6. [hoistFiles] on files that lie under the directory.  Unless
    the user agrees it starts nothing, and it never unlinks.  It moves
    exactly the listed files of the subfolders, each into the
    directory under its own name; a file that is in the directory
    already is left alone.  The folders of the directory are removed
    only when every move has succeeded, and then all of them are. *)
Theorem X6_hoist_moves_then_removes :
  forall d renames directory files userAgreed,
    (forall q, In q files -> under directory q) ->
    let started := hoistFiles d renames directory files userAgreed in
    let allMoved :=
      forall old new, In (RenamePath old new) started -> renames old new = true in
    (userAgreed <> Agreed -> started = [])
    /\ (forall q, ~ In (Unlink q) started)
    /\ (forall old new,
           In (RenamePath old new) started
           <-> userAgreed = Agreed /\ In old files
               /\ exists chain f,
                   chain <> [] /\ Forall plain chain /\ plain f
                   /\ old = Path.join (descend directory chain) f
                   /\ new = Path.join directory f)
    /\ (forall f new,
           plain f -> ~ In (RenamePath (Path.join directory f) new) started)
    /\ (forall target,
           In (RemoveTree target) started ->
           allMoved
           /\ exists folderName,
               In folderName (Listing.getFolderNames d directory)
               /\ target = Path.join directory folderName)
    /\ (userAgreed = Agreed -> allMoved ->
        forall folderName,
          In folderName (Listing.getFolderNames d directory) ->
          In (RemoveTree (Path.join directory folderName)) started).
Proof.
  intros d renames directory files userAgreed Hunder started allMoved.
  assert (Hren : forall old new,
             In (RenamePath old new) started
             <-> userAgreed = Agreed
                 /\ In (RenamePath old new) (filterMap (hoistMove directory) files)).
  { intros old new. subst started. unfold hoistFiles.
    destruct userAgreed; try (split; [intros [] | intros [[=] _]]).
    destruct (forallb _ _); [rewrite In_rename_app|]; tauto. }
  assert (Hmoves : forall old new,
             In (RenamePath old new) (filterMap (hoistMove directory) files)
             <-> In old files
                 /\ exists chain f,
                     chain <> [] /\ Forall plain chain /\ plain f
                     /\ old = Path.join (descend directory chain) f
                     /\ new = Path.join directory f).
  { intros old new. rewrite filterMap_In. split.
    - intros (x & Hx & Hm).
      destruct (hoistMove_under directory x _ (Hunder x Hx) Hm)
        as (chain & f & Hne & Hch & Hf & Ex & Em).
      injection Em as -> ->.
      split; [exact Hx|]. exists chain, f. tauto.
    - intros (Hin & chain & f & Hne & Hch & Hf & -> & ->).
      eexists; split; [exact Hin|]. now apply hoistMove_deep. }
  assert (Hall : forallb (fun m => match m with
                                   | RenamePath o n => renames o n
                                   | _ => true
                                   end) (filterMap (hoistMove directory) files) = true
                 <-> forall old new,
                     In (RenamePath old new) (filterMap (hoistMove directory) files) ->
                     renames old new = true).
  { rewrite forallb_forall. split.
    - intros H old new Hin. exact (H _ Hin).
    - intros H m Hin.
      destruct (moves_only_rename _ _ _ Hin) as (old & new & ->). now apply H. }
  split; [|split; [|split; [|split; [|split]]]].
  - subst started. unfold hoistFiles. destruct userAgreed; congruence.
  - intros q. subst started. unfold hoistFiles.
    destruct userAgreed; try (intros []).
    intros H.
    assert (Hq : In (Unlink q) (filterMap (hoistMove directory) files)).
    { destruct (forallb _ _); [|exact H].
      apply in_app_iff in H as [H | H]; [exact H|].
      apply in_map_iff in H as (x & Hx & _). discriminate. }
    destruct (moves_only_rename _ _ _ Hq) as (old & new & [=]).
  - intros old new. rewrite Hren, Hmoves. tauto.
  - intros f new Hf H. apply Hren in H as [_ H].
    apply Hmoves in H as (_ & chain & g & Hne & Hch & Hg & E & _).
    symmetry in E. now apply deeper_differs in E.
  - intros target H. subst started allMoved. unfold hoistFiles in *.
    destruct userAgreed; try (destruct H).
    destruct (forallb _ _) eqn:Eall.
    + split.
      * intros old new Hin. apply In_rename_app in Hin.
        now apply (proj1 Hall eq_refl).
      * apply in_app_iff in H as [H | H].
        -- destruct (moves_only_rename _ _ _ H) as (old & new & [=]).
        -- apply in_map_iff in H as (x & [= <-] & Hx). eauto.
    + destruct (moves_only_rename _ _ _ H) as (old & new & [=]).
  - intros -> Hmoved folderName Hin. subst started allMoved.
    unfold hoistFiles in *.
    destruct (forallb _ _) eqn:Eall.
    + apply in_app_iff. right. apply in_map_iff. now exists folderName.
    + discriminate (proj2 Hall Hmoved).
Qed.

(** X7. [promptNonVideoPurge] unlinks, and only once the user has
    agreed, exactly the listed paths whose extension in lower case is
    not a video extension: for a file name in a folder, exactly when
    the mapping builder does not take the name for a video.  So the
    file of a mapping with an episode is never purged. *)
Theorem X7_purge_spares_videos :
  forall files userAgreed,
    (forall m, In m (promptNonVideoPurge files userAgreed) ->
               exists q, m = Unlink q /\ In q files)
    /\ (forall folder f,
           plain f ->
           (In (Unlink (Path.join folder f)) (promptNonVideoPurge files userAgreed)
            <-> userAgreed = Agreed /\ In (Path.join folder f) files
                /\ fileIsVideo f = false))
    /\ (forall sn sf snum f eps force,
           ~ In c_slash f ->
           episode (value (generateEpisodeName sn sf snum f eps force)) <> None ->
           ~ In (Unlink (originalPath
                           (value (generateEpisodeName sn sf snum f eps force))))
                (promptNonVideoPurge files userAgreed)).
Proof.
  intros files userAgreed.
  assert (Hjoin : forall folder f,
             plain f ->
             (In (Unlink (Path.join folder f)) (promptNonVideoPurge files userAgreed)
              <-> userAgreed = Agreed /\ In (Path.join folder f) files
                  /\ fileIsVideo f = false)).
  { intros folder f Hf. unfold promptNonVideoPurge, nonVideoFiles.
    destruct userAgreed; try (split; [intros [] | intros [[=] _]]).
    rewrite in_map_iff. split.
    - intros (q & [= ->] & Hq). apply filter_In in Hq as [Hq Hv].
      rewrite (extname_join _ _ Hf), negb_true_iff in Hv. auto.
    - intros (_ & Hq & Hv). eexists; split; [reflexivity|].
      apply filter_In. split; [exact Hq|].
      rewrite (extname_join _ _ Hf), negb_true_iff. exact Hv. }
  split; [|split; [exact Hjoin|]].
  - intros m. unfold promptNonVideoPurge, nonVideoFiles.
    destruct userAgreed; try (intros []).
    rewrite in_map_iff. intros (q & <- & Hq). apply filter_In in Hq as [Hq _]. eauto.
  - intros sn sf snum f eps force Hs He.
    destruct (generateEpisodeName_cases sn sf snum f eps force)
      as [E | (n & e & Hv & _)]; [now rewrite E in He|].
    destruct (generateEpisodeName_paths sn sf snum f eps force) as (_ & _ & ->).
    intros H. apply (Hjoin sf f (video_plain f Hv Hs)) in H as (_ & _ & H).
    congruence.
Qed.

(** ** The move prompt and the main menu *)

Section Menus.

Lemma existsb_str_eqb (x : jsstring) (l : list jsstring) :
  existsb (fun y => str_eqb y x) l = true <-> In x l.
Proof.
  rewrite existsb_exists. split.
  - intros (y & Hy & E). apply str_eqb_eq in E. now subst.
  - intros H. exists x. split; [exact H | apply str_eqb_refl].
Qed.

End Menus.

(** X8. The move prompt finds the target taken exactly when the
    directory shown has a folder with the name of the folder to move.
    Opened on a folder of the current directory, as the main menu
    opens it, the target is the folder itself and is not acceptable,
    and the key [a] would rename the folder to itself; in a directory
    without a folder of that name the target is acceptable and [a]
    moves the folder there under its name. *)
Theorem X8_move_target :
  forall d currentDirectory,
    (forall folderToMove,
        folderAlreadyExists (promptMoveFolder d currentDirectory folderToMove) = true
        <-> In (Path.basename folderToMove)
               (Listing.getFolderNames d currentDirectory))
    /\ (forall folderName,
           plain folderName ->
           In folderName (Listing.getFolderNames d currentDirectory) ->
           let folderToMove := Path.join currentDirectory folderName in
           let prompt := promptMoveFolder d currentDirectory folderToMove in
           currentMoveTarget prompt = folderToMove
           /\ targetIsAcceptable prompt = false
           /\ acceptMove folderToMove prompt = RenamePath folderToMove folderToMove)
    /\ (forall source folderName,
           plain folderName ->
           ~ In folderName (Listing.getFolderNames d currentDirectory) ->
           let folderToMove := Path.join source folderName in
           let prompt := promptMoveFolder d currentDirectory folderToMove in
           targetIsAcceptable prompt = true
           /\ acceptMove folderToMove prompt
              = RenamePath folderToMove (Path.join currentDirectory folderName)).
Proof.
  intros d cur. split; [|split].
  - intros folderToMove. unfold promptMoveFolder. cbn [folderAlreadyExists].
    apply existsb_str_eqb.
  - intros folderName Hp Hin folderToMove prompt. subst prompt folderToMove.
    unfold acceptMove, promptMoveFolder.
    cbn [currentMoveTarget targetIsAcceptable].
    rewrite (basename_join _ _ Hp).
    rewrite (proj2 (existsb_str_eqb folderName _) Hin). auto.
  - intros source folderName Hp Hnot folderToMove prompt. subst prompt folderToMove.
    unfold acceptMove, promptMoveFolder.
    cbn [currentMoveTarget targetIsAcceptable].
    rewrite (basename_join _ _ Hp).
    destruct (existsb _ _) eqn:E; [|auto].
    apply existsb_str_eqb in E. contradiction.
Qed.

(** X9. The main menu offers the parent entry first and then every
    name of the listing once, the folders before the files; name,
    message and value of a choice are the listed name, and a choice
    is disabled exactly when its path is not a directory. *)
Theorem X9_main_menu_choices :
  forall d currentDirectory,
    exists entries,
      mainMenuOptions d currentDirectory
      = {| opt_name := lit ".."; opt_message := lit ".."; opt_value := lit "..";
           opt_disabled := NotSet |} :: entries
      /\ map opt_value entries
         = Listing.getFolderNames d currentDirectory
           ++ Listing.getFileNames d currentDirectory
      /\ Permutation (map opt_value entries) (Listing.readdir d currentDirectory)
      /\ forall o,
          In o entries ->
          opt_name o = opt_value o /\ opt_message o = opt_value o
          /\ isDisabled o
             = negb (Listing.isFolder d (Path.join currentDirectory (opt_value o))).
Proof.
  intros d cur. eexists. split; [reflexivity|].
  assert (Hv : forall dis (l : list jsstring),
             map opt_value
                 (map (fun folderName =>
                         {| opt_name := folderName; opt_message := folderName;
                            opt_value := folderName; opt_disabled := dis |}) l) = l).
  { intros dis l. rewrite map_map. cbn [opt_value]. apply map_id. }
  split; [now rewrite map_app, !Hv|].
  split.
  - rewrite map_app, !Hv.
    unfold Listing.getFolderNames, Listing.getFileNames.
    rewrite !filterAsync_filter. apply filter_partition_perm.
  - intros o Ho. apply in_app_iff in Ho as [Ho | Ho];
      apply in_map_iff in Ho as (n & <- & Hn);
      unfold Listing.getFolderNames, Listing.getFileNames in Hn;
      rewrite filterAsync_filter in Hn; apply filter_In in Hn as [_ Hn];
      cbn [opt_name opt_message opt_value isDisabled opt_disabled].
    + now rewrite Hn.
    + apply negb_true_iff in Hn. now rewrite Hn.
Qed.

(** ** The sanitizer, continued *)

(** X10. The sanitizer returns a string unchanged exactly when the
    string has none of the code units it replaces; and it never drops
    another code unit. *)
Theorem X10_sanitize_fixed_points :
  forall s,
    (sanitize s = s <-> forall c, In c sanitizedAway -> ~ In c s)
    /\ (forall c, ~ In c sanitizedAway -> In c s -> In c (sanitize s)).
Proof.
  intros s. split; [split|].
  - intros E c Hc. rewrite <- E. now apply sanitize_clean.
  - intros H. apply applyReplaces_id. unfold untouched, episodeReplaces.
    repeat constructor; cbn [pattern lit map list_ascii_of_string];
      apply H; cbn; tauto.
  - intros c Hc Hin. apply applyReplaces_keeps; [|exact Hin].
    unfold episodeReplaces. cbn [forallb pattern].
    rewrite !andb_true_iff.
    repeat split; apply negb_true_iff, mem_false; cbn;
      intros H; apply Hc; cbn; tauto.
Qed.

(** ** The dispatcher *)

Section Dispatch.

Variable generated : SeasonMapping.
Variable seriesFound : bool.

Lemma keyIs_In (k : Workflow.KeyPress) :
  fromKeyboard k -> Workflow.isBackspace k = true ->
  forall c, In (lit c) commandKeys -> Workflow.keyIs k c = false.
Proof.
  intros Hk Hb c Hc. unfold Workflow.keyIs. apply str_eqb_neq.
  intros E. apply (Hk Hb). now rewrite E.
Qed.

Lemma folderSelection_backspace (k : Workflow.KeyPress) (b : Workflow.Browser) :
  fromKeyboard k -> Workflow.isBackspace k = true ->
  Workflow.handleFolderSelectionKeyPress k b = b.
Proof.
  intros Hk Hb. unfold Workflow.handleFolderSelectionKeyPress.
  rewrite !(keyIs_In k Hk Hb) by (cbn; tauto). reflexivity.
Qed.

End Dispatch.

(** At most one of the tests of the key holds: once the key is
    known, the other tests compute. *)
Ltac one_key k :=
  unfold Workflow.keyIs in *;
  repeat match goal with
         | |- context [str_eqb (Workflow.key k) (lit ?c)] =>
             let E := fresh "E" in
             destruct (str_eqb (Workflow.key k) (lit c)) eqn:E;
             [apply str_eqb_eq in E; rewrite ?E; cbn;
              solve [reflexivity | discriminate | intros; discriminate] |]
         end;
  cbn; solve [reflexivity | discriminate | intros; discriminate].


(** X11. For a keypress as the terminal sends it, the dispatcher
    runs the handler of the prompt that is current when the key
    arrives and no other, although it tests the prompt again after
    each handler; the prompts without a handler ignore the key. *)
Theorem X11_one_handler_per_key :
  forall generated seriesFound k b,
    fromKeyboard k ->
    Workflow.handleKeyPress generated seriesFound k b
    = handlerOf generated seriesFound (Workflow.currentPrompt b) k b.
Proof.
  intros generated seriesFound k b Hk.
  destruct b as [p renames ex]. cbn [Workflow.currentPrompt].
  destruct (Workflow.isBackspace k) eqn:Hb.
  - destruct p; unfold Workflow.handleKeyPress, handlerOf, Workflow.inPrompt;
      cbn [Workflow.currentPrompt Workflow.Prompt_eqb Workflow.when];
      rewrite ?(folderSelection_backspace k _ Hk Hb);
      cbn [Workflow.currentPrompt Workflow.Prompt_eqb Workflow.when];
      try reflexivity;
      unfold Workflow.handleMoveFolderKeyPress, Workflow.handleHoistFilesKeyPress,
        Workflow.handleNonVideoPurgeKeyPress, Workflow.handleSeriesLanguageKeyPress,
        Workflow.handleSeriesSuggestionsKeyPress,
        Workflow.handleEpisodeRenamesKeyPress, Workflow.handleAssignEpisodeKeyPress;
      rewrite Hb, ?(keyIs_In k Hk Hb "a" ltac:(cbn; tauto));
      cbn; try reflexivity;
      destruct seriesFound; reflexivity.
  - destruct p; unfold Workflow.handleKeyPress, handlerOf, Workflow.inPrompt,
      Workflow.handleFolderSelectionKeyPress,
      Workflow.handleMoveFolderKeyPress, Workflow.handleHoistFilesKeyPress,
      Workflow.handleNonVideoPurgeKeyPress, Workflow.handleSeriesLanguageKeyPress,
      Workflow.handleSeriesSuggestionsKeyPress,
      Workflow.handleEpisodeRenamesKeyPress, Workflow.handleAssignEpisodeKeyPress;
      rewrite ?Hb; one_key k.
Qed.

(** ** The episodes offered for a reassignment *)

Section EpisodeSelection.

Variable seriesDetails : Series.
Variable targetSeason : option Z.









End EpisodeSelection.


(** ** Manual reassignment *)

Section Reassignment.

Lemma replaceAssigned_In series em selected mappings m :
  let assigned :=
    generateEpisodeName (seriesName series) (seasonFolder (value em))
      (seasonNumber (value em)) (Path.basename (originalPath (value em)))
      (episodesOfSeason series (airedSeason selected))
      (Some (airedEpisodeNumber selected)) in
  In m (replaceAssigned series em selected mappings)
  <-> (In m mappings /\ name m <> name em)
      \/ (m = assigned /\ exists m0, In m0 mappings /\ name m0 = name em).
Proof.
  intros assigned. unfold replaceAssigned. fold assigned.
  rewrite in_map_iff. split.
  - intros (m0 & <- & Hin). destruct (str_eqb (name m0) (name em)) eqn:E.
    + apply str_eqb_eq in E. right. split; [reflexivity|]. now exists m0.
    + apply str_eqb_neq in E. left. now split.
  - intros [[Hin Hne] | [-> (m0 & Hin & E)]].
    + exists m. split; [|exact Hin].
      now rewrite (proj2 (str_eqb_neq _ _) Hne).
    + exists m0. split; [|exact Hin].
      now rewrite (proj2 (str_eqb_eq _ _) E).
Qed.

Lemma find_present {A} (p : A -> bool) (l : list A) (x : A) :
  In x l -> p x = true -> exists y, find p l = Some y.
Proof.
  intros Hin Hp. destruct (find p l) as [y|] eqn:E; [now exists y|].
  rewrite (find_none p l E x Hin) in Hp. discriminate.
Qed.

End Reassignment.

(** X13. A reassignment in a structure without an entry for the
    season of the file fails.  Otherwise it touches the entry of that
    season only: the folder name stays, as many mappings as before
    are listed, every mapping with another name than the one chosen
    is kept, and every mapping with that name is replaced by the
    mapping generated for the file of the chosen one.  For a video
    file and an episode of the series that mapping has the first
    episode of the chosen episode's season with its number; for a
    file that is no video it is the unchanged mapping, whatever
    episode is chosen. *)
Theorem X13_reassignment_effect :
  forall series em selected renames,
    let season := seasonNumber (value em) in
    let file := Path.basename (originalPath (value em)) in
    let assigned :=
      generateEpisodeName (seriesName series) (seasonFolder (value em)) season
        file (episodesOfSeason series (airedSeason selected))
        (Some (airedEpisodeNumber selected)) in
    (obj_get season renames = None ->
     assignEpisode series em selected renames = None)
    /\ (forall entry,
           obj_get season renames = Some entry ->
           exists renames' entry',
             assignEpisode series em selected renames = Some renames'
             /\ obj_get season renames' = Some entry'
             /\ (forall k, k <> season -> obj_get k renames' = obj_get k renames)
             /\ folderName entry' = folderName entry
             /\ List.length (episodeMappings entry')
                = List.length (episodeMappings entry)
             /\ forall m,
                 In m (episodeMappings entry')
                 <-> (In m (episodeMappings entry) /\ name m <> name em)
                     \/ (m = assigned
                         /\ exists m0, In m0 (episodeMappings entry)
                                       /\ name m0 = name em))
    /\ (In selected (episodes series) -> fileIsVideo file = true ->
        exists e,
          Array_find (hasNumber (airedEpisodeNumber selected))
                     (episodesOfSeason series (airedSeason selected)) = Some e
          /\ episode (value assigned) = Some e
          /\ In e (episodes series)
          /\ airedSeason e = airedSeason selected
          /\ airedEpisodeNumber e = airedEpisodeNumber selected)
    /\ (fileIsVideo file = false ->
        assigned = unchangedEpisodeMapping (seasonFolder (value em)) season file).
Proof.
  intros series em selected renames season file assigned.
  split; [|split; [|split]].
  - intros H. unfold assignEpisode. fold season. now rewrite H.
  - intros entry H. unfold assignEpisode. fold season. rewrite H.
    eexists. eexists. split; [reflexivity|].
    split; [apply obj_get_set|].
    split; [intros k Hk; now apply obj_get_set_neq|].
    split; [reflexivity|]. cbn [episodeMappings].
    split.
    + rewrite (Permutation_length (Array_sort_perm _ _)).
      unfold replaceAssigned. apply length_map.
    + intros m. rewrite Array_sort_In. apply replaceAssigned_In.
  - intros Hsel Hv.
    destruct (find_present (hasNumber (airedEpisodeNumber selected))
                (episodesOfSeason series (airedSeason selected)) selected)
      as (e & He).
    { unfold episodesOfSeason. apply filter_In. split; [exact Hsel | apply Z.eqb_refl]. }
    { unfold hasNumber. apply Z.eqb_refl. }
    exists e. split; [exact He|].
    destruct (find_some_number _ _ _ He) as [Hin Hnum].
    unfold episodesOfSeason in Hin. apply filter_In in Hin as [Hin Hseason].
    apply Z.eqb_eq in Hseason.
    split; [|auto].
    subst assigned.
    now rewrite (generateEpisodeName_matched (seriesName series)
                   (seasonFolder (value em)) season file
                   (episodesOfSeason series (airedSeason selected))
                   (Some (airedEpisodeNumber selected))
                   (airedEpisodeNumber selected) e Hv eq_refl He).
  - intros Hv. now apply generateEpisodeName_notVideo.
Qed.

(** ** Season folders with the same number *)

Section SeasonKeys.

Lemma obj_set_keys (k : Z) (v : SeasonEntry) (o : SeasonMapping) :
  forall kv, In kv (obj_set k v o) -> fst kv = k \/ In (fst kv) (map fst o).
Proof.
  intros kv H. apply obj_set_In in H as [-> | H]; [now left|].
  right. now apply in_map.
Qed.

Lemma obj_set_unfold (k : Z) (v : SeasonEntry) (k' : Z) (v' : SeasonEntry)
      (o : SeasonMapping) :
  obj_set k v ((k', v') :: o)
  = if (k =? k')%Z then (k, v) :: o
    else if isArrayIndex k && (negb (isArrayIndex k') || (k <? k')%Z)
         then (k, v) :: (k', v') :: o
         else (k', v') :: obj_set k v o.
Proof. reflexivity. Qed.

(** The order of the keys and their uniqueness are kept by an
    assignment. *)
Lemma obj_set_order (k : Z) (v : SeasonEntry) (o : SeasonMapping) :
  keysInOrder (map fst o) -> NoDup (map fst o) ->
  keysInOrder (map fst (obj_set k v o)) /\ NoDup (map fst (obj_set k v o)).
Proof.
  induction o as [|[k' v'] o IH]; intros Hord Hnd.
  - cbn [obj_set map fst keysInOrder]. split.
    + split; [destruct (isArrayIndex k); constructor | exact I].
    + repeat constructor. intros [].
  - rewrite obj_set_unfold. cbn [map fst keysInOrder] in Hord, Hnd.
    destruct Hord as [Hhead Hord].
    inversion Hnd as [|? ? Hnot Hnd']; subst.
    destruct (k =? k')%Z eqn:E.
    { apply Z.eqb_eq in E. subst k'. cbn [map fst keysInOrder].
      split; [split; assumption | exact Hnd]. }
    apply Z.eqb_neq in E.
    destruct (isArrayIndex k) eqn:Ik; cbn [andb].
    + destruct (isArrayIndex k') eqn:Ik'; cbn [negb orb].
      * destruct (k <? k')%Z eqn:L.
        -- apply Z.ltb_lt in L. cbn [map fst keysInOrder]. rewrite Ik, Ik'.
           rewrite Forall_forall in Hhead.
           split.
           ++ split; [|split; [now apply Forall_forall | exact Hord]].
              constructor; [intros _; exact L|].
              apply Forall_forall. intros x Hx Ix.
              specialize (Hhead x Hx Ix). lia.
           ++ constructor; [|exact Hnd].
              intros [H | H]; [congruence|].
              specialize (Hhead k H Ik). lia.
        -- apply Z.ltb_ge in L.
           destruct (IH Hord Hnd') as [IHo IHn].
           cbn [map fst keysInOrder]. rewrite Ik'. split.
           ++ split; [|exact IHo].
              rewrite Forall_forall in *. intros x Hx Ix.
              apply in_map_iff in Hx as (kv & <- & Hkv).
              destruct (obj_set_keys _ _ _ _ Hkv) as [-> | H]; [lia|].
              now apply Hhead.
           ++ constructor; [|exact IHn].
              intros H. apply in_map_iff in H as (kv & Hk & Hkv).
              destruct (obj_set_keys _ _ _ _ Hkv) as [H | H]; [congruence|].
              apply Hnot. now rewrite <- Hk.
      * cbn [map fst keysInOrder]. rewrite Ik, Ik'.
        rewrite Forall_forall in Hhead. split.
        -- split; [|split; [now apply Forall_forall | exact Hord]].
           constructor; [congruence|].
           apply Forall_forall. intros x Hx Ix.
           rewrite (Hhead x Hx) in Ix. discriminate.
        -- constructor; [|exact Hnd].
           intros [H | H]; [congruence|].
           rewrite (Hhead k H) in Ik. discriminate.
    + destruct (IH Hord Hnd') as [IHo IHn].
      cbn [map fst keysInOrder]. split.
      * split; [|exact IHo].
        destruct (isArrayIndex k') eqn:Ik'.
        -- rewrite Forall_forall in *. intros x Hx Ix.
           apply in_map_iff in Hx as (kv & <- & Hkv).
           destruct (obj_set_keys _ _ _ _ Hkv) as [H | H];
             [rewrite H in Ix; congruence | now apply Hhead].
        -- rewrite Forall_forall in *. intros x Hx.
           apply in_map_iff in Hx as (kv & <- & Hkv).
           destruct (obj_set_keys _ _ _ _ Hkv) as [-> | H];
             [exact Ik | now apply Hhead].
      * constructor; [|exact IHn].
        intros H. apply in_map_iff in H as (kv & Hk & Hkv).
        destruct (obj_set_keys _ _ _ _ Hkv) as [H | H]; [congruence|].
        apply Hnot. now rewrite <- Hk.
Qed.

Lemma obj_get_unique_In (k : Z) (v : SeasonEntry) (o : SeasonMapping) :
  NoDup (map fst o) ->
  (In (k, v) o <-> obj_get k o = Some v).
Proof.
  induction o as [|[k' v'] o IH]; intros Hnd; cbn [obj_get In].
  - split; [intros [] | discriminate].
  - cbn [map fst] in Hnd. inversion Hnd as [|? ? Hnot Hnd']; subst.
    destruct (k =? k')%Z eqn:E.
    + apply Z.eqb_eq in E. subst k'. split.
      * intros [[= ->] | H]; [reflexivity|].
        exfalso. apply Hnot. now apply (in_map fst) in H.
      * intros [= ->]. now left.
    + apply Z.eqb_neq in E. rewrite <- (IH Hnd'). split.
      * intros [[= -> ->] | H]; [congruence | exact H].
      * now right.
Qed.

Lemma keysInOrder_pair (keys : list Z) :
  keysInOrder keys ->
  forall pre k mid k' post,
    keys = pre ++ k :: mid ++ k' :: post ->
    isArrayIndex k' = true -> isArrayIndex k = true /\ (k < k')%Z.
Proof.
  intros Hord pre. revert keys Hord.
  induction pre as [|p pre IH]; intros keys Hord k mid k' post -> Ik'.
  - cbn [app keysInOrder] in Hord. destruct Hord as [Hhead _].
    assert (Hin : In k' (mid ++ k' :: post)) by (apply in_or_app; right; now left).
    destruct (isArrayIndex k); rewrite Forall_forall in Hhead.
    + split; [reflexivity | now apply Hhead].
    + rewrite (Hhead k' Hin) in Ik'. discriminate.
  - cbn [app keysInOrder] in Hord. destruct Hord as [_ Hord].
    exact (IH _ Hord k mid k' post eq_refl Ik').
Qed.

Lemma keysInOrder_sorted (keys : list Z) :
  keysInOrder keys ->
  (forall k, In k keys -> isArrayIndex k = true) ->
  StronglySorted Z.lt keys.
Proof.
  induction keys as [|k keys IH]; intros Hord Hall; [constructor|].
  destruct Hord as [Hhead Hord].
  constructor; [apply IH; [exact Hord | intros x Hx; apply Hall; now right]|].
  rewrite (Hall k (or_introl eq_refl)) in Hhead.
  rewrite Forall_forall in *. intros x Hx. apply Hhead; [exact Hx|].
  apply Hall. now right.
Qed.

Lemma existsb_otherKeys (k : Z) (keys : list Z) :
  isArrayIndex k = false ->
  existsb (Z.eqb k) (otherKeys keys) = existsb (Z.eqb k) keys.
Proof.
  intros Ik. induction keys as [|x keys IH]; [reflexivity|].
  unfold otherKeys in *. cbn [filter existsb].
  destruct (isArrayIndex x) eqn:Ix; cbn [negb existsb]; rewrite IH; [|reflexivity].
  destruct (k =? x)%Z eqn:E; [|reflexivity].
  apply Z.eqb_eq in E. congruence.
Qed.

Lemma obj_set_other_key (k : Z) (v : SeasonEntry) (o : SeasonMapping) :
  isArrayIndex k = false ->
  map fst (obj_set k v o)
  = if existsb (Z.eqb k) (map fst o) then map fst o else map fst o ++ [k].
Proof.
  intros Ik. induction o as [|[k' v'] o IH]; [reflexivity|].
  rewrite obj_set_unfold. rewrite Ik. cbn [andb map fst existsb].
  destruct (k =? k')%Z eqn:E; cbn [orb map fst].
  - apply Z.eqb_eq in E. now subst.
  - rewrite IH. now destruct (existsb (Z.eqb k) (map fst o)).
Qed.

Lemma obj_set_index_key (k : Z) (v : SeasonEntry) (o : SeasonMapping) :
  isArrayIndex k = true ->
  otherKeys (map fst (obj_set k v o)) = otherKeys (map fst o).
Proof.
  intros Ik. unfold otherKeys.
  induction o as [|[k' v'] o IH]; [cbn; now rewrite Ik|].
  rewrite obj_set_unfold.
  destruct (k =? k')%Z eqn:E.
  - apply Z.eqb_eq in E. now subst.
  - destruct (isArrayIndex k && _); cbn [map fst filter].
    + now rewrite Ik.
    + now rewrite IH.
Qed.

Lemma firstSeen_snoc (l : list Z) (k : Z) :
  firstSeen (l ++ [k])
  = if existsb (Z.eqb k) (firstSeen l) then firstSeen l else firstSeen l ++ [k].
Proof. unfold firstSeen. now rewrite fold_left_app. Qed.

Variable entryOf : FolderSeasonMatch -> SeasonEntry.

Lemma collected_spec (infos : list FolderSeasonMatch) :
  let result :=
    fold_left (fun result info => obj_set (season info) (entryOf info) result)
              infos [] in
  keysInOrder (map fst result)
  /\ NoDup (map fst result)
  /\ otherKeys (map fst result) = firstSeen (otherKeys (map season infos))
  /\ forall k,
      obj_get k result
      = option_map entryOf (find (fun info => (season info =? k)%Z) (rev infos)).
Proof.
  induction infos as [|info infos (IHo & IHn & IHf & IHg)] using rev_ind.
  - repeat split. constructor.
  - cbv zeta in *. rewrite fold_left_app. cbn [fold_left].
    destruct (obj_set_order (season info) (entryOf info) _ IHo IHn) as [Ho Hn].
    split; [exact Ho|]. split; [exact Hn|]. split.
    + rewrite map_app. cbn [map]. unfold otherKeys at 2. rewrite filter_app.
      fold (otherKeys (map season infos)). cbn [filter].
      destruct (isArrayIndex (season info)) eqn:Ik; cbn [negb].
      * rewrite app_nil_r, <- IHf. now apply obj_set_index_key.
      * rewrite firstSeen_snoc, <- IHf.
        rewrite (existsb_otherKeys _ _ Ik).
        rewrite (obj_set_other_key _ _ _ Ik).
        destruct (existsb _ _); [reflexivity|].
        unfold otherKeys. rewrite filter_app. cbn [filter]. now rewrite Ik.
    + intros k. rewrite rev_app_distr. cbn [rev app find].
      destruct (season info =? k)%Z eqn:E.
      * apply Z.eqb_eq in E. subst k. apply obj_get_set.
      * apply Z.eqb_neq in E. rewrite obj_get_set_neq by congruence. apply IHg.
Qed.

End SeasonKeys.

Section BuiltEntries.

Variable fs : FileSystem.
Variable seriesDirectory : jsstring.
Variable seriesDetails : Series.

Lemma generateEpisodeNames_spec :
  let renames := generateEpisodeNames fs seriesDirectory seriesDetails in
  keysInOrder (map fst renames)
  /\ NoDup (map fst renames)
  /\ otherKeys (map fst renames)
     = firstSeen (otherKeys (map season (seasonFoldersOf fs seriesDirectory)))
  /\ forall k,
      obj_get k renames
      = option_map (seasonEntryOf fs seriesDirectory seriesDetails)
                   (lastFolderOf fs seriesDirectory k).
Proof.
  exact (collected_spec (seasonEntryOf fs seriesDirectory seriesDetails)
                        (seasonFoldersOf fs seriesDirectory)).
Qed.

Lemma generateEpisodeNames_entries (k : Z) (entry : SeasonEntry) :
  In (k, entry) (generateEpisodeNames fs seriesDirectory seriesDetails)
  <-> exists info,
      lastFolderOf fs seriesDirectory k = Some info
      /\ entry = seasonEntryOf fs seriesDirectory seriesDetails info.
Proof.
  destruct generateEpisodeNames_spec as (_ & Hn & _ & Hg).
  rewrite (obj_get_unique_In k entry _ Hn), Hg.
  destruct (lastFolderOf fs seriesDirectory k) as [info|]; cbn [option_map].
  - split; [intros [= <-]; now exists info | intros (i & [= <-] & ->); reflexivity].
  - split; [discriminate | intros (i & [=] & _)].
Qed.

Lemma lastFolderOf_season (k : Z) (info : FolderSeasonMatch) :
  lastFolderOf fs seriesDirectory k = Some info -> season info = k.
Proof.
  unfold lastFolderOf. intros H. apply find_some in H as [_ H].
  now apply Z.eqb_eq.
Qed.

Lemma built_from (sf : jsstring) (k : Z) (m : EpisodeMapping) :
  In m (generateEpisodeNamesForSeason fs sf k seriesDetails)
  <-> exists f,
      In f (getFileNames fs sf)
      /\ m = generateEpisodeName (seriesName seriesDetails) sf k f
                                 (episodesOfSeason seriesDetails k) None.
Proof.
  unfold generateEpisodeNamesForSeason. rewrite Array_sort_In.
  unfold seasonFileMappings. rewrite in_map_iff.
  split; intros (f & H1 & H2); exists f; [now split | now split].
Qed.

End BuiltEntries.

(** The season 7 comes first, the two larger numbers follow as
    their folders are listed. *)
Example keys_of_large_numbers :
  map fst (generateEpisodeNames largeNumbers (lit "Show") showSeries)
  = [7; 4294967296; 4294967295]%Z.
Proof. reflexivity. Qed.

(** X14. The structure the builder returns has each season once.
    Where several folders of the series directory carry the same
    number, the season has the entry of the last of them in the
    listing; the files of the others are in no entry of the
    structure.  The seasons stand in the order of an object's keys:
    the numbers that are array indices (up to 2^32 - 2) come first,
    in ascending order, so that a structure of such numbers only is
    strictly ascending; larger numbers follow in the order in which
    their first folders are listed. *)
Theorem X14_last_folder_wins :
  forall fs seriesDirectory seriesDetails,
    let renames := generateEpisodeNames fs seriesDirectory seriesDetails in
    NoDup (map fst renames)
    /\ (forall k,
           obj_get k renames
           = option_map (seasonEntryOf fs seriesDirectory seriesDetails)
                        (lastFolderOf fs seriesDirectory k))
    /\ (forall k entry,
           In (k, entry) renames
           <-> exists info,
               lastFolderOf fs seriesDirectory k = Some info
               /\ entry = seasonEntryOf fs seriesDirectory seriesDetails info)
    /\ (forall k entry m,
           In (k, entry) renames -> In m (episodeMappings entry) ->
           exists info,
             lastFolderOf fs seriesDirectory k = Some info
             /\ seasonFolder (value m)
                = Path.join seriesDirectory (fsm_folderName info))
    /\ (forall pre k mid k' post,
           map fst renames = pre ++ k :: mid ++ k' :: post ->
           isArrayIndex k' = true ->
           isArrayIndex k = true /\ (k < k')%Z)
    /\ ((forall k, In k (map fst renames) -> isArrayIndex k = true) ->
        StronglySorted Z.lt (map fst renames))
    /\ otherKeys (map fst renames)
       = firstSeen (otherKeys (map season (seasonFoldersOf fs seriesDirectory))).
Proof.
  intros fs dir sd renames.
  destruct (generateEpisodeNames_spec fs dir sd) as (Ho & Hn & Hf & Hg).
  split; [exact Hn|]. split; [exact Hg|].
  split; [apply generateEpisodeNames_entries|].
  split.
  { intros k entry m Hk Hm.
    apply generateEpisodeNames_entries in Hk as (info & Hlast & ->).
    exists info. split; [exact Hlast|].
    cbn [seasonEntryOf episodeMappings] in Hm.
    apply built_from in Hm as (f & _ & ->).
    apply generateEpisodeName_paths. }
  split; [exact (keysInOrder_pair _ Ho)|].
  split; [exact (keysInOrder_sorted _ Ho) | exact Hf].
Qed.

(** ** What the pipeline renames *)

Section Pipeline.

Variable fs : FileSystem.

Lemma run_issued_allCalls (episodeRenames : SeasonMapping) :
  run_issued (renameEpisodes fs episodeRenames) = allCalls episodeRenames.
Proof.
  unfold renameEpisodes, allCalls.
  destruct (mapS_renameSeason fs (Object_values episodeRenames)
              {| renamedFileCount := 0; issued := [] |}) as (_ & Hi & _).
  destruct (mapS (renameSeason fs) _ (Object_values episodeRenames)) as [st outs].
  cbn [fst snd issued app] in *.
  now destruct (Promise_all outs).
Qed.

Lemma allCalls_In (episodeRenames : SeasonMapping) (old new : jsstring) :
  In (old, new) (allCalls episodeRenames)
  <-> exists k entry m,
      In (k, entry) episodeRenames /\ In m (episodeMappings entry)
      /\ rename (value m) = true
      /\ old = originalPath (value m) /\ new = updatedPath (value m).
Proof.
  unfold allCalls, Object_values, callsOf. rewrite in_flat_map. split.
  - intros (entry & He & H). apply in_map_iff in He as ([k entry'] & <- & He).
    apply in_map_iff in H as (m & [= <- <-] & Hm).
    apply filter_In in Hm as [Hm Hr]. exists k, entry', m. auto.
  - intros (k & entry & m & He & Hm & Hr & -> & ->).
    exists entry. split; [apply in_map_iff; now exists (k, entry)|].
    apply in_map_iff. exists m. split; [reflexivity|].
    apply filter_In. now split.
Qed.

End Pipeline.

(** X15. The renames that the executor starts for the structure the
    builder returns are exactly these: for the last folder of each
    season number, each video file of the folder whose parsed number
    is the number of an episode of that season, and whose name is not
    the proposed one already, is renamed to the proposed name in the
    same folder.  No other path is renamed. *)
Theorem X15_pipeline_renames :
  forall fs seriesDirectory seriesDetails old new,
    In (old, new)
       (run_issued
          (renameEpisodes fs (generateEpisodeNames fs seriesDirectory seriesDetails)))
    <-> exists info f n e,
        lastFolderOf fs seriesDirectory (season info) = Some info
        /\ In f (getFileNames fs (Path.join seriesDirectory (fsm_folderName info)))
        /\ fileIsVideo f = true
        /\ matchEpisodeNumber episodeRegexes f = Some n
        /\ Array_find (hasNumber n) (episodesOfSeason seriesDetails (season info))
           = Some e
        /\ f <> proposedName seriesDetails (season info) f e
        /\ old = Path.join (Path.join seriesDirectory (fsm_folderName info)) f
        /\ new = Path.join (Path.join seriesDirectory (fsm_folderName info))
                           (proposedName seriesDetails (season info) f e).
Proof.
  intros fs dir sd old new. rewrite run_issued_allCalls, allCalls_In. split.
  - intros (k & entry & m & He & Hm & Hr & -> & ->).
    apply generateEpisodeNames_entries in He as (info & Hlast & ->).
    pose proof (lastFolderOf_season _ _ _ _ Hlast) as <-.
    cbn [seasonEntryOf episodeMappings] in Hm.
    apply built_from in Hm as (f & Hf & ->).
    destruct (generateEpisodeName_cases (seriesName sd)
                (Path.join dir (fsm_folderName info)) (season info) f
                (episodesOfSeason sd (season info)) None)
      as [E | (n & e & Hv & Hn & Hfind)].
    + rewrite E in Hr. discriminate.
    + exists info, f, n, e.
      rewrite (generateEpisodeName_matched _ _ _ _ _ _ n e Hv Hn Hfind) in *.
      cbn [value rename originalPath updatedPath] in *.
      apply negb_true_iff, str_eqb_neq in Hr.
      unfold proposedName. tauto.
  - intros (info & f & n & e & Hlast & Hf & Hv & Hn & Hfind & Hne & -> & ->).
    exists (season info), (seasonEntryOf fs dir sd info),
      (generateEpisodeName (seriesName sd) (Path.join dir (fsm_folderName info))
         (season info) f (episodesOfSeason sd (season info)) None).
    split; [apply generateEpisodeNames_entries; now exists info|].
    split; [cbn [seasonEntryOf episodeMappings]; apply built_from; now exists f|].
    rewrite (generateEpisodeName_matched (seriesName sd)
               (Path.join dir (fsm_folderName info)) (season info) f
               (episodesOfSeason sd (season info)) None n e Hv Hn Hfind).
    cbn [value rename originalPath updatedPath].
    split; [|split; reflexivity].
    apply negb_true_iff, str_eqb_neq. exact Hne.
Qed.

(** ** Proposed names are stable *)

Section Splitting.

Lemma startsWith_before (pat : jsstring) (c : char) (b : jsstring) :
  ~ In c pat ->
  forall a, startsWith (a ++ c :: b) pat = startsWith a pat.
Proof.
  induction pat as [|p pat IH]; intros Hc a; [reflexivity|].
  destruct a as [|y a]; cbn [app startsWith].
  - destruct (p =? c)%N eqn:E; [|reflexivity].
    apply N.eqb_eq in E. subst. exfalso. apply Hc. now left.
  - rewrite IH; [reflexivity|]. intros H. apply Hc. now right.
Qed.

Lemma startsWith_length (s pat : jsstring) :
  startsWith s pat = true -> (List.length pat <= List.length s)%nat.
Proof.
  intros H. apply startsWith_prefix in H as (rest & ->).
  rewrite length_app. lia.
Qed.

Lemma replace_from_split (pat rep : jsstring) (c : char) (b : jsstring) :
  ~ In c pat ->
  forall a skip,
    (skip <= List.length a)%nat ->
    replace_from pat rep skip (a ++ c :: b)
    = replace_from pat rep skip a ++ c :: replace_from pat rep 0 b.
Proof.
  intros Hc. induction a as [|x a IH]; intros skip Hskip.
  - cbn [List.length] in Hskip. assert (skip = 0%nat) by lia. subst skip.
    cbn [app replace_from]. destruct pat as [|p pat']; [reflexivity|].
    replace (startsWith (c :: b) (p :: pat')) with false; [reflexivity|].
    cbn [startsWith]. destruct (p =? c)%N eqn:E; [|reflexivity].
    apply N.eqb_eq in E. subst. exfalso. apply Hc. now left.
  - cbn [List.length] in Hskip.
    change ((x :: a) ++ c :: b) with (x :: (a ++ c :: b)).
    destruct skip as [|k]; cbn [replace_from].
    + destruct pat as [|p pat'].
      * rewrite IH by lia. reflexivity.
      * change (x :: (a ++ c :: b)) with ((x :: a) ++ c :: b).
        rewrite (startsWith_before (p :: pat') c b Hc (x :: a)).
        destruct (startsWith (x :: a) (p :: pat')) eqn:E.
        -- apply startsWith_length in E. cbn [List.length] in E.
           rewrite IH by lia. now rewrite app_assoc.
        -- rewrite IH by lia. reflexivity.
    + apply IH. lia.
Qed.

Lemma applyReplaces_split (c : char) (table : list EpisodeReplace) :
  Forall (fun r => ~ In c (pattern r)) table ->
  forall a b,
    applyReplaces table (a ++ c :: b)
    = applyReplaces table a ++ c :: applyReplaces table b.
Proof.
  induction 1 as [|r table Hr _ IH]; intros a b; [reflexivity|].
  cbn [applyReplaces fold_left]. fold (applyReplaces table).
  unfold replace_all.
  rewrite (replace_from_split _ _ c b Hr a 0) by lia.
  apply IH.
Qed.

(** A code unit that no pattern of the table holds cuts the string
    for the sanitizer. *)
Lemma sanitize_split (c : char) (a b : jsstring) :
  forallb (fun r => negb (mem c (pattern r))) episodeReplaces = true ->
  sanitize (a ++ c :: b) = sanitize a ++ c :: sanitize b.
Proof.
  intros H. apply applyReplaces_split.
  apply Forall_forall. intros r Hr.
  rewrite forallb_forall in H. specialize (H r Hr).
  now apply negb_true_iff, mem_false in H.
Qed.

Lemma sanitize_untouched (s : jsstring) :
  Forall (fun c => ~ In c sanitizedAway) s -> sanitize s = s.
Proof.
  intros H. rewrite Forall_forall in H.
  apply applyReplaces_id. unfold untouched, episodeReplaces.
  repeat constructor; cbn [pattern lit map list_ascii_of_string];
    intros Hin; apply (H _ Hin); cbn; tauto.
Qed.

End Splitting.

Section Labels.

Lemma digits_of_shape (fuel : nat) :
  forall n acc,
    exists ds, digits_of fuel n acc = ds ++ acc /\ allDigits ds
               /\ (fuel <> 0%nat -> ds <> []).
Proof.
  induction fuel as [|fuel IH]; intros n acc.
  - exists []. repeat split; [constructor | congruence].
  - cbn [digits_of].
    assert (Hd : isDigit (48 + n mod 10)%N = true).
    { pose proof (N.mod_upper_bound n 10 ltac:(discriminate)) as Hm.
      set (m := (n mod 10)%N) in *. clearbody m.
      unfold isDigit. apply andb_true_iff. split; apply N.leb_le; lia. }
    destruct (n <? 10)%N.
    + exists [(48 + n mod 10)%N]. repeat split; [now constructor | discriminate].
    + destruct (IH (n / 10)%N ((48 + n mod 10)%N :: acc)) as (ds & E & Hds & _).
      exists (ds ++ [(48 + n mod 10)%N]). rewrite E, <- app_assoc.
      repeat split.
      * apply Forall_app. split; [exact Hds | now constructor].
      * intros _ H. now apply app_eq_nil in H as [_ H].
Qed.

Lemma N_toString_digits (n : N) : allDigits (N_toString n) /\ N_toString n <> [].
Proof.
  unfold N_toString.
  destruct (digits_of_shape (S (N.to_nat (N.log2 n))) n []) as (ds & E & Hds & Hne).
  rewrite E, app_nil_r. split; [exact Hds | now apply Hne].
Qed.

Lemma Number_toString_units (z : Z) : Forall labelUnit (Number_toString z).
Proof.
  assert (H : forall n, Forall labelUnit (N_toString n)).
  { intros n. destruct (N_toString_digits n) as [H _].
    eapply Forall_impl; [|exact H]. intros c Hc. now left. }
  destruct z; cbn [Number_toString]; try apply H.
  constructor; [now right | apply H].
Qed.

Lemma twoZero_units (z : Z) : Forall labelUnit (twoZero z).
Proof.
  unfold twoZero. destruct (z <? 10)%Z; [|apply Number_toString_units].
  constructor; [now left | apply Number_toString_units].
Qed.

Lemma generateEpisodeNumber_units (n count : Z) :
  Forall labelUnit (generateEpisodeNumber n count).
Proof.
  unfold generateEpisodeNumber, threeZero.
  destruct (count <? 100)%Z; [apply twoZero_units|].
  destruct (n <? 100)%Z; [|apply Number_toString_units].
  constructor; [now left | apply twoZero_units].
Qed.

Lemma Number_toString_digits (n : Z) :
  (0 <= n)%Z -> allDigits (Number_toString n) /\ Number_toString n <> [].
Proof.
  intros H. rewrite (Number_toString_nonneg n H). apply N_toString_digits.
Qed.

Lemma generateEpisodeNumber_digits (n count : Z) :
  (0 <= n)%Z ->
  allDigits (generateEpisodeNumber n count) /\ generateEpisodeNumber n count <> [].
Proof.
  intros H. destruct (Number_toString_digits n H) as [Hd Hne].
  assert (H0 : isDigit 48%N = true) by reflexivity.
  unfold generateEpisodeNumber, threeZero, twoZero.
  destruct (count <? 100)%Z, (n <? 100)%Z, (n <? 10)%Z;
    (split; [repeat (constructor; [exact H0|]); exact Hd | try discriminate; exact Hne]).
Qed.

Lemma parseInt_zero (s : jsstring) : parseInt (48%N :: s) = parseInt s.
Proof. reflexivity. Qed.

(** The label reads back as the number of the episode. *)
Lemma parseInt_label (n count : Z) :
  (0 <= n)%Z -> parseInt (generateEpisodeNumber n count) = n.
Proof.
  intros H. unfold generateEpisodeNumber, threeZero, twoZero.
  destruct (count <? 100)%Z, (n <? 100)%Z, (n <? 10)%Z;
    cbn [app lit map list_ascii_of_string N_of_ascii];
    rewrite ?parseInt_zero; now apply parseInt_toString.
Qed.

End Labels.

Section Rerun.

Lemma String_match_after (cls : list char) (a b : jsstring) :
  String_match (ClassDigits cls) a = None -> nondigitHead b ->
  String_match (ClassDigits cls) (a ++ b) = String_match (ClassDigits cls) b.
Proof.
  intros Ha Hb. induction a as [|x a IH]; [reflexivity|].
  rewrite String_match_unfold in Ha.
  destruct (match_here (ClassDigits cls) (x :: a)) eqn:E; [discriminate|].
  change ((x :: a) ++ b) with (x :: (a ++ b)).
  rewrite String_match_unfold.
  replace (match_here (ClassDigits cls) (x :: (a ++ b))) with (@None jsstring);
    [now apply IH|].
  cbn [match_here] in *.
  destruct (existsb (N.eqb x) cls); [|reflexivity].
  destruct a as [|y a].
  - cbn [app]. destruct b as [|d b]; [reflexivity|].
    cbn [nondigitHead] in Hb. cbn [takeWhile]. now rewrite Hb.
  - cbn [app takeWhile] in *. destruct (isDigit y); [discriminate | reflexivity].
Qed.

Lemma String_match_skip (cls : list char) (pre s : jsstring) :
  Forall (fun c => ~ In c cls) pre ->
  String_match (ClassDigits cls) (pre ++ s) = String_match (ClassDigits cls) s.
Proof.
  induction 1 as [|x pre Hx _ IH]; [reflexivity|].
  change ((x :: pre) ++ s) with (x :: (pre ++ s)).
  rewrite String_match_unfold. cbn [match_here].
  destruct (existsb (N.eqb x) cls) eqn:E; [|exact IH].
  apply mem_class in E. contradiction.
Qed.

Lemma String_match_head (cls : list char) (c : char) (run rest : jsstring) :
  In c cls -> run <> [] -> allDigits run -> nondigitHead rest ->
  String_match (ClassDigits cls) (c :: run ++ rest) = Some (c :: run).
Proof.
  intros Hc Hne Hrun Hrest. rewrite String_match_unfold. cbn [match_here].
  rewrite (proj2 (mem_class c cls) Hc).
  rewrite (takeWhile_run isDigit run rest Hrun Hrest).
  destruct run; [congruence | reflexivity].
Qed.

(** The parser reads the number from the episode label when nothing
    before the label looks like one. *)
Lemma matchEpisodeNumber_label (P tz num rest : jsstring) :
  String_match (ClassDigits (lit "eE")) P = None ->
  Forall (fun c => ~ In c (lit "eE")) tz ->
  num <> [] -> allDigits num ->
  matchEpisodeNumber episodeRegexes
    (P ++ c_dot :: 83%N :: tz ++ 69%N :: num ++ c_dot :: rest)
  = Some (parseInt num).
Proof.
  intros HP Htz Hne Hnum.
  assert (Hm : String_match (ClassDigits (lit "eE"))
                 (P ++ c_dot :: 83%N :: tz ++ 69%N :: num ++ c_dot :: rest)
               = Some (69%N :: num)).
  { rewrite (String_match_after _ P _ HP) by reflexivity.
    etransitivity;
      [apply (String_match_skip (lit "eE") (c_dot :: 83%N :: tz))|].
    - constructor; [cbn; intuition discriminate|].
      constructor; [cbn; intuition discriminate | exact Htz].
    - apply String_match_head; [cbn; tauto | exact Hne | exact Hnum | reflexivity]. }
  cbn [matchEpisodeNumber episodeRegexes regex numberStart].
  now rewrite Hm.
Qed.

Lemma labelUnit_not_E (c : char) : labelUnit c -> ~ In c (lit "eE").
Proof.
  intros [H | ->]; cbn; intros [E | [E | []]]; try discriminate;
    subst c; discriminate.
Qed.

Lemma labelUnit_kept (c : char) : labelUnit c -> ~ In c sanitizedAway.
Proof.
  intros [H | ->] Hin; cbn in Hin;
    repeat (destruct Hin as [E | Hin]; [try discriminate; subst c; discriminate|]);
    exact Hin.
Qed.

Lemma dropWhile_run (p : char -> bool) (run : jsstring) (d : char) (rest : jsstring) :
  Forall (fun c => p c = true) run -> p d = false ->
  dropWhile p (run ++ d :: rest) = d :: rest.
Proof.
  intros Hrun Hd. induction Hrun as [|c run Hc _ IH]; cbn [app dropWhile].
  - now rewrite Hd.
  - now rewrite Hc.
Qed.

(** The extension of a name that ends in a dot and a suffix without
    a dot. *)
Lemma extname_suffix (pre e : jsstring) :
  plain (pre ++ c_dot :: e) -> pre <> [] -> ~ In c_dot e ->
  Path.extname (pre ++ c_dot :: e) = c_dot :: e.
Proof.
  intros Hp Hpre He. unfold Path.extname.
  rewrite (basename_plain _ Hp), rev_app_distr. cbn [rev].
  rewrite <- app_assoc. cbn [app].
  assert (Hrun : Forall (fun c => Path.notDot c = true) (rev e)).
  { apply Forall_forall. intros c Hc. apply in_rev in Hc.
    unfold Path.notDot. apply negb_true_iff, N.eqb_neq. intros ->. contradiction. }
  assert (Hd : Path.notDot c_dot = false) by reflexivity.
  rewrite (dropWhile_run _ _ _ _ Hrun Hd).
  rewrite (takeWhile_run Path.notDot (rev e) (c_dot :: rev pre) Hrun Hd).
  rewrite rev_involutive.
  destruct (rev pre) eqn:E.
  - apply (f_equal (@rev _)) in E. rewrite rev_involutive in E. contradiction.
  - destruct Hp as (_ & _ & Hdd & _).
    now rewrite (proj2 (str_eqb_neq _ _) Hdd).
Qed.

Lemma video_extension (f : jsstring) :
  fileIsVideo f = true ->
  exists e3,
    toLowerCase (Path.extname f) = c_dot :: e3
    /\ In e3 [lit "mp4"; lit "mkv"; lit "avi"].
Proof.
  unfold fileIsVideo, includes, videoFileExtensions. cbn [existsb].
  rewrite !orb_true_iff, !str_eqb_eq.
  intros [-> | [-> | [-> | H]]]; [| | |discriminate];
    eexists; (split; [reflexivity | cbn; tauto]).
Qed.

End Rerun.

Section ProposedShape.

Lemma label_untouched (season n count : Z) :
  sanitize (83%N :: twoZero season ++ 69%N :: generateEpisodeNumber n count)
  = 83%N :: twoZero season ++ 69%N :: generateEpisodeNumber n count.
Proof.
  apply sanitize_untouched.
  constructor; [cbn; intuition discriminate|].
  apply Forall_app. split.
  - eapply Forall_impl; [|apply twoZero_units]. apply labelUnit_kept.
  - constructor; [cbn; intuition discriminate|].
    eapply Forall_impl; [|apply generateEpisodeNumber_units]. apply labelUnit_kept.
Qed.

(** The sanitizer works on the parts of the proposed name one by one:
    the dots between them, the season and episode labels and the
    extension pass unchanged. *)
Lemma proposed_shape (e3 sn : jsstring) (season : Z) (title : jsstring) (n count : Z) :
  In e3 [lit "mp4"; lit "mkv"; lit "avi"] ->
  generateEpisodeFileName (c_dot :: e3) sn season title n count
  = sanitize sn
    ++ c_dot :: 83%N :: twoZero season ++ 69%N :: generateEpisodeNumber n count
    ++ c_dot :: sanitize title ++ c_dot :: e3.
Proof.
  intros He. unfold generateEpisodeFileName.
  assert (Harg :
            sn ++ lit ".S" ++ twoZero season ++ lit "E"
            ++ generateEpisodeNumber n count ++ lit "." ++ title ++ c_dot :: e3
            = sn ++ c_dot
                 :: (83%N :: twoZero season ++ 69%N :: generateEpisodeNumber n count)
                 ++ c_dot :: title ++ c_dot :: e3).
  { cbn [lit map list_ascii_of_string N_of_ascii app].
    now rewrite <- app_assoc. }
  rewrite Harg.
  rewrite !sanitize_split by reflexivity.
  rewrite label_untouched.
  assert (He3 : sanitize e3 = e3).
  { cbn [In] in He. destruct He as [<- | [<- | [<- | []]]]; reflexivity. }
  rewrite He3. cbn [app]. now rewrite <- app_assoc.
Qed.

End ProposedShape.

(** X16. A proposed name is stable.  Let a video file be matched to
    the first episode of the season's list that has its number, the
    number not being negative, and let the sanitized series name hold
    no [e] or [E] followed by a digit.  Then the proposed name is the
    sanitized series name, the labels, the sanitized title and the
    extension, joined by dots; it is a video file name from which the
    number of the episode is parsed again; and for a file of that
    name the builder proposes the same name, with the same episode and
    without a rename. *)
Theorem X16_proposed_name_is_stable :
  forall sn sf snum f eps e,
    fileIsVideo f = true ->
    Array_find (hasNumber (airedEpisodeNumber e)) eps = Some e ->
    (0 <= airedEpisodeNumber e)%Z ->
    ~ occurs (lit "eE") (sanitize sn) ->
    let count := Z.of_nat (List.length eps) in
    let proposed :=
      generateEpisodeFileName (toLowerCase (Path.extname f)) sn (airedSeason e)
        (episodeName e) (airedEpisodeNumber e) count in
    let again := generateEpisodeName sn sf snum proposed eps None in
    proposed
    = sanitize sn ++ lit ".S" ++ twoZero (airedSeason e) ++ lit "E"
      ++ generateEpisodeNumber (airedEpisodeNumber e) count ++ lit "."
      ++ sanitize (episodeName e) ++ toLowerCase (Path.extname f)
    /\ fileIsVideo proposed = true
    /\ matchEpisodeNumber episodeRegexes proposed = Some (airedEpisodeNumber e)
    /\ name again = proposed
    /\ episode (value again) = Some e
    /\ rename (value again) = false
    /\ updatedPath (value again) = originalPath (value again).
Proof.
  intros sn sf snum f eps e Hv Hfind Hn Hno count proposed again.
  destruct (video_extension f Hv) as (e3 & Hext & He3).
  set (label := generateEpisodeNumber (airedEpisodeNumber e) count).
  assert (Hshape :
            proposed
            = sanitize sn
              ++ c_dot :: 83%N :: twoZero (airedSeason e) ++ 69%N :: label
              ++ c_dot :: sanitize (episodeName e) ++ c_dot :: e3).
  { subst proposed. rewrite Hext. now apply proposed_shape. }
  assert (Hplain : plain proposed) by apply generateEpisodeFileName_plain.
  assert (Hdot : ~ In c_dot e3).
  { cbn [In] in He3. destruct He3 as [<- | [<- | [<- | []]]];
      cbn; intuition discriminate. }
  assert (Hgroup :
            proposed
            = (sanitize sn
               ++ c_dot :: 83%N :: twoZero (airedSeason e) ++ 69%N :: label
               ++ c_dot :: sanitize (episodeName e))
              ++ c_dot :: e3).
  { rewrite Hshape. repeat (rewrite <- app_assoc; cbn [app]). reflexivity. }
  assert (Hextname : toLowerCase (Path.extname proposed)
                     = toLowerCase (Path.extname f)).
  { rewrite Hext. rewrite Hgroup in Hplain |- *.
    rewrite (extname_suffix _ e3 Hplain); [| |exact Hdot].
    - cbn [In] in He3. destruct He3 as [<- | [<- | [<- | []]]]; reflexivity.
    - intros E. apply app_eq_nil in E as [_ E]. discriminate. }
  assert (Hvideo : fileIsVideo proposed = true).
  { unfold fileIsVideo in *. now rewrite Hextname. }
  destruct (generateEpisodeNumber_digits (airedEpisodeNumber e) count Hn)
    as [Hdigits Hne].
  assert (Hparse : matchEpisodeNumber episodeRegexes proposed
                   = Some (airedEpisodeNumber e)).
  { rewrite Hshape.
    etransitivity;
      [apply matchEpisodeNumber_label;
       [now apply String_match_class_none | | exact Hne | exact Hdigits]
      |f_equal; now apply parseInt_label].
    eapply Forall_impl; [|apply twoZero_units]. apply labelUnit_not_E. }
  assert (Hagain :
            again
            = {| name := proposed;
                 message := lit "E"
                            ++ label
                            ++ lit ": " ++ proposed ++ lit " > " ++ proposed;
                 value := {| originalPath := Path.join sf proposed;
                             updatedPath := Path.join sf proposed;
                             episode := Some e;
                             rename := negb (str_eqb proposed proposed);
                             episodeNumber :=
                               Some label;
                             seasonNumber := snum;
                             seasonFolder := sf |} |}).
  { subst again.
    rewrite (generateEpisodeName_matched sn sf snum proposed eps None
               (airedEpisodeNumber e) e Hvideo Hparse Hfind).
    rewrite Hextname. reflexivity. }
  split.
  { rewrite Hshape, Hext.
    cbn [lit map list_ascii_of_string N_of_ascii app]. reflexivity. }
  split; [exact Hvideo|]. split; [exact Hparse|].
  rewrite Hagain. cbn [name value episode rename updatedPath originalPath].
  rewrite str_eqb_refl. repeat split.
Qed.

(** ** Hoisting a tree *)

Section HoistTree.

Lemma hoistFiles_renames d renames directory files userAgreed old new :
  (forall q, In q files -> under directory q) ->
  In (RenamePath old new) (hoistFiles d renames directory files userAgreed)
  <-> userAgreed = Agreed /\ In old files
      /\ exists chain f,
          chain <> [] /\ Forall plain chain /\ plain f
          /\ old = Path.join (descend directory chain) f
          /\ new = Path.join directory f.
Proof.
  intros Hunder.
  assert (Hmoves : In (RenamePath old new) (filterMap (hoistMove directory) files)
                   <-> In old files
                       /\ exists chain f,
                           chain <> [] /\ Forall plain chain /\ plain f
                           /\ old = Path.join (descend directory chain) f
                           /\ new = Path.join directory f).
  { rewrite filterMap_In. split.
    - intros (x & Hx & Hm).
      destruct (hoistMove_under directory x _ (Hunder x Hx) Hm)
        as (chain & f & Hne & Hch & Hf & Ex & Em).
      injection Em as -> ->.
      split; [exact Hx|]. exists chain, f. tauto.
    - intros (Hin & chain & f & Hne & Hch & Hf & -> & ->).
      eexists; split; [exact Hin|]. now apply hoistMove_deep. }
  rewrite <- Hmoves. unfold hoistFiles.
  destruct userAgreed; try (split; [intros [] | intros [[=] _]]).
  destruct (forallb _ _); [rewrite In_rename_app|]; tauto.
Qed.

Lemma plainTree_subs (folders : list (jsstring * Tree)) :
  fold_right and True (map (fun sub => plainTree (snd sub)) folders)
  <-> Forall (fun sub => plainTree (snd sub)) folders.
Proof.
  induction folders as [|sub folders IH]; cbn [map fold_right].
  - split; [constructor | exact (fun _ => I)].
  - rewrite IH. split; [intros []; now constructor | intros H; inversion H; auto].
Qed.

Lemma HasFile_plain (t : Tree) (chain : list jsstring) (f : jsstring) :
  HasFile t chain f -> plainTree t -> Forall plain chain /\ plain f.
Proof.
  induction 1 as [files folders f Hf | files folders folder sub chain f Hin _ IH];
    intros (Hfiles & Hnames & Hsubs).
  - split; [constructor|]. rewrite Forall_forall in Hfiles. now apply Hfiles.
  - apply plainTree_subs in Hsubs. rewrite Forall_forall in Hsubs, Hnames.
    destruct (IH (Hsubs _ Hin)) as [Hch Hf].
    split; [|exact Hf]. constructor; [|exact Hch].
    apply Hnames. now apply (in_map fst) in Hin.
Qed.

Lemma descend_inj (directory : jsstring) (chain1 chain2 : list jsstring) (f : jsstring) :
  chain1 <> [] -> chain2 <> [] ->
  Forall plain chain1 -> Forall plain chain2 -> plain f ->
  Path.join (descend directory chain1) f = Path.join (descend directory chain2) f ->
  chain1 = chain2.
Proof.
  intros Hn1 Hn2 H1 H2 Hf E.
  destruct (join_facts (descend directory chain1) f Hf) as (_ & S1 & _).
  destruct (join_facts (descend directory chain2) f Hf) as (_ & S2 & _).
  rewrite E, S2 in S1.
  rewrite (proj2 (descend_facts chain1 directory Hn1 H1)) in S1.
  rewrite (proj2 (descend_facts chain2 directory Hn2 H2)) in S1.
  injection S1 as S1. apply app_inv_tail in S1.
  apply (f_equal (@rev _)) in S1. now rewrite !rev_involutive in S1.
Qed.

End HoistTree.

(** X17. Hoisting a directory that holds a finite tree of plainly
    named entries.  The listing returns, and on agreement exactly the
    files below the first level are moved, each into the directory
    itself under its own name.  Nothing guards the names: two files
    of the same name in different subfolders are moved onto the same
    path. *)
Theorem X17_hoist_of_a_tree :
  forall before after renames directory t fuel userAgreed,
    represents before directory t -> plainTree t -> (depth t <= fuel)%nat ->
    exists started,
      hoistFilesIn fuel before after renames directory userAgreed = Some started
      /\ (forall old new,
             In (RenamePath old new) started
             <-> userAgreed = Agreed
                 /\ exists chain f,
                     chain <> [] /\ HasFile t chain f
                     /\ old = Path.join (descend directory chain) f
                     /\ new = Path.join directory f)
      /\ (forall chain1 chain2 f,
             userAgreed = Agreed ->
             chain1 <> [] -> chain2 <> [] -> chain1 <> chain2 ->
             HasFile t chain1 f -> HasFile t chain2 f ->
             exists old1 old2 new,
               old1 <> old2
               /\ In (RenamePath old1 new) started
               /\ In (RenamePath old2 new) started).
Proof.
  intros before after renames directory t fuel userAgreed Hrep Hplain Hfuel.
  eexists. split.
  { unfold hoistFilesIn. rewrite (tree_listing before t directory fuel Hrep Hfuel).
    reflexivity. }
  assert (Hunder : forall q, In q (treeFiles directory t) -> under directory q).
  { intros q Hq. apply treeFiles_In in Hq as (chain & f & Hhas & ->).
    destruct (HasFile_plain t chain f Hhas Hplain) as [Hch Hf].
    exists chain, f. auto. }
  assert (Hmoves : forall old new,
             In (RenamePath old new)
                (hoistFiles after renames directory (treeFiles directory t) userAgreed)
             <-> userAgreed = Agreed
                 /\ exists chain f,
                     chain <> [] /\ HasFile t chain f
                     /\ old = Path.join (descend directory chain) f
                     /\ new = Path.join directory f).
  { intros old new. rewrite (hoistFiles_renames _ _ _ _ _ _ _ Hunder). split.
    - intros (Ha & Hin & chain & f & Hne & Hch & Hf & -> & ->).
      split; [exact Ha|].
      apply treeFiles_In in Hin as (chain' & f' & Hhas & E).
      destruct (HasFile_plain t chain' f' Hhas Hplain) as [Hch' Hf'].
      assert (f' = f).
      { apply (f_equal Path.basename) in E.
        now rewrite !basename_join in E by assumption. }
      subst f'.
      assert (chain' = chain).
      { destruct chain' as [|c chain'].
        - cbn [descend fold_left] in E.
          destruct (deeper_differs directory chain f f Hne Hch Hf Hf E).
        - symmetry.
          apply (descend_inj directory chain (c :: chain') f); auto; discriminate. }
      subst chain'. exists chain, f. auto.
    - intros (Ha & chain & f & Hne & Hhas & -> & ->).
      destruct (HasFile_plain t chain f Hhas Hplain) as [Hch Hf].
      split; [exact Ha|]. split.
      + apply treeFiles_In. now exists chain, f.
      + exists chain, f. auto. }
  split; [exact Hmoves|].
  intros chain1 chain2 f Ha Hn1 Hn2 Hne H1 H2.
  destruct (HasFile_plain t chain1 f H1 Hplain) as [Hc1 Hf].
  destruct (HasFile_plain t chain2 f H2 Hplain) as [Hc2 _].
  exists (Path.join (descend directory chain1) f),
    (Path.join (descend directory chain2) f), (Path.join directory f).
  split; [|split].
  - intros E. apply Hne. now apply (descend_inj directory chain1 chain2 f).
  - apply Hmoves. split; [exact Ha|]. now exists chain1, f.
  - apply Hmoves. split; [exact Ha|]. now exists chain2, f.
Qed.

(** ** The entry a command works on *)

Section Dirname.

Lemma dropWhile_none (p : char -> bool) (s : jsstring) :
  Forall (fun c => p c = true) s -> dropWhile p s = [].
Proof. induction 1 as [|c s Hc _ IH]; cbn [dropWhile]; [|rewrite Hc]; auto. Qed.

Lemma dropWhile_stay (p : char -> bool) (c : char) (s : jsstring) :
  p c = false -> dropWhile p (c :: s) = c :: s.
Proof. intros H. cbn [dropWhile]. now rewrite H. Qed.

Lemma rev_notSlash (a : jsstring) :
  ~ In c_slash a -> Forall (fun c => Path.notSlash c = true) (rev a).
Proof.
  intros Hs. apply Forall_forall. intros c Hc. apply in_rev in Hc.
  unfold Path.notSlash. apply negb_true_iff, N.eqb_neq. intros ->. contradiction.
Qed.

Lemma rev_head (a : jsstring) :
  a <> [] -> ~ In c_slash a ->
  exists y r, rev a = y :: r /\ (y =? c_slash)%N = false.
Proof.
  intros Hne Hs. destruct (rev a) as [|y r] eqn:E.
  - apply (f_equal (@rev _)) in E. rewrite rev_involutive in E. contradiction.
  - exists y, r. split; [reflexivity|]. apply N.eqb_neq. intros ->.
    apply Hs, in_rev. rewrite E. now left.
Qed.

Lemma dirname_single (a : jsstring) :
  a <> [] -> ~ In c_slash a ->
  dirname a = lit "." /\ dirname (c_slash :: a) = lit "/".
Proof.
  intros Hne Hs. split.
  - destruct a as [|c rest]; [congruence|]. cbn [dirname].
    assert (Hc : (c =? c_slash)%N = false).
    { apply N.eqb_neq. intros ->. apply Hs. now left. }
    assert (Hr : ~ In c_slash rest) by (intros H; apply Hs; now right).
    destruct rest as [|x rest]; [cbn; now rewrite Hc|].
    destruct (rev_head (x :: rest) ltac:(discriminate) Hr) as (y & r & E & Hy).
    rewrite E, (dropWhile_stay _ y r Hy), <- E.
    rewrite (dropWhile_none _ _ (rev_notSlash _ Hr)). now rewrite Hc.
  - cbn [dirname]. rewrite N.eqb_refl.
    destruct (rev_head a Hne Hs) as (y & r & E & Hy).
    rewrite E, (dropWhile_stay _ y r Hy), <- E.
    now rewrite (dropWhile_none _ _ (rev_notSlash _ Hs)).
Qed.

Lemma dirname_prefix (c : char) (P' a : jsstring) :
  a <> [] -> ~ In c_slash a ->
  (P' <> [] \/ c <> c_slash) ->
  dirname ((c :: P') ++ c_slash :: a) = c :: P'.
Proof.
  intros Hne Hs HP. cbn [app dirname].
  rewrite rev_app_distr. cbn [rev]. rewrite <- app_assoc. cbn [app].
  destruct (rev_head a Hne Hs) as (y & r & E & Hy).
  rewrite E. cbn [app]. rewrite (dropWhile_stay _ y _ Hy).
  change (y :: r ++ c_slash :: rev P') with ((y :: r) ++ c_slash :: rev P').
  rewrite <- E.
  rewrite (dropWhile_run Path.notSlash (rev a) c_slash (rev P')
             (rev_notSlash _ Hs) eq_refl).
  destruct (rev P') as [|x before] eqn:EP.
  - apply (f_equal (@rev _)) in EP. rewrite rev_involutive in EP. cbn in EP.
    subst P'. destruct HP as [H | H]; [congruence|].
    now rewrite (proj2 (N.eqb_neq c c_slash) H).
  - rewrite <- EP. now rewrite rev_involutive.
Qed.

Lemma settle_facts (isAbsolute : bool) (stack : list jsstring) :
  normalStack (negb isAbsolute) stack ->
  isAbsolutePath (settle isAbsolute stack) = isAbsolute
  /\ stackOf (settle isAbsolute stack) = stack.
Proof.
  intros Hst. destruct stack as [|seg stack].
  - destruct isAbsolute; split; reflexivity.
  - assert (Hne : seg :: stack <> []) by discriminate.
    destruct (stackOf_render isAbsolute (seg :: stack) Hne Hst) as (H1 & H2 & _).
    assert (E : settle isAbsolute (seg :: stack) = render isAbsolute (seg :: stack)).
    { unfold settle, render.
      destruct (intercalate_nonempty (rev (seg :: stack))) as (c & s & -> & _);
        [|apply Forall_rev; now apply (normalStack_kept (negb isAbsolute))
         |reflexivity].
      intros H. apply (f_equal (@rev _)) in H. rewrite rev_involutive in H.
      discriminate. }
    rewrite E. now split.
Qed.

Lemma dirname_join (dir a : jsstring) :
  plain a ->
  dirname (Path.join dir a) = settle (isAbsolutePath dir) (stackOf dir).
Proof.
  intros Ha. pose proof Ha as (Hne & _ & _ & Hs).
  rewrite (join_render dir a Ha). unfold render, settle. cbn [rev].
  rewrite intercalate_snoc.
  pose proof (stackOf_normal dir) as Hst.
  destruct (rev (stackOf dir)) as [|seg segs] eqn:E.
  - cbn [Path.intercalate].
    destruct (dirname_single a Hne Hs) as [H1 H2].
    destruct (isAbsolutePath dir); [exact H2 | exact H1].
  - destruct (intercalate_nonempty (seg :: segs)) as (c & s & Ei & Hc);
      [discriminate | |].
    { rewrite <- E. apply Forall_rev.
      now apply (normalStack_kept (negb (isAbsolutePath dir))). }
    rewrite Ei. destruct (isAbsolutePath dir).
    + cbn [lit map list_ascii_of_string N_of_ascii app].
      apply (dirname_prefix c_slash (c :: s) a Hne Hs). left. discriminate.
    + cbn [lit map list_ascii_of_string N_of_ascii app].
      apply (dirname_prefix c s a Hne Hs). now right.
Qed.

(** Joining a name to the directory part of a joined path gives its
    sibling. *)
Lemma join_dirname (dir a x : jsstring) :
  plain a -> plain x ->
  Path.join (dirname (Path.join dir a)) x = Path.join dir x.
Proof.
  intros Ha Hx. rewrite (dirname_join dir a Ha).
  destruct (settle_facts (isAbsolutePath dir) (stackOf dir) (stackOf_normal dir))
    as [H1 H2].
  now rewrite (join_render _ x Hx), H1, H2, <- (join_render dir x Hx).
Qed.

Lemma join_parent (dir a : jsstring) :
  plain a ->
  Path.join (Path.join (Path.join dir a) (lit "..")) a = Path.join dir a.
Proof.
  intros Ha. rewrite (join_dotdot dir a Ha).
  destruct (settle_facts (isAbsolutePath dir) (stackOf dir) (stackOf_normal dir))
    as [H1 H2].
  now rewrite (join_render _ a Ha), H1, H2, <- (join_render dir a Ha).
Qed.

End Dirname.

(** X18. The rename prompt works on the entry it is opened for.
    For the path of an entry of a directory, directory and file name
    put together again give the path; a cancelled prompt asks for
    nothing; a plain name entered renames the entry to its sibling
    of that name in the same directory, the own name to itself; and
    the new name is highlighted exactly when the rename succeeds. *)
Theorem X18_rename_addresses_the_entry :
  forall renames currentDirectory entry,
    plain entry ->
    let filePath := Path.join currentDirectory entry in
    Path.join (dirname filePath) (Path.basename filePath) = filePath
    /\ promptRename renames filePath None = {| asked := []; highlight := None |}
    /\ (forall newName,
           plain newName ->
           asked (promptRename renames filePath (Some newName))
           = [RenamePath filePath (Path.join currentDirectory newName)]
           /\ Path.basename (Path.join currentDirectory newName) = newName
           /\ (highlight (promptRename renames filePath (Some newName))
               = Some newName
               <-> renames filePath (Path.join currentDirectory newName) = true))
    /\ asked (promptRename renames filePath (Some entry))
       = [RenamePath filePath filePath].
Proof.
  intros renames cur entry He filePath.
  assert (Hround : Path.join (dirname filePath) (Path.basename filePath) = filePath).
  { subst filePath. rewrite (basename_join cur entry He).
    now apply join_dirname. }
  assert (Hnew : forall newName,
             plain newName ->
             asked (promptRename renames filePath (Some newName))
             = [RenamePath filePath (Path.join cur newName)]
             /\ (highlight (promptRename renames filePath (Some newName))
                 = Some newName
                 <-> renames filePath (Path.join cur newName) = true)).
  { intros newName Hn. unfold promptRename. cbn [asked highlight].
    rewrite Hround. subst filePath. rewrite (join_dirname cur entry newName He Hn).
    split; [reflexivity|].
    destruct (renames _ _); split; congruence. }
  split; [exact Hround|]. split; [reflexivity|]. split.
  - intros newName Hn. destruct (Hnew newName Hn) as [H1 H2].
    split; [exact H1|]. split; [now apply basename_join | exact H2].
  - exact (proj1 (Hnew entry He)).
Qed.

(** X19. A key of the folder selection starts at most one command.
    The delete command goes to the path of the highlighted choice:
    for a plain entry that is the entry of the current directory, and
    on agreement it is removed; with [..] highlighted in a directory
    that is itself an entry of a parent it is the parent, so that
    the removal takes the current directory with it.  Unless the
    user agrees nothing is removed. *)
Theorem X19_delete_goes_to_the_highlighted_choice :
  forall key selected place,
    (List.length (folderSelectionCommands key selected place) <= 1)%nat
    /\ folderSelectionCommands (lit "d") selected place
       = [DeleteEntry (Path.join (currentDirectory place) selected)]
    /\ (plain selected ->
        Path.basename (Path.join (currentDirectory place) selected) = selected)
    /\ (forall parent entry,
           plain entry ->
           currentDirectory place = Path.join parent entry ->
           exists target,
             folderSelectionCommands (lit "d") (lit "..") place = [DeleteEntry target]
             /\ asked (promptDeleteFolder target Agreed) = [RemoveTree target]
             /\ target = Path.join parent (lit ".")
             /\ Path.join target entry = currentDirectory place)
    /\ (forall filePath userAgreed,
           userAgreed <> Agreed -> asked (promptDeleteFolder filePath userAgreed) = []).
Proof.
  intros key selected place. split; [|split; [|split; [|split]]].
  - unfold folderSelectionCommands.
    destruct (str_eqb key (lit "r")) eqn:Er;
      [apply str_eqb_eq in Er; subst key; cbn; lia|].
    destruct (str_eqb key (lit "c")) eqn:Ec;
      [apply str_eqb_eq in Ec; subst key; cbn; lia|].
    destruct (str_eqb key (lit "d")) eqn:Ed;
      [apply str_eqb_eq in Ed; subst key; cbn; lia|].
    destruct (str_eqb key (lit "h")) eqn:Eh;
      [apply str_eqb_eq in Eh; subst key; cbn; lia|].
    destruct (str_eqb key (lit "m")) eqn:Em;
      [apply str_eqb_eq in Em; subst key; cbn; lia|].
    destruct (str_eqb key (lit "u")) eqn:Eu;
      [apply str_eqb_eq in Eu; subst key; cbn; lia|].
    destruct (str_eqb key (lit "p")) eqn:Ep;
      [apply str_eqb_eq in Ep; subst key; cbn; lia|].
    destruct (str_eqb key (lit "e")) eqn:Ee;
      [apply str_eqb_eq in Ee; subst key; cbn; lia|].
    destruct (str_eqb key (lit "s")); cbn; lia.
  - reflexivity.
  - intros Hs. now apply basename_join.
  - intros parent entry He Hcur. eexists. split; [reflexivity|].
    split; [reflexivity|]. rewrite Hcur. split.
    + now rewrite (join_dotdot parent entry He), join_dot.
    + now apply join_parent.
  - intros filePath userAgreed H. destruct userAgreed; [congruence | |]; reflexivity.
Qed.

(** ** The order of the review list *)

Section StringOrder.

Lemma str_ltb_irrefl (a : jsstring) : str_ltb a a = false.
Proof.
  induction a as [|x a IH]; [reflexivity|]. cbn [str_ltb].
  now rewrite N.ltb_irrefl, N.eqb_refl, IH.
Qed.

Lemma str_ltb_cons (x y : char) (a b : jsstring) :
  str_ltb (x :: a) (y :: b) = true
  <-> (x < y)%N \/ (x = y /\ str_ltb a b = true).
Proof.
  cbn [str_ltb]. rewrite orb_true_iff, andb_true_iff, N.ltb_lt, N.eqb_eq. tauto.
Qed.

Lemma str_ltb_trans (a : jsstring) :
  forall b c, str_ltb a b = true -> str_ltb b c = true -> str_ltb a c = true.
Proof.
  induction a as [|x a IH]; intros [|y b] [|z c] H1 H2; try discriminate;
    try reflexivity.
  apply str_ltb_cons in H1, H2. apply str_ltb_cons.
  destruct H1 as [H1 | [-> H1]], H2 as [H2 | [-> H2]].
  - left. lia.
  - now left.
  - now left.
  - right. split; [reflexivity|]. now apply (IH b c).
Qed.

Lemma str_ltb_total (a : jsstring) :
  forall b, str_ltb a b = false -> str_ltb b a = false -> a = b.
Proof.
  induction a as [|x a IH]; intros [|y b] H1 H2; try discriminate; [reflexivity|].
  cbn [str_ltb] in H1, H2.
  apply orb_false_iff in H1 as [L1 E1], H2 as [L2 E2].
  apply N.ltb_ge in L1, L2. assert (x = y) by lia. subst y.
  rewrite N.eqb_refl in E1, E2. cbn [andb] in E1, E2.
  now rewrite (IH b E1 E2).
Qed.

Lemma str_ltb_asym (a b : jsstring) : str_ltb a b = true -> str_ltb b a = false.
Proof.
  intros H. destruct (str_ltb b a) eqn:E; [|reflexivity].
  pose proof (str_ltb_trans a b a H E) as Hc.
  now rewrite str_ltb_irrefl in Hc.
Qed.

Lemma compareStrings_le (a b : jsstring) :
  (compareStrings a b <=? 0)%Z = true <-> strLe a b.
Proof.
  unfold compareStrings, strLe.
  destruct (str_ltb a b) eqn:E1.
  - rewrite (str_ltb_asym a b E1). split; reflexivity.
  - destruct (str_ltb b a); split; auto; discriminate.
Qed.

Lemma strLe_total (a b : jsstring) : strLe a b \/ strLe b a.
Proof.
  unfold strLe. destruct (str_ltb b a) eqn:E; [right | now left].
  now apply str_ltb_asym.
Qed.

Lemma strLe_trans (a b c : jsstring) : strLe a b -> strLe b c -> strLe a c.
Proof.
  unfold strLe. intros H1 H2.
  destruct (str_ltb c a) eqn:E; [|reflexivity].
  destruct (str_ltb a b) eqn:Eab.
  - pose proof (str_ltb_trans c a b E Eab) as Hc. congruence.
  - rewrite (str_ltb_total a b Eab H1) in E. congruence.
Qed.

Lemma sort_insert_strings (x : jsstring) (l : list jsstring) :
  StronglySorted strLe l -> StronglySorted strLe (sort_insert compareStrings x l).
Proof.
  induction 1 as [|y l Hs IH Hy]; cbn [sort_insert].
  - repeat constructor.
  - destruct (compareStrings x y <=? 0)%Z eqn:E.
    + apply compareStrings_le in E.
      constructor; [now constructor|].
      constructor; [exact E|].
      eapply Forall_impl; [|exact Hy]. intros z Hz.
      exact (strLe_trans _ _ _ E Hz).
    + constructor; [exact IH|].
      assert (Hyx : strLe y x).
      { destruct (strLe_total x y) as [H | H]; [|exact H].
        apply compareStrings_le in H. congruence. }
      apply Forall_forall. intros z Hz.
      apply (Permutation_in _ (sort_insert_perm compareStrings x l)) in Hz.
      destruct Hz as [<- | Hz]; [exact Hyx|].
      rewrite Forall_forall in Hy. now apply Hy.
Qed.

Lemma reviewSeasons_sorted (renames : SeasonMapping) :
  StronglySorted strLe (reviewSeasons renames).
Proof.
  unfold reviewSeasons.
  induction (Object_keys renames) as [|x l IH]; cbn [Array_sort]; [constructor|].
  now apply sort_insert_strings.
Qed.

Lemma find_key (renames : SeasonMapping) (k : Z) (entry : SeasonEntry) :
  NoDup (Object_keys renames) -> In (k, entry) renames ->
  obj_get_key (Number_toString k) renames = Some entry.
Proof.
  unfold obj_get_key, Object_keys.
  induction renames as [|[k' entry'] renames IH]; intros Hnd []; cbn [find fst].
  - injection H as -> ->. now rewrite str_eqb_refl.
  - cbn [map fst] in Hnd. inversion Hnd as [|? ? Hnot Hnd']; subst.
    destruct (str_eqb (Number_toString k') (Number_toString k)) eqn:E.
    + apply str_eqb_eq in E. exfalso. apply Hnot. rewrite E.
      apply in_map_iff. now exists (k, entry).
    + now apply IH.
Qed.

Lemma found_key (renames : SeasonMapping) (season : jsstring) (entry : SeasonEntry) :
  obj_get_key season renames = Some entry ->
  exists k, In (k, entry) renames /\ season = Number_toString k.
Proof.
  unfold obj_get_key. destruct (find _ renames) as [[k e]|] eqn:E; [|discriminate].
  intros [= <-]. apply find_some in E as [Hin E]. apply str_eqb_eq in E.
  exists k. now split.
Qed.

End StringOrder.

(** X20. The review list shows the seasons in the order of their
    numerals as strings, not of the numbers: the seasons shown are a
    rearrangement of the property names, ascending by code units, so
    that season 10 stands before season 2.  Under each header the
    mappings of that season follow: a mapping is a choice of the list
    exactly when it is a mapping of an entry of the structure, and a
    season header is never enabled. *)
Theorem X20_review_list_order :
  forall currentEpisodeRenames,
    NoDup (Object_keys currentEpisodeRenames) ->
    Permutation (reviewSeasons currentEpisodeRenames)
                (Object_keys currentEpisodeRenames)
    /\ StronglySorted strLe (reviewSeasons currentEpisodeRenames)
    /\ (forall m,
           In (MappingChoice m) (reviewOptions currentEpisodeRenames)
           <-> exists k entry,
               In (k, entry) currentEpisodeRenames
               /\ In m (episodeMappings entry))
    /\ (forall header,
           In (SeasonHeader header) (reviewOptions currentEpisodeRenames) ->
           isDisabled header = true
           /\ exists k entry,
               In (k, entry) currentEpisodeRenames
               /\ header = seasonHeader (Number_toString k) entry)
    /\ (forall second tenth,
           reviewOptions [(2%Z, second); (10%Z, tenth)]
           = SeasonHeader (seasonHeader (lit "10") tenth)
             :: map MappingChoice (episodeMappings tenth)
             ++ SeasonHeader (seasonHeader (lit "2") second)
             :: map MappingChoice (episodeMappings second)).
Proof.
  intros renames Hnd.
  assert (Hperm : Permutation (reviewSeasons renames) (Object_keys renames))
    by apply Array_sort_perm.
  split; [exact Hperm|]. split; [apply reviewSeasons_sorted|].
  split; [|split].
  - intros m. unfold reviewOptions. rewrite in_flat_map. split.
    + intros (season & _ & H).
      destruct (obj_get_key season renames) as [entry|] eqn:E; [|destruct H].
      destruct H as [H | H]; [discriminate|].
      apply in_map_iff in H as (m' & [= ->] & Hm).
      destruct (found_key _ _ _ E) as (k & Hin & _). now exists k, entry.
    + intros (k & entry & Hin & Hm). exists (Number_toString k). split.
      * apply (Permutation_in _ (Permutation_sym Hperm)).
        unfold Object_keys. apply in_map_iff. now exists (k, entry).
      * rewrite (find_key renames k entry Hnd Hin). right.
        now apply in_map.
  - intros header. unfold reviewOptions. rewrite in_flat_map.
    intros (season & _ & H).
    destruct (obj_get_key season renames) as [entry|] eqn:E; [|destruct H].
    destruct H as [[= <-] | H].
    + split; [reflexivity|].
      destruct (found_key _ _ _ E) as (k & Hin & ->). now exists k, entry.
    + apply in_map_iff in H as (m' & [=] & _).
  - intros second tenth. unfold reviewOptions, reviewSeasons.
    cbn [Object_keys map fst]. vm_compute Number_toString.
    cbn. rewrite ?app_nil_r. reflexivity.
Qed.

(** ** Instances of the further properties *)

(** X3 at the folder [Season 1] of [/media/Show]. *)
Lemma X3_down_and_up_witness :
  plain (lit "Season 1")
  /\ currentDirectory
       (selectFolder (lit "..") (selectFolder (lit "Season 1") sampleLocation))
     = Path.join (lit "/media/Show") (lit ".")
  /\ highlightedFolder
       (selectFolder (lit "..") (selectFolder (lit "Season 1") sampleLocation))
     = lit "Season 1".
Proof.
  assert (H : plain (lit "Season 1")) by plain_lit.
  split; [exact H|].
  split; [exact (proj1 (X3_down_and_up sampleLocation (lit "Season 1") H))
         |exact (proj1 (proj2 (X3_down_and_up sampleLocation (lit "Season 1") H)))].
Defined.


(** X5 at the sample disk, whose tree is two levels deep. *)
Lemma X5_recursion_as_deep_as_the_tree_witness :
  represents sampleDisk (lit "Show") sampleTree
  /\ Listing.getAllFilesInFolder 1 sampleDisk (lit "Show") = None.
Proof.
  assert (H : represents sampleDisk (lit "Show") sampleTree).
  { cbn [represents sampleTree map fold_right fst snd].
    repeat split; reflexivity. }
  split; [exact H|].
  apply (proj2 (X5_recursion_as_deep_as_the_tree sampleDisk (lit "Show")
                  sampleTree 1 H)).
  cbn. lia.
Defined.

(** X6 at the two files found under [Show]: the cover stays, the
    file of the season folder is moved. *)
Lemma X6_hoist_moves_then_removes_witness :
  (forall q, In q foundFiles -> under (lit "Show") q)
  /\ ~ In (RenamePath (Path.join (lit "Show") (lit "cover.jpg")) (lit "Show/cover.jpg"))
          (hoistFiles sampleDisk (fun _ _ => true) (lit "Show") foundFiles Agreed)
  /\ (Declined <> Agreed ->
      hoistFiles sampleDisk (fun _ _ => true) (lit "Show") foundFiles Declined = []).
Proof.
  assert (H : forall q, In q foundFiles -> under (lit "Show") q).
  { intros q [<- | [<- | []]].
    - exists [], (lit "cover.jpg").
      split; [constructor|]. split; [plain_lit | reflexivity].
    - exists [lit "Season 1"], (lit "Show.e01.mkv").
      split; [constructor; [plain_lit | constructor]|].
      split; [plain_lit | reflexivity]. }
  assert (Hc : plain (lit "cover.jpg")) by plain_lit.
  split; [exact H|].
  split.
  - exact (proj1 (proj2 (proj2 (proj2
             (X6_hoist_moves_then_removes sampleDisk (fun _ _ => true) (lit "Show")
                foundFiles Agreed H))))
             (lit "cover.jpg") (lit "Show/cover.jpg") Hc).
  - exact (proj1 (X6_hoist_moves_then_removes sampleDisk (fun _ _ => true)
                    (lit "Show") foundFiles Declined H)).
Defined.

(** X7 at the text file of the season folder. *)
Lemma X7_purge_spares_videos_witness :
  plain (lit "readme.txt")
  /\ In (Unlink (Path.join (lit "Show/Season 1") (lit "readme.txt")))
        (promptNonVideoPurge
           [lit "Show/Season 1/readme.txt"; lit "Show/Season 1/Show.e01.mkv"]
           Agreed).
Proof.
  assert (H : plain (lit "readme.txt")) by plain_lit.
  split; [exact H|].
  apply (proj1 (proj2 (X7_purge_spares_videos
                         [lit "Show/Season 1/readme.txt";
                          lit "Show/Season 1/Show.e01.mkv"] Agreed))
               (lit "Show/Season 1") (lit "readme.txt") H).
  split; [reflexivity|]. split; [left; reflexivity | reflexivity].
Defined.

(** X8 at the folder [Season 1] of [Show], moved from [Show]. *)
Lemma X8_move_target_witness :
  (plain (lit "Season 1")
   /\ In (lit "Season 1") (Listing.getFolderNames sampleDisk (lit "Show")))
  /\ targetIsAcceptable
       (promptMoveFolder sampleDisk (lit "Show")
          (Path.join (lit "Show") (lit "Season 1"))) = false.
Proof.
  assert (H1 : plain (lit "Season 1")) by plain_lit.
  assert (H2 : In (lit "Season 1") (Listing.getFolderNames sampleDisk (lit "Show")))
    by (left; reflexivity).
  split; [split; assumption|].
  exact (proj1 (proj2 (proj1 (proj2 (X8_move_target sampleDisk (lit "Show")))
                             (lit "Season 1") H1 H2))).
Defined.

(** X11 at the key [m] in the folder selection: the move prompt is
    entered and its handler does not see the key. *)
Lemma X11_one_handler_per_key_witness :
  fromKeyboard keyM
  /\ Workflow.handleKeyPress [] true keyM (at_ Workflow.FolderSelection None)
     = at_ Workflow.MoveFolder None.
Proof.
  assert (H : fromKeyboard keyM) by (intros Hb; discriminate Hb).
  split; [exact H|].
  exact (X11_one_handler_per_key [] true keyM
           (at_ Workflow.FolderSelection None) H).
Defined.

(** X13 at the video file [clip.mkv], assigned to the second episode
    of the sample series. *)
Lemma X13_reassignment_effect_witness :
  (In second (episodes showSeries)
   /\ fileIsVideo (Path.basename (originalPath (value clip))) = true)
  /\ exists e,
      Array_find (hasNumber (airedEpisodeNumber second))
                 (episodesOfSeason showSeries (airedSeason second)) = Some e
      /\ airedEpisodeNumber e = 2%Z.
Proof.
  assert (H1 : In second (episodes showSeries)) by (right; left; reflexivity).
  assert (H2 : fileIsVideo (Path.basename (originalPath (value clip))) = true)
    by reflexivity.
  split; [split; assumption|].
  destruct (proj1 (proj2 (proj2 (X13_reassignment_effect showSeries clip second [])))
                  H1 H2) as (e & He & _ & _ & _ & Hn).
  exists e. split; [exact He | exact Hn].
Defined.

(** X16 at the file of the pilot of the sample series. *)
Lemma X16_proposed_name_is_stable_witness :
  (fileIsVideo (lit "Show.e01.mkv") = true
   /\ Array_find (hasNumber (airedEpisodeNumber pilot)) [pilot; second] = Some pilot
   /\ (0 <= airedEpisodeNumber pilot)%Z
   /\ ~ occurs (lit "eE") (sanitize (lit "Show")))
  /\ rename
       (value
          (generateEpisodeName (lit "Show") (lit "Show/Season 1") 1
             (generateEpisodeFileName
                (toLowerCase (Path.extname (lit "Show.e01.mkv"))) (lit "Show")
                (airedSeason pilot) (episodeName pilot) (airedEpisodeNumber pilot)
                (Z.of_nat (List.length [pilot; second])))
             [pilot; second] None))
     = false.
Proof.
  assert (H1 : fileIsVideo (lit "Show.e01.mkv") = true) by reflexivity.
  assert (H2 : Array_find (hasNumber (airedEpisodeNumber pilot)) [pilot; second]
               = Some pilot) by reflexivity.
  assert (H3 : (0 <= airedEpisodeNumber pilot)%Z) by (cbn; lia).
  assert (H4 : ~ occurs (lit "eE") (sanitize (lit "Show")))
    by (apply no_occurrence; reflexivity).
  split; [repeat split; assumption|].
  exact (proj1 (proj2 (proj2 (proj2 (proj2 (proj2
           (X16_proposed_name_is_stable (lit "Show") (lit "Show/Season 1") 1
              (lit "Show.e01.mkv") [pilot; second] pilot H1 H2 H3 H4))))))).
Defined.

(** X17 at the sample disk. *)
Lemma X17_hoist_of_a_tree_witness :
  (represents sampleDisk (lit "Show") sampleTree
   /\ plainTree sampleTree /\ (depth sampleTree <= 2)%nat)
  /\ exists started,
      hoistFilesIn 2 sampleDisk sampleDisk (fun _ _ => true) (lit "Show") Agreed
      = Some started.
Proof.
  assert (H1 : represents sampleDisk (lit "Show") sampleTree).
  { cbn [represents sampleTree map fold_right fst snd].
    repeat split; reflexivity. }
  assert (H2 : plainTree sampleTree).
  { cbn [plainTree sampleTree map fold_right fst snd].
    repeat split; repeat constructor; plain_lit. }
  assert (H3 : (depth sampleTree <= 2)%nat) by (cbn; lia).
  split; [split; [exact H1 | split; [exact H2 | exact H3]]|].
  destruct (X17_hoist_of_a_tree sampleDisk sampleDisk (fun _ _ => true) (lit "Show")
              sampleTree 2 Agreed H1 H2 H3) as (started & Hs & _).
  exists started. exact Hs.
Defined.

(** X18 at a file of the season folder, renamed to its own name. *)
Lemma X18_rename_addresses_the_entry_witness :
  plain (lit "Show.e01.mkv")
  /\ asked (promptRename (fun _ _ => true)
              (Path.join (lit "Show/Season 1") (lit "Show.e01.mkv"))
              (Some (lit "Show.e01.mkv")))
     = [RenamePath (Path.join (lit "Show/Season 1") (lit "Show.e01.mkv"))
                   (Path.join (lit "Show/Season 1") (lit "Show.e01.mkv"))].
Proof.
  assert (H : plain (lit "Show.e01.mkv")) by plain_lit.
  split; [exact H|].
  exact (proj2 (proj2 (proj2
           (X18_rename_addresses_the_entry (fun _ _ => true) (lit "Show/Season 1")
              (lit "Show.e01.mkv") H)))).
Defined.

(** X19 in [/media/Show] with the parent entry highlighted. *)
Lemma X19_delete_goes_to_the_highlighted_choice_witness :
  (plain (lit "Show")
   /\ currentDirectory sampleLocation = Path.join (lit "/media") (lit "Show"))
  /\ exists target,
      folderSelectionCommands (lit "d") (lit "..") sampleLocation
      = [DeleteEntry target]
      /\ Path.join target (lit "Show") = currentDirectory sampleLocation.
Proof.
  assert (H1 : plain (lit "Show")) by plain_lit.
  assert (H2 : currentDirectory sampleLocation = Path.join (lit "/media") (lit "Show"))
    by reflexivity.
  split; [split; assumption|].
  destruct (proj1 (proj2 (proj2 (proj2
              (X19_delete_goes_to_the_highlighted_choice (lit "d") (lit "..")
                 sampleLocation))))
              (lit "/media") (lit "Show") H1 H2) as (target & Hc & _ & _ & Hj).
  exists target. split; [exact Hc | exact Hj].
Defined.

(** X20 at a structure with the seasons 2 and 10. *)
Lemma X20_review_list_order_witness :
  NoDup (Object_keys twoSeasons)
  /\ reviewSeasons twoSeasons = [lit "10"; lit "2"]
  /\ StronglySorted strLe (reviewSeasons twoSeasons).
Proof.
  assert (H : NoDup (Object_keys twoSeasons)).
  { constructor; [|constructor; [|constructor]].
    - intros [E | []]. discriminate E.
    - intros []. }
  split; [exact H|]. split; [reflexivity|].
  exact (proj1 (proj2 (X20_review_list_order twoSeasons H))).
Defined.
